(** * Conversational database interface: read-only guard and chat pipeline

    A shallow embedding of [test_validation_only.py] (the read-only query
    validator, repeated verbatim in [test_llm_prompt_injection.py]) and of the
    [DatabaseManager], [LLMClient] and [ChatInterface] classes of [chat.py].

    Python [str] values are sequences of Unicode code points.  The string
    methods the program calls are written out on that representation; the
    case mappings of the code points outside ASCII (the Unicode character
    database, which is part of the interpreter and not of the repository)
    are taken as parameters.

    The methods of [chat.py] run in a world made of the database
    connection, the console, the keyboard and the language model.  The
    database holds the two tables the program owns, the catalog and the
    application's tables; the four statements the program writes itself
    are given their meaning on these tables, and every other statement
    (the SQL the model writes) is left to a parameter.  What the user
    types, what the model answers and which statements fail are scripts
    indexed by the number of the request.  A statement that fails raises
    in [cur.execute]; the rollback that follows it succeeds.  Loading the
    embedding model and encoding a text do not fail. *)

From Stdlib Require Import List NArith ZArith QArith Bool Arith Lia String Ascii.
From Stdlib Require Import DecimalString.
From Stdlib Require Import Sorting.Sorted Sorting.Permutation.
Import ListNotations.

Set Implicit Arguments.

(* ===================================================================== *)
(** ** Python strings *)
(* ===================================================================== *)

Module Py.

(** A code point, and a [str]. *)
Definition char := N.
Definition str := list char.

(** A [str] literal, written with an ASCII Rocq string. *)
Definition lit (s : string) : str :=
  List.map N_of_ascii (list_ascii_of_string s).

Definition char_eqb (a b : char) : bool := N.eqb a b.

Fixpoint eqb (a b : str) : bool :=
  match a, b with
  | [], [] => true
  | x :: a', y :: b' => char_eqb x y && eqb a' b'
  | _, _ => false
  end.

(** [Py_UNICODE_ISSPACE]: the code points [str.split()] and [str.strip()]
    treat as whitespace. *)
Definition isspace (c : char) : bool :=
  (((9 <=? c) && (c <=? 13)) || ((28 <=? c) && (c <=? 32))
   || (c =? 133) || (c =? 160) || (c =? 5760)
   || ((8192 <=? c) && (c <=? 8202))
   || (c =? 8232) || (c =? 8233) || (c =? 8239) || (c =? 8287)
   || (c =? 12288))%N.

(** [s.split()]: the maximal runs of non-whitespace code points. *)
Fixpoint split (s : str) : list str :=
  match s with
  | [] => []
  | c :: r =>
      if isspace c then split r
      else match r with
           | [] => [[c]]
           | d :: _ =>
               if isspace d then [c] :: split r
               else match split r with
                    | w :: ws => (c :: w) :: ws
                    | [] => [[c]]
                    end
           end
  end.

(** [sep.join(xs)]. *)
Fixpoint join (sep : str) (xs : list str) : str :=
  match xs with
  | [] => []
  | [x] => x
  | x :: rest => x ++ sep ++ join sep rest
  end.

Fixpoint dropwhile (p : char -> bool) (s : str) : str :=
  match s with
  | [] => []
  | c :: r => if p c then dropwhile p r else s
  end.

Fixpoint takewhile_not_space (s : str) : str :=
  match s with
  | [] => []
  | c :: r => if isspace c then [] else c :: takewhile_not_space r
  end.

Definition strip_by (p : char -> bool) (s : str) : str :=
  rev (dropwhile p (rev (dropwhile p s))).

(** [s.strip()]. *)
Definition strip (s : str) : str := strip_by isspace s.

Definition mem (c : char) (chars : str) : bool :=
  existsb (char_eqb c) chars.

(** [s.strip(chars)]. *)
Definition strip_chars (s chars : str) : str :=
  strip_by (fun c => mem c chars) s.

(** [s.startswith(p)]. *)
Fixpoint startswith (s p : str) : bool :=
  match p, s with
  | [], _ => true
  | x :: p', y :: s' => char_eqb x y && startswith s' p'
  | _ :: _, [] => false
  end.

(** [s.endswith(p)]. *)
Definition endswith (s p : str) : bool := startswith (rev s) (rev p).

(** [k in s]: [k] occurs in [s] as a contiguous substring. *)
Fixpoint contains (k s : str) : bool :=
  startswith s k ||
  match s with
  | [] => false
  | _ :: r => contains k r
  end.

(** [s.split(maxsplit=1)]: the first word and, when something other than
    whitespace follows it, the rest of the string from there on. *)
Definition split1 (s : str) : list str :=
  let s := dropwhile isspace s in
  let first := takewhile_not_space s in
  let rest := dropwhile isspace (dropwhile (fun c => negb (isspace c)) s) in
  match s, rest with
  | [], _ => []
  | _, [] => [first]
  | _, _ => [first; rest]
  end.

(** [s.split(sep)] for a one-character separator. *)
Fixpoint split_on (sep : char) (s : str) : list str :=
  match s with
  | [] => [[]]
  | c :: r =>
      if char_eqb c sep then [] :: split_on sep r
      else match split_on sep r with
           | w :: ws => (c :: w) :: ws
           | [] => [[c]]
           end
  end.

(** [s.count(c)] for a one-character argument. *)
Fixpoint count (s : str) (c : char) : nat :=
  match s with
  | [] => 0
  | x :: r => (if char_eqb x c then 1 else 0) + count r c
  end.

Section CaseMaps.

(** The case mappings of the code points from 128 on.  The upper-case
  mapping is Unicode's full one (a code point may map to several).  The
  lower-case mapping is given the text before and after the code point,
  as the capital sigma lowers according to its place in the word. *)
Variable upper_ext : char -> str.
Variable lower_ext : str -> char -> str -> str.

Definition upper_char (c : char) : str :=
if ((97 <=? c) && (c <=? 122))%N then [(c - 32)%N]
else if (c <? 128)%N then [c]
else upper_ext c.

Definition lower_char (before : str) (c : char) (after : str) : str :=
if ((65 <=? c) && (c <=? 90))%N then [(c + 32)%N]
else if (c <? 128)%N then [c]
else lower_ext before c after.

(** [s.upper()]: code point by code point. *)
Definition upper (s : str) : str := flat_map upper_char s.

Fixpoint lower_from (before s : str) : str :=
match s with
| [] => []
| c :: after => lower_char before c after ++ lower_from (before ++ [c]) after
end.

(** [s.lower()]. *)
Definition lower (s : str) : str := lower_from [] s.

End CaseMaps.

(** [str(n)] for an [int]. *)
Definition of_Z (z : Z) : str := lit (NilZero.string_of_int (Z.to_int z)).
Definition of_nat (n : nat) : str := of_Z (Z.of_nat n).

End Py.

Import Py.

(* ===================================================================== *)
(** ** The read-only query validator ([validate_read_only_query]) *)
(* ===================================================================== *)

(** What a call of a Python function does: it returns a value or raises
    [Exception(msg)]. *)
Inductive outcome (A : Type) : Type :=
| Return (a : A)
| Raise (msg : str).
Arguments Return {A} a.
Arguments Raise {A} msg.

Definition forbidden_keywords : list str :=
  [ lit "INSERT"; lit "UPDATE"; lit "DELETE"; lit "DROP"; lit "CREATE";
    lit "ALTER"; lit "TRUNCATE"; lit "REPLACE"; lit "MERGE"; lit "GRANT";
    lit "REVOKE"; lit "EXECUTE"; lit "EXEC"; lit "CALL"; lit "DO" ].

(** The shield emoji that opens every message: U+1F6E1 U+FE0F. *)
Definition shield : str := [128737%N; 65039%N].

(** The three messages of the validator. *)
Definition forbidden_msg (keyword : str) : str :=
  shield ++ lit " SECURITY: " ++ keyword
  ++ lit " operations are not allowed. Read-only mode is enforced.".

Definition prefix_msg : str :=
  shield ++ lit " SECURITY: Only SELECT queries are allowed in read-only mode.".

Definition multi_msg : str :=
  shield
  ++ lit " SECURITY: Multiple statements or inline semicolons are not allowed.".

Section Validator.

Variable upper_ext : char -> str.

(** The first three assignments of the function: the text the keyword
    scan and the prefix check look at. *)
Definition clean_query (query : str) : str :=
  let clean_query := join (lit " ") (split query) in
  let clean_query := strip (upper upper_ext clean_query) in
  strip_chars clean_query (lit "; ").

(** The [for keyword in forbidden_keywords] loop: the first keyword, in
    the order of the list, that occurs in the text. *)
Definition first_forbidden (clean : str) : option str :=
  find (fun keyword => contains keyword clean) forbidden_keywords.

(** The test of the last [if]. *)
Definition semicolon_violation (query : str) : bool :=
  let semicolon_count := count query 59%N in
  (1 <? semicolon_count)%nat
  || ((semicolon_count =? 1)%nat && negb (endswith (strip query) (lit ";"))).

Definition validate_read_only_query (query : str) : outcome bool :=
  let clean := clean_query query in
  match first_forbidden clean with
  | Some keyword => Raise (forbidden_msg keyword)
  | None =>
      if negb (startswith clean (lit "SELECT")
               || startswith clean (lit "WITH"))
      then Raise prefix_msg
      else if semicolon_violation query
      then Raise multi_msg
      else Return true
  end.

End Validator.

(** The identity on code points outside ASCII: enough to run the functions
    on ASCII text, where the case tables are never consulted. *)
Definition no_ext (c : char) : str := [c].

(** The test table of [run_tests], as (query, should_pass) pairs. *)
Definition test_cases : list (str * bool) :=
  [ (lit "SELECT * FROM users", true);
    (lit "SELECT id, name FROM products WHERE price > 100", true);
    (lit "SELECT COUNT(*) FROM orders", true);
    (lit "WITH cte AS (SELECT * FROM users) SELECT * FROM cte", true);
    (lit "SELECT * FROM users;", true);
    (lit "  SELECT  *  FROM  users  ", true);
    (lit "INSERT INTO users VALUES (1, 'test')", false);
    (lit "UPDATE users SET name = 'hacked'", false);
    (lit "DELETE FROM users WHERE id = 1", false);
    (lit "DROP TABLE users", false);
    (lit "CREATE TABLE hackers (id INT)", false);
    (lit "ALTER TABLE users ADD COLUMN evil TEXT", false);
    (lit "TRUNCATE TABLE users", false);
    (lit "SELECT * FROM users; DROP TABLE users;", false);
    (lit "SELECT * FROM users; DELETE FROM users WHERE 1=1;", false);
    (lit "'; DROP TABLE users; --", false);
    (lit "EXECUTE sp_malicious", false);
    (lit "CALL malicious_function()", false);
    (lit "GRANT ALL ON users TO hacker", false);
    (lit "REVOKE ALL ON users FROM admin", false);
    (lit "select * from users", true);
    (lit "SeLeCt * FrOm users", true) ].

Definition passes (query : str) : bool :=
  match validate_read_only_query no_ext query with
  | Return _ => true
  | Raise _ => false
  end.

(* ===================================================================== *)
(** ** The database behind [DatabaseManager] *)
(* ===================================================================== *)

(** A pgvector value, and the values a cursor hands back in a row. *)
Definition vec := list Q.

Inductive value : Type :=
| VNone
| VText (s : str)
| VInt (z : Z)
| VReal (q : Q)
| VTime (t : Z)
| VJson (text : str).

(** A [RealDictCursor] row, and any other [dict] with [str] keys: the keys
    in their order, each with its value. *)
Definition row := list (str * value).

(** The members of a parameter tuple. *)
Inductive param : Type :=
| PStr (s : str)
| PInt (z : Z)
| PVec (v : vec).

(** Modelled from the spec: the definition of the table [chat_history]
    (the schema script is not among the sources).  Its columns are those
    the statements of [chat.py] name; [timestamp] is the time of the
    insertion, by which the storage orders the messages of a session. *)
Record chat_row := {
  session_id : str;
  role : str;
  content : str;
  timestamp : Z
}.

(** Modelled from the spec: the definition of the table [documents] (not
    among the sources either): a key, the text, opaque metadata and an
    embedding that is null until it has been computed. *)
Record document := {
  doc_id : Z;
  doc_content : str;
  doc_metadata : value;
  doc_embedding : option vec
}.

(** A row of the catalog view [information_schema.columns]. *)
Record column_info := {
  table_schema : str;
  table_name : str;
  column_name : str;
  data_type : str;
  is_nullable : str;
  ordinal_position : Z
}.

(** The tables: the two the program owns, the catalog view, and the
    application's own tables by name. *)
Record tables := {
  chat_history : list chat_row;
  documents : list document;
  columns : list column_info;
  application : list (str * list row)
}.

(** What the server answers to one statement: rows (the cursor has a
    description), a row count (it has none), or an error. *)
Inductive reply : Type :=
| Rows (rows : list row)
| Count (n : Z)
| Failure (msg : str).

(** [ORDER BY]: a stable insertion sort by a boolean order. *)
Fixpoint insert_by {A : Type} (leb : A -> A -> bool) (x : A) (l : list A)
  : list A :=
  match l with
  | [] => [x]
  | y :: r => if leb x y then x :: l else y :: insert_by leb x r
  end.

Fixpoint order_by {A : Type} (leb : A -> A -> bool) (l : list A) : list A :=
  match l with
  | [] => []
  | x :: r => insert_by leb x (order_by leb r)
  end.

(** The statements of [chat.py], as the program sends them. *)
Definition schema_sql : str := lit "
        SELECT
            table_name,
            column_name,
            data_type,
            is_nullable
        FROM information_schema.columns
        WHERE table_schema = 'public'
        ORDER BY table_name, ordinal_position;
        ".

Definition insert_chat_sql : str := lit "
        INSERT INTO chat_history (session_id, role, content)
        VALUES (%s, %s, %s)
        ".

Definition history_sql : str := lit "
        SELECT role, content, timestamp
        FROM chat_history
        WHERE session_id = %s
        ORDER BY timestamp DESC
        LIMIT %s
        ".

Definition search_sql : str := lit "
        SELECT content, metadata, 1 - (embedding <=> %s::vector) AS similarity
        FROM documents
        WHERE embedding IS NOT NULL
        ORDER BY embedding <=> %s::vector
        LIMIT %s
        ".

(** The rows of each [SELECT], with the keys of its projection. *)
Definition schema_row (c : column_info) : row :=
  [ (lit "table_name", VText (table_name c));
    (lit "column_name", VText (column_name c));
    (lit "data_type", VText (data_type c));
    (lit "is_nullable", VText (is_nullable c)) ].

Definition history_row (m : chat_row) : row :=
  [ (lit "role", VText (role m));
    (lit "content", VText (content m));
    (lit "timestamp", VTime (timestamp m)) ].

(** [ORDER BY timestamp DESC]. *)
Definition newer_first (a b : chat_row) : bool :=
  (timestamp b <=? timestamp a)%Z.

(** [WHERE session_id = %s ORDER BY timestamp DESC LIMIT %s]. *)
Definition select_history (t : tables) (sid : str) (limit : Z)
  : list chat_row :=
  firstn (Z.to_nat limit)
    (order_by newer_first
       (filter (fun m => Py.eqb (session_id m) sid) (chat_history t))).

Definition has_embedding (d : document) : bool :=
  match doc_embedding d with
  | Some _ => true
  | None => false
  end.

Section Server.

(** pgvector's cosine distance [<=>], the collation that orders text, and
    the server's treatment of every statement other than the four above
    (the SQL the model writes among them). *)
Variable cosine_distance : vec -> vec -> Q.
Variable collate_leb : str -> str -> bool.
Variable engine : str -> option (list param) -> tables -> reply * tables.

Definition distance_to (q : vec) (d : document) : Q :=
  match doc_embedding d with
  | Some e => cosine_distance e q
  | None => 0
  end.

Definition search_row (q : vec) (d : document) : row :=
  [ (lit "content", VText (doc_content d));
    (lit "metadata", doc_metadata d);
    (lit "similarity", VReal (1 - distance_to q d)) ].

(** [WHERE embedding IS NOT NULL ORDER BY embedding <=> %s LIMIT %s]. *)
Definition select_documents (t : tables) (q : vec) (top_k : Z)
  : list document :=
  firstn (Z.to_nat top_k)
    (order_by (fun a b => Qle_bool (distance_to q a) (distance_to q b))
       (filter has_embedding (documents t))).

(** [ORDER BY table_name, ordinal_position]. *)
Definition catalog_leb (a b : column_info) : bool :=
  if Py.eqb (table_name a) (table_name b)
  then (ordinal_position a <=? ordinal_position b)%Z
  else collate_leb (table_name a) (table_name b).

Definition select_schema (t : tables) : list column_info :=
  order_by catalog_leb
    (filter (fun c => Py.eqb (table_schema c) (lit "public")) (columns t)).

Definition negative_limit : str := lit "LIMIT must not be negative
".

(** One statement against the tables, at time [now]. *)
Definition server (now : Z) (query : str) (params : option (list param))
    (t : tables) : reply * tables :=
  if Py.eqb query schema_sql then
    match params with
    | None => (Rows (map schema_row (select_schema t)), t)
    | _ => engine query params t
    end
  else if Py.eqb query insert_chat_sql then
    match params with
    | Some [PStr sid; PStr r; PStr c] =>
        (Count 1,
         {| chat_history :=
              chat_history t
              ++ [ {| session_id := sid; role := r; content := c;
                      timestamp := now |} ];
            documents := documents t;
            columns := columns t;
            application := application t |})
    | _ => engine query params t
    end
  else if Py.eqb query history_sql then
    match params with
    | Some [PStr sid; PInt limit] =>
        if (limit <? 0)%Z then (Failure negative_limit, t)
        else (Rows (map history_row (select_history t sid limit)), t)
    | _ => engine query params t
    end
  else if Py.eqb query search_sql then
    match params with
    | Some [PVec q1; PVec q2; PInt top_k] =>
        if (top_k <? 0)%Z then (Failure negative_limit, t)
        else (Rows (map (search_row q1) (select_documents t q2 top_k)), t)
    | _ => engine query params t
    end
  else engine query params t.

End Server.

(* ===================================================================== *)
(** ** The world of [chat.py]: connection, console, keyboard, model *)
(* ===================================================================== *)

(** The limits of this model of what lies outside the program.
    [KeyboardInterrupt] arises at a prompt only, not while a statement or
    a request to the model is running; [commit] and [rollback] always
    succeed; a [LIMIT] is any integer that is not negative, although the
    server refuses those from 2^63 on; and the server takes a query
    vector of any dimension. *)

(** What [console.print] is given. *)
Inductive renderable : Type :=
| Text (s : str)
| Markdown (s : str)
| Panel (s : str) (style : str)
| Table (header : list str) (body : list (list str)).

(** What the program does to the outside, in order. *)
Inductive event : Type :=
| Printed (r : renderable)
| Prompted (message : str)
| Executed (query : str) (params : option (list param))
| Committed
| RolledBack
| Chatted (messages : list row) (temperature : Q) (max_tokens : Z)
| Encoded (text : str).

(** The exceptions that occur; [except Exception] catches all of them but
    [KeyboardInterrupt]. *)
Inductive exn : Type :=
| Exception (msg : str)
| KeyError (key : str)
| TypeError (msg : str)
| AttributeError (msg : str)
| EOFError
| KeyboardInterrupt.

Inductive key_reply : Type :=
| Line (s : str)
| CtrlD
| CtrlC.

Inductive llm_reply : Type :=
| Completion (text : str)
| Unreachable (msg : str).

(** The psycopg2 connection: the tables as committed, and as the open
    transaction sees them. *)
Record connection := {
  committed : tables;
  working : tables
}.

(** Everything outside the program, fixed for one run: the session token
    and configuration, the parts of the interpreter and of the servers that
    are not in the repository, and what the user, the model and the
    database will answer to the n-th request of each kind. *)
Record env := {
  SESSION_ID : str;
  EMBEDDING_MODEL : str;
  lower_ext : str -> char -> str -> str;
  title : str -> str;
  show_ext : value -> str;
  encode : str -> vec;
  cosine_distance : vec -> vec -> Q;
  collate_leb : str -> str -> bool;
  engine : str -> option (list param) -> tables -> reply * tables;
  fault : nat -> option str;
  clock : nat -> Z;
  llm : nat -> list row -> llm_reply;
  keyboard : nat -> key_reply
}.

Record world := {
  conn : connection;
  statements : nat;
  completions : nat;
  prompts : nat;
  embedding_model : bool;
  out : list event
}.

Inductive res (A : Type) : Type :=
| Ok (a : A)
| Err (e : exn).
Arguments Ok {A} a.
Arguments Err {A} e.

(** A computation: runs in a world, leaves a world, returns or raises. *)
Definition M (A : Type) : Type := world -> res A * world.

Definition ret {A : Type} (a : A) : M A := fun w => (Ok a, w).

Definition bind {A B : Type} (m : M A) (k : A -> M B) : M B :=
  fun w =>
    match m w with
    | (Ok a, w') => k a w'
    | (Err e, w') => (Err e, w')
    end.

Definition raise {A : Type} (e : exn) : M A := fun w => (Err e, w).

Definition is_Exception (e : exn) : bool :=
  match e with
  | KeyboardInterrupt => false
  | _ => true
  end.

(** [try: body  except Exception as e: handler]. *)
Definition try_except {A : Type} (body : M A) (handler : exn -> M A) : M A :=
  fun w =>
    match body w with
    | (Err e, w') => if is_Exception e then handler e w' else (Err e, w')
    | r => r
    end.

Declare Scope py_scope.
Delimit Scope py_scope with py.
Notation "x <- m ;; k" := (bind m (fun x => k))
  (at level 61, m at next level, right associativity) : py_scope.
Notation "m ;; k" := (bind m (fun _ => k))
  (at level 61, right associativity) : py_scope.
Open Scope py_scope.

Fixpoint mapM {A B : Type} (f : A -> M B) (l : list A) : M (list B) :=
  match l with
  | [] => ret []
  | x :: r => y <- f x ;; ys <- mapM f r ;; ret (y :: ys)
  end.

Fixpoint foldM {A S : Type} (f : S -> A -> M S) (s : S) (l : list A) : M S :=
  match l with
  | [] => ret s
  | x :: r => s' <- f s x ;; foldM f s' r
  end.

Definition emit (e : event) : M unit :=
  fun w =>
    (Ok tt,
     {| conn := conn w; statements := statements w;
        completions := completions w; prompts := prompts w;
        embedding_model := embedding_model w; out := out w ++ [e] |}).

(** [console.print(...)]. *)
Definition console_print (r : renderable) : M unit := emit (Printed r).

Definition set_conn (c : connection) : M unit :=
  fun w =>
    (Ok tt,
     {| conn := c; statements := statements w;
        completions := completions w; prompts := prompts w;
        embedding_model := embedding_model w; out := out w |}).

Definition value_eqb (a b : value) : bool :=
  match a, b with
  | VNone, VNone => true
  | VText x, VText y => Py.eqb x y
  | VInt x, VInt y => Z.eqb x y
  | VReal x, VReal y => Qeq_bool x y
  | VTime x, VTime y => Z.eqb x y
  | VJson x, VJson y => Py.eqb x y
  | _, _ => false
  end.

(** [d[key]]. *)
Fixpoint lookup (r : row) (key : str) : option value :=
  match r with
  | [] => None
  | (k, v) :: r' => if Py.eqb k key then Some v else lookup r' key
  end.

Definition getitem (r : row) (key : str) : M value :=
  match lookup r key with
  | Some v => ret v
  | None => raise (KeyError key)
  end.

Definition keys (r : row) : list str := map fst r.
Definition values (r : row) : list value := map snd r.

(* ===================================================================== *)
(** ** [DatabaseManager], [LLMClient] and [ChatInterface] *)
(* ===================================================================== *)

Inductive control : Type :=
| Continue
| Break.

Section Chat.

Variable E : env.

(** [str(v)], which is also what an f-string makes of [v]. *)
Definition str_of (v : value) : str :=
  match v with
  | VNone => lit "None"
  | VText s => s
  | VInt z => of_Z z
  | _ => show_ext E v
  end.

(** [str(e)]. *)
Definition exn_str (e : exn) : str :=
  match e with
  | Exception msg => msg
  | KeyError key => lit "'" ++ key ++ lit "'"
  | TypeError msg => msg
  | AttributeError msg => msg
  | EOFError => []
  | KeyboardInterrupt => []
  end.

(** [type(v).__name__]. *)
Definition type_name (v : value) : str :=
  match v with
  | VNone => lit "NoneType"
  | VText _ => lit "str"
  | VInt _ => lit "int"
  | VReal _ => lit "float"
  | VTime _ => lit "datetime.datetime"
  | VJson _ => lit "dict"
  end.

(** [v[:n]] and [v.title()] for a value read from a row: the methods of
    [str] when the value is one. *)
Definition slice_to (n : nat) (v : value) : M str :=
  match v with
  | VText s => ret (firstn n s)
  | VJson _ => raise (TypeError (lit "unhashable type: 'slice'"))
  | _ => raise (TypeError (lit "'" ++ type_name v
                           ++ lit "' object is not subscriptable"))
  end.

Definition title_of (v : value) : M str :=
  match v with
  | VText s => ret (title E s)
  | _ => raise (AttributeError (lit "'" ++ type_name v
                                ++ lit "' object has no attribute 'title'"))
  end.

(** *** The cursor and the connection *)

(** [cur.execute(query, params)], then what the cursor holds: the fetched
    rows when it has a description, the row count when it has none.  A
    failed statement changes nothing. *)
Definition cursor_execute (query : str) (params : option (list param))
  : M (list row + Z) :=
  fun w =>
    let n := statements w in
    let sent (c : connection) :=
      {| conn := c; statements := S n; completions := completions w;
         prompts := prompts w; embedding_model := embedding_model w;
         out := out w ++ [Executed query params] |} in
    match fault E n with
    | Some msg => (Err (Exception msg), sent (conn w))
    | None =>
        match server (cosine_distance E) (collate_leb E) (engine E)
                (clock E n) query params (working (conn w)) with
        | (Failure msg, _) => (Err (Exception msg), sent (conn w))
        | (Rows rs, t) =>
            (Ok (inl rs),
             sent {| committed := committed (conn w); working := t |})
        | (Count k, t) =>
            (Ok (inr k),
             sent {| committed := committed (conn w); working := t |})
        end
    end.

Definition commit : M unit :=
  fun w =>
    (c <- ret {| committed := working (conn w);
                 working := working (conn w) |} ;;
     set_conn c ;; emit Committed) w.

Definition rollback : M unit :=
  fun w =>
    (c <- ret {| committed := committed (conn w);
                 working := committed (conn w) |} ;;
     set_conn c ;; emit RolledBack) w.

(** *** [DatabaseManager] *)

Definition execute_query (query : str) (params : option (list param))
  : M (list row) :=
  try_except
    (cur <- cursor_execute query params ;;
     match cur with
     | inl rows => ret rows
     | inr rowcount =>
         commit ;; ret [ [ (lit "affected_rows", VInt rowcount) ] ]
     end)
    (fun e =>
       rollback ;;
       raise (Exception (lit "Query execution failed: " ++ exn_str e))).

Definition schema_line (acc : str * value) (r : row) : M (str * value) :=
  let '(schema_text, current_table) := acc in
  t <- getitem r (lit "table_name") ;;
  acc <- (if negb (value_eqb t current_table)
          then t' <- getitem r (lit "table_name") ;;
               ret (schema_text ++ lit "
Table: " ++ str_of t' ++ lit "
", t')
          else ret (schema_text, current_table)) ;;
  let '(schema_text, current_table) := acc in
  c <- getitem r (lit "column_name") ;;
  d <- getitem r (lit "data_type") ;;
  let schema_text := schema_text ++ lit "  - " ++ str_of c ++ lit ": "
                     ++ str_of d in
  n <- getitem r (lit "is_nullable") ;;
  let schema_text :=
    if value_eqb n (VText (lit "NO"))
    then schema_text ++ lit " (NOT NULL)"
    else schema_text in
  ret (schema_text ++ lit "
", current_table).

Definition get_schema_info : M str :=
  results <- execute_query schema_sql None ;;
  acc <- foldM schema_line (lit "Database Schema:

", VNone) results ;;
  ret (fst acc).

Definition save_chat_message (role content : str) : M unit :=
  execute_query insert_chat_sql
    (Some [PStr (SESSION_ID E); PStr role; PStr content]) ;;
  ret tt.

Definition get_chat_history (limit : Z) : M (list row) :=
  results <- execute_query history_sql
               (Some [PStr (SESSION_ID E); PInt limit]) ;;
  ret (rev results).

Definition check_mark : str := [10003%N].

Definition init_embedding_model : M unit :=
  fun w =>
    if embedding_model w then (Ok tt, w)
    else
      (console_print
         (Text (lit "[yellow]Loading embedding model: "
                ++ EMBEDDING_MODEL E ++ lit "...[/yellow]")) ;;
       (fun w' =>
          (Ok tt,
           {| conn := conn w'; statements := statements w';
              completions := completions w'; prompts := prompts w';
              embedding_model := true; out := out w' |})) ;;
       console_print
         (Text (lit "[green]" ++ check_mark
                ++ lit " Embedding model loaded[/green]"))) w.

Definition search_documents (query : str) (top_k : Z) : M (list row) :=
  init_embedding_model ;;
  emit (Encoded query) ;;
  let query_embedding := encode E query in
  execute_query search_sql
    (Some [PVec query_embedding; PVec query_embedding; PInt top_k]).

(** *** [LLMClient] *)

Definition chat (messages : list row) (temperature : Q) (max_tokens : Z)
  : M str :=
  fun w =>
    let n := completions w in
    let w' :=
      {| conn := conn w; statements := statements w; completions := S n;
         prompts := prompts w; embedding_model := embedding_model w;
         out := out w ++ [Chatted messages temperature max_tokens] |} in
    match llm E n messages with
    | Completion text => (Ok text, w')
    | Unreachable msg =>
        (Err (Exception (lit "LLM request failed: " ++ msg)), w')
    end.

(** [prompt(message)] of prompt_toolkit. *)
Definition prompt (message : str) : M str :=
  fun w =>
    let n := prompts w in
    let w' :=
      {| conn := conn w; statements := statements w;
         completions := completions w; prompts := S n;
         embedding_model := embedding_model w;
         out := out w ++ [Prompted message] |} in
    match keyboard E n with
    | Line s => (Ok s, w')
    | CtrlD => (Err EOFError, w')
    | CtrlC => (Err KeyboardInterrupt, w')
    end.

Definition message (role content : value) : row :=
  [ (lit "role", role); (lit "content", content) ].

(** *** [ChatInterface] *)

Definition fence : str := lit "```".
Definition newline : char := 10%N.

(** The clean-up of the model's text at the end of
    [generate_sql_query]. *)
Definition strip_fences (sql_query : str) : str :=
  let sql_query := strip sql_query in
  let sql_query :=
    if startswith sql_query fence
    then let lines := split_on newline sql_query in
         join [newline] (removelast (tl lines))
    else sql_query in
  strip sql_query.

Definition sql_prompt (schema user_question : str) : str :=
  lit "You are a SQL expert. Given the following database schema and user question, generate a valid PostgreSQL query.

" ++ schema ++ lit "

User Question: " ++ user_question ++ lit "

Generate ONLY the SQL query, without any explanation or markdown formatting. The query should be ready to execute.
".

Definition generate_sql_query (user_question : str) : M str :=
  schema <- get_schema_info ;;
  let prompt := sql_prompt schema user_question in
  let messages :=
    [ message (VText (lit "system"))
        (VText (lit "You are a helpful SQL expert assistant."));
      message (VText (lit "user")) (VText prompt) ] in
  sql_query <- chat messages (1 # 5) 500 ;;
  ret (strip_fences sql_query).

Definition no_information : str :=
  lit "I couldn't find any relevant information in the knowledge base.".

Fixpoint document_lines (i : nat) (docs : list row) : M (list str) :=
  match docs with
  | [] => ret []
  | doc :: rest =>
      c <- getitem doc (lit "content") ;;
      ls <- document_lines (S i) rest ;;
      ret ((lit "Document " ++ of_nat (i + 1) ++ lit ": " ++ str_of c)
           :: ls)
  end.

Definition history_line (msg : row) : M str :=
  r <- getitem msg (lit "role") ;;
  c <- getitem msg (lit "content") ;;
  ret (str_of r ++ lit ": " ++ str_of c).

Definition rag_prompt (context history_text user_question : str) : str :=
  lit "Based on the following information, answer the user's question.

Context from knowledge base:
" ++ context ++ lit "

Recent conversation:
" ++ history_text ++ lit "

User Question: " ++ user_question ++ lit "

Provide a helpful and accurate answer based on the context provided.
".

Definition answer_with_rag (user_question : str) : M str :=
  relevant_docs <- search_documents user_question 3 ;;
  match relevant_docs with
  | [] => ret no_information
  | _ =>
      ls <- document_lines 0 relevant_docs ;;
      let context := join [newline; newline] ls in
      history <- get_chat_history 5 ;;
      hs <- mapM history_line history ;;
      let history_text := join [newline] hs in
      let prompt := rag_prompt context history_text user_question in
      let messages :=
        [ message (VText (lit "system"))
            (VText (lit "You are a helpful assistant with access to a knowledge base."));
          message (VText (lit "user")) (VText prompt) ] in
      chat messages (7 # 10) 500
  end.

Definition error_text (e : exn) : str :=
  lit "
[red]Error: " ++ exn_str e ++ lit "[/red]".

(** The display of the rows of an executed query.  Every row is a
    [dict], so the branch for results that are not is never taken. *)
Definition show_results (results : list row) : M unit :=
  match results with
  | [] => console_print (Text (lit "
[yellow]Query returned no results[/yellow]"))
  | first :: _ =>
      let table :=
        Table (keys first)
          (map (fun r => map str_of (values r)) (firstn 50 results)) in
      console_print (Text (lit "
[green]Query Results:[/green]")) ;;
      console_print table ;;
      if (50 <? List.length results)%nat
      then console_print
             (Text (lit "
[dim]Showing 50 of " ++ of_nat (List.length results) ++ lit " rows[/dim]"))
      else ret tt
  end.

Definition handle_sql_mode (user_input : str) : M unit :=
  console_print (Text (lit "
[cyan]Generating SQL query...[/cyan]")) ;;
  try_except
    (sql_query <- generate_sql_query user_input ;;
     console_print (Text (lit "
[yellow]Generated Query:[/yellow]")) ;;
     console_print (Panel sql_query (lit "dim")) ;;
     answer <- prompt (lit "
Execute this query? (y/n): ") ;;
     let confirm := lower (lower_ext E) answer in
     if Py.eqb confirm (lit "y")
     then results <- execute_query sql_query None ;;
          show_results results
     else console_print (Text (lit "[dim]Query cancelled[/dim]")))
    (fun e => console_print (Text (error_text e))).

Definition handle_rag_mode (user_input : str) : M unit :=
  console_print (Text (lit "
[cyan]Searching knowledge base...[/cyan]")) ;;
  try_except
    (answer <- answer_with_rag user_input ;;
     console_print (Text (lit "
[green]Answer:[/green]")) ;;
     console_print (Markdown answer))
    (fun e => console_print (Text (error_text e))).

Definition history_message (msg : row) : M row :=
  r <- getitem msg (lit "role") ;;
  c <- getitem msg (lit "content") ;;
  ret (message r c).

Definition handle_chat_mode (user_input : str) : M unit :=
  history <- get_chat_history 10 ;;
  past <- mapM history_message history ;;
  let messages :=
    [ message (VText (lit "system"))
        (VText (lit "You are a helpful assistant for a database chat system. You can help users understand their data, answer questions, and provide guidance.")) ]
    ++ past
    ++ [ message (VText (lit "user")) (VText user_input) ] in
  try_except
    (console_print (Text (lit "
[cyan]Thinking...[/cyan]")) ;;
     response <- chat messages (4 # 5) 800 ;;
     console_print (Text (lit "
[green]Assistant:[/green]")) ;;
     console_print (Markdown response) ;;
     save_chat_message (lit "assistant") response)
    (fun e => console_print (Text (error_text e))).

Definition arrow : str := [8594%N].

Definition help_text : str := lit "
# Commands

- `/sql <question>` - Generate and execute SQL query
- `/ask <question>` - Ask about policies/info using RAG
- `/chat <message>` - General conversation
- `/history` - Show chat history
- `/schema` - Show database schema
- `/help` - Show this help
- `/quit` or `/exit` - Exit the application

# Default Mode

Without a command prefix, the system will:
1. Check if your input looks like a database question " ++ arrow ++ lit " use SQL mode
2. Otherwise " ++ arrow ++ lit " use chat mode

# Examples

```
/sql Show me all customers who spent more than $1000
/ask What is your return policy?
/chat Can you explain how to use this system?
How many products are in stock?
```
".

Definition print_help : M unit := console_print (Markdown help_text).

Definition sql_keywords : list str :=
[ lit "show"; lit "list"; lit "how many"; lit "count"; lit "total";
  lit "find"; lit "get"; lit "customers"; lit "products"; lit "orders" ].

Definition history_entry (msg : row) : M unit :=
r <- getitem msg (lit "role") ;;
r <- title_of r ;;
c <- getitem msg (lit "content") ;;
c <- slice_to 100 c ;;
console_print (Text (lit "[bold]" ++ r ++ lit ":[/bold] " ++ c ++ lit "...")).

Definition usage (what : str) : M unit :=
console_print (Text (lit "[yellow]Usage: " ++ what ++ lit "[/yellow]")).

(** The [if command ...  elif ...] chain of the loop, for an input that
  starts with a slash. *)
Definition run_command (user_input : str) : M control :=
let parts := split1 user_input in
let command := lower (lower_ext E) (nth 0 parts []) in
let content := nth 1 parts [] in
if Py.eqb command (lit "/quit") || Py.eqb command (lit "/exit") then
  console_print (Text (lit "
[cyan]Goodbye![/cyan]")) ;; ret Break
else if Py.eqb command (lit "/help") then
  print_help ;; ret Continue
else if Py.eqb command (lit "/sql") then
  (match content with
   | [] => usage (lit "/sql <your question>")
   | _ => save_chat_message (lit "user") user_input ;;
          handle_sql_mode content
   end) ;; ret Continue
else if Py.eqb command (lit "/ask") then
  (match content with
   | [] => usage (lit "/ask <your question>")
   | _ => save_chat_message (lit "user") user_input ;;
          handle_rag_mode content
   end) ;; ret Continue
else if Py.eqb command (lit "/chat") then
  (match content with
   | [] => usage (lit "/chat <your message>")
   | _ => save_chat_message (lit "user") content ;;
          handle_chat_mode content
   end) ;; ret Continue
else if Py.eqb command (lit "/history") then
  history <- get_chat_history 20 ;;
  console_print (Text (lit "
[cyan]Recent Chat History:[/cyan]")) ;;
  mapM history_entry history ;; ret Continue
else if Py.eqb command (lit "/schema") then
  schema <- get_schema_info ;;
  console_print (Markdown (fence ++ [newline] ++ schema ++ [newline] ++ fence)) ;;
  ret Continue
else
  console_print (Text (lit "[red]Unknown command: " ++ command ++ lit "[/red]")) ;;
  console_print (Text (lit "[dim]Type /help for available commands[/dim]")) ;;
  ret Continue.

(** The [else] of the loop: an input without a command prefix. *)
Definition run_auto (user_input : str) : M control :=
save_chat_message (lit "user") user_input ;;
(if existsb (fun keyword => contains keyword (lower (lower_ext E) user_input))
     sql_keywords
 then handle_sql_mode user_input
 else handle_chat_mode user_input) ;;
ret Continue.

(** The body of the [try] of the loop. *)
Definition run_try : M control :=
line <- prompt (lit "You: ") ;;
let user_input := strip line in
match user_input with
| [] => ret Continue
| _ =>
    c <- (if startswith user_input (lit "/")
          then run_command user_input
          else run_auto user_input) ;;
    match c with
    | Break => ret Break
    | Continue => console_print (Text []) ;; ret Continue
    end
end.

(** One pass through [while True] of [ChatInterface.run]: the [try] with
  its three [except] clauses.  [Break] leaves the loop. *)
Definition run_once : M control :=
fun w =>
  match run_try w with
  | (Err KeyboardInterrupt, w') =>
      (console_print (Text (lit "

[cyan]Goodbye![/cyan]")) ;; ret Break) w'
  | (Err EOFError, w') =>
      (console_print (Text (lit "
[cyan]Goodbye![/cyan]")) ;; ret Break) w'
  | (Err e, w') =>
      (console_print (Text (error_text e ++ [newline])) ;; ret Continue) w'
  | r => r
  end.

(** The loop, for at most [fuel] passes. *)
Fixpoint run_loop (fuel : nat) : M unit :=
match fuel with
| O => ret tt
| S fuel' =>
    c <- run_once ;;
    match c with
    | Break => ret tt
    | Continue => run_loop fuel'
    end
end.

End Chat.

(* ===================================================================== *)
(** ** [DatabaseManager.embed_documents] *)
(* ===================================================================== *)

(** The two statements of [embed_documents]. *)
Definition unembedded_sql : str :=
  lit "SELECT id, content FROM documents WHERE embedding IS NULL".

Definition update_embedding_sql : str :=
  lit "UPDATE documents SET embedding = %s WHERE id = %s".

Definition unembedded_row (d : document) : row :=
  [ (lit "id", VInt (doc_id d)); (lit "content", VText (doc_content d)) ].

Definition with_embedding (d : document) (v : vec) : document :=
  {| doc_id := doc_id d; doc_content := doc_content d;
     doc_metadata := doc_metadata d; doc_embedding := Some v |}.

(** [UPDATE documents SET embedding = v WHERE id = key], on one row. *)
Definition update_embedding (key : Z) (v : vec) (d : document) : document :=
  if (doc_id d =? key)%Z then with_embedding d v else d.

(** A server that gives the two statements their meaning on the table
    [documents] and leaves every other statement to [base]. *)
Definition documents_engine
    (base : str -> option (list param) -> tables -> reply * tables)
    (query : str) (params : option (list param)) (t : tables)
  : reply * tables :=
  if Py.eqb query unembedded_sql then
    match params with
    | None =>
        (Rows (map unembedded_row
                 (filter (fun d => negb (has_embedding d)) (documents t))),
         t)
    | _ => base query params t
    end
  else if Py.eqb query update_embedding_sql then
    match params with
    | Some [PVec v; PInt key] =>
        (Count (Z.of_nat
                  (List.length
                     (filter (fun d => (doc_id d =? key)%Z) (documents t)))),
         {| chat_history := chat_history t;
            documents := map (update_embedding key v) (documents t);
            columns := columns t;
            application := application t |})
    | _ => base query params t
    end
  else base query params t.

Section Backfill.

Variable E : env.

(** [self.embedding_model.encode(v).tolist()] for a value read from a
    row.  The encoder is modelled on text, which is what the column
    [content] holds. *)
Definition encode_value (v : value) : M vec :=
  match v with
  | VText s => emit (Encoded s) ;; ret (encode E s)
  | _ => raise (TypeError (lit "'" ++ type_name v
                           ++ lit "' object is not iterable"))
  end.

(** A value of a row as a member of a parameter tuple.  The keys of the
    documents are integers; of the other values only text has a
    counterpart among the parameters modelled. *)
Definition as_param (v : value) : M param :=
  match v with
  | VInt z => ret (PInt z)
  | VText s => ret (PStr s)
  | _ => raise (Exception (lit "can't adapt type '" ++ type_name v
                           ++ lit "'"))
  end.

(** The body of the [for doc in docs] loop. *)
Definition embed_one (doc : row) : M unit :=
  c <- getitem doc (lit "content") ;;
  embedding <- encode_value c ;;
  key <- getitem doc (lit "id") ;;
  key <- as_param key ;;
  execute_query E update_embedding_sql (Some [PVec embedding; key]) ;;
  ret tt.

Definition embed_documents : M unit :=
  init_embedding_model E ;;
  docs <- execute_query E unembedded_sql None ;;
  match docs with
  | [] => ret tt
  | _ =>
      console_print
        (Text (lit "[yellow]Generating embeddings for "
               ++ of_nat (List.length docs) ++ lit " documents...[/yellow]")) ;;
      mapM embed_one docs ;;
      commit ;;
      console_print
        (Text (lit "[green]" ++ check_mark
               ++ lit " Embeddings generated[/green]"))
  end.

End Backfill.

(** What the loop of [embed_documents] makes of one stored document: the
    updates for the documents [todo], in their order. *)
Definition backfilled (E : env) (todo : list document) (d : document)
  : document :=
  fold_left
    (fun d' u => update_embedding (doc_id u) (encode E (doc_content u)) d')
    todo d.

(** The documents that wait for an embedding. *)
Definition pending (t : tables) : list document :=
  filter (fun d => negb (has_embedding d)) (documents t).

(* ===================================================================== *)
(** ** A small database and scripted collaborators *)
(* ===================================================================== *)

Definition demo_tables : tables :=
  {| chat_history :=
       [ {| session_id := lit "s1"; role := lit "user";
            content := lit "hi"; timestamp := 1 |};
         {| session_id := lit "s2"; role := lit "user";
            content := lit "other session"; timestamp := 2 |};
         {| session_id := lit "s1"; role := lit "assistant";
            content := lit "hello"; timestamp := 3 |};
         {| session_id := lit "s1"; role := lit "user";
            content := lit "how are you"; timestamp := 4 |} ];
     documents :=
       [ {| doc_id := 1; doc_content := lit "Returns within 30 days";
            doc_metadata := VNone; doc_embedding := None |} ];
     columns :=
       [ {| table_schema := lit "public"; table_name := lit "users";
            column_name := lit "id"; data_type := lit "integer";
            is_nullable := lit "NO"; ordinal_position := 1 |};
         {| table_schema := lit "public"; table_name := lit "users";
            column_name := lit "name"; data_type := lit "text";
            is_nullable := lit "YES"; ordinal_position := 2 |} ];
     application :=
       [ (lit "users", [ [ (lit "id", VInt 1); (lit "name", VText (lit "Ann")) ] ]) ]
  |}.

(** A server that knows one more statement: [DROP TABLE users]. *)
Definition demo_engine (query : str) (params : option (list param))
    (t : tables) : reply * tables :=
  if Py.eqb query (lit "DROP TABLE users")
  then (Count (-1),
        {| chat_history := chat_history t;
           documents := documents t;
           columns := columns t;
           application :=
             filter (fun nt => negb (Py.eqb (fst nt) (lit "users")))
               (application t) |})
  else (Failure (lit "syntax error"), t).

(** The user types [keys], the model answers [answers], and the n-th
    statement fails when [faults] says so. *)
Definition demo_env (keys : list key_reply) (answers : list llm_reply)
    (faults : list (option str)) : env :=
  {| SESSION_ID := lit "s1";
     EMBEDDING_MODEL := lit "all-MiniLM-L6-v2";
     lower_ext := fun _ c _ => [c];
     title := fun s => s;
     show_ext := fun _ => lit "?";
     encode := fun _ => [];
     cosine_distance := fun _ _ => 0%Q;
     collate_leb := fun _ _ => true;
     engine := demo_engine;
     fault := fun n => nth n faults None;
     clock := fun n => (100 + Z.of_nat n)%Z;
     llm := fun n _ => nth n answers (Unreachable (lit "connection refused"));
     keyboard := fun n => nth n keys CtrlD |}.

Definition demo_world : world :=
  {| conn := {| committed := demo_tables; working := demo_tables |};
     statements := 0;
     completions := 0;
     prompts := 0;
     embedding_model := false;
     out := [] |}.

(* ===================================================================== *)
(** ** Vocabulary of the statements below *)
(* ===================================================================== *)

(** [k] occurs in [s] as a contiguous substring; [s] starts, ends with
    [p]. *)
Definition occurs (k s : str) : Prop := exists pre post, s = pre ++ k ++ post.
Definition starts_with (s p : str) : Prop := exists rest, s = p ++ rest.
Definition ends_with (s p : str) : Prop := exists front, s = front ++ p.

(** The world once one more statement has gone to the server: the
    connection it leaves, and what followed the statement on the
    connection (a commit, a rollback or nothing). *)
Definition after_statement (w : world) (query : str)
    (params : option (list param)) (c : connection) (then_ : list event)
  : world :=
  {| conn := c; statements := S (statements w);
     completions := completions w; prompts := prompts w;
     embedding_model := embedding_model w;
     out := out w ++ Executed query params :: then_ |}.

(** The messages of one session, in stored order. *)
Definition session_messages (E : env) (t : tables) : list chat_row :=
  filter (fun m => Py.eqb (session_id m) (SESSION_ID E)) (chat_history t).

(** What a pass of the loop saves before it answers: the text of the
    [INSERT] that opens the branches for [/sql], [/ask], [/chat] and for
    an input without a command; nothing for the other inputs. *)
Definition saved_text (E : env) (user_input : str) : option str :=
  match user_input with
  | [] => None
  | _ =>
      if startswith user_input (lit "/") then
        let parts := split1 user_input in
        let command := lower (lower_ext E) (nth 0 parts []) in
        let content := nth 1 parts [] in
        if Py.eqb command (lit "/quit") || Py.eqb command (lit "/exit")
        then None
        else if Py.eqb command (lit "/help") then None
        else if Py.eqb command (lit "/sql") || Py.eqb command (lit "/ask")
        then match content with [] => None | _ => Some user_input end
        else if Py.eqb command (lit "/chat")
        then match content with [] => None | _ => Some content end
        else None
      else Some user_input
  end.

(** Computations that leave the world as it is. *)
Definition quiet {A : Type} (m : M A) : Prop := forall w, snd (m w) = w.

(** Kinds of events. *)
Definition is_executed (e : event) : bool :=
  match e with
  | Executed _ _ => true
  | _ => false
  end.

Definition is_chatted (e : event) : bool :=
  match e with
  | Chatted _ _ _ => true
  | _ => false
  end.

(** The upper-case form of one ASCII code point. *)
Definition ascii_upper (c : char) : char :=
  if ((97 <=? c) && (c <=? 122))%N then (c - 32)%N else c.

(** Text made of ASCII code points only. *)
Definition is_ascii (s : str) : Prop := Forall (fun c => (c < 128)%N) s.

(** Text made of whitespace only. *)
Definition is_blank (s : str) : Prop := Forall (fun c => isspace c = true) s.

(** The text [get_schema_info] builds after its heading, for catalog rows
    [cols] when the table of the row before them is [current]: a header
    where the table changes, then one line for the column. *)
Fixpoint schema_lines (current : value) (cols : list column_info) : str :=
  match cols with
  | [] => []
  | c :: rest =>
      (if value_eqb (VText (table_name c)) current then []
       else lit "
Table: " ++ table_name c ++ lit "
")
      ++ lit "  - " ++ column_name c ++ lit ": " ++ data_type c
      ++ (if Py.eqb (is_nullable c) (lit "NO") then lit " (NOT NULL)" else [])
      ++ lit "
" ++ schema_lines (VText (table_name c)) rest
  end.

(** A second small database: a library of four documents, three of them
    embedded, at distances 3/10, 1/10 and 2/10 from any question. *)
Definition library_tables : tables :=
  {| chat_history := [];
     documents :=
       [ {| doc_id := 1; doc_content := lit "Shipping takes five days";
            doc_metadata := VNone; doc_embedding := Some [3 # 10] |};
         {| doc_id := 2; doc_content := lit "Draft, not yet indexed";
            doc_metadata := VNone; doc_embedding := None |};
         {| doc_id := 3; doc_content := lit "Returns within 30 days";
            doc_metadata := VNone; doc_embedding := Some [1 # 10] |};
         {| doc_id := 4; doc_content := lit "Refunds go to the card used";
            doc_metadata := VNone; doc_embedding := Some [2 # 10] |} ];
     columns := [];
     application := [] |}.

Definition library_env (answers : list llm_reply) : env :=
  {| SESSION_ID := lit "s1";
     EMBEDDING_MODEL := lit "all-MiniLM-L6-v2";
     lower_ext := fun _ c _ => [c];
     title := fun s => s;
     show_ext := fun _ => lit "?";
     encode := fun _ => [];
     cosine_distance := fun e _ => hd 0 e;
     collate_leb := fun _ _ => true;
     engine := demo_engine;
     fault := fun _ => None;
     clock := fun n => (100 + Z.of_nat n)%Z;
     llm := fun n _ => nth n answers (Unreachable (lit "connection refused"));
     keyboard := fun _ => CtrlD |}.

Definition library_world : world :=
  {| conn := {| committed := library_tables; working := library_tables |};
     statements := 0;
     completions := 0;
     prompts := 0;
     embedding_model := false;
     out := [] |}.

(** The tables with another content of [documents]. *)
Definition set_documents (t : tables) (docs : list document) : tables :=
  {| chat_history := chat_history t;
     documents := docs;
     columns := columns t;
     application := application t |}.

(** What [embed_documents] is to make of a stored document: one that has
    an embedding keeps it, one that has none gets that of its own text. *)
Definition embedded (E : env) (d : document) : document :=
  if has_embedding d then d else with_embedding d (encode E (doc_content d)).

(** A library with two documents that wait for their embedding, on a
    server that knows the statements of [embed_documents]; the encoder
    measures the length of the text. *)
Definition draft_tables : tables :=
  {| chat_history := [];
     documents :=
       [ {| doc_id := 1; doc_content := lit "Shipping takes five days";
            doc_metadata := VNone; doc_embedding := Some [3 # 10] |};
         {| doc_id := 2; doc_content := lit "Draft, not yet indexed";
            doc_metadata := VNone; doc_embedding := None |};
         {| doc_id := 3; doc_content := lit "Returns within 30 days";
            doc_metadata := VNone; doc_embedding := None |} ];
     columns := [];
     application := [] |}.

Definition draft_env (faults : list (option str)) : env :=
  {| SESSION_ID := lit "s1";
     EMBEDDING_MODEL := lit "all-MiniLM-L6-v2";
     lower_ext := fun _ c _ => [c];
     title := fun s => s;
     show_ext := fun _ => lit "?";
     encode := fun s => [Z.of_nat (List.length s) # 100];
     cosine_distance := fun e _ => hd 0 e;
     collate_leb := fun _ _ => true;
     engine := documents_engine demo_engine;
     fault := fun n => nth n faults None;
     clock := fun n => (100 + Z.of_nat n)%Z;
     llm := fun _ _ => Unreachable (lit "connection refused");
     keyboard := fun _ => CtrlD |}.

Definition draft_world : world :=
  {| conn := {| committed := draft_tables; working := draft_tables |};
     statements := 0;
     completions := 0;
     prompts := 0;
     embedding_model := false;
     out := [] |}.







(** The system message that opens every request of chat mode. *)
Definition chat_system_message : row :=
  message (VText (lit "system"))
    (VText (lit "You are a helpful assistant for a database chat system. You can help users understand their data, answer questions, and provide guidance.")).

(* ===================================================================== *)
(** ** [tools/config_loader.py]: [ConfigLoader] *)
(* ===================================================================== *)

Module Config.

(** What [keyring.get_password] answers: the password or [None], or an
    exception of the backend. *)
Inductive keyring_reply : Type :=
| Password (value : option str)
| KeyringError.

(** What lies outside the loader when [get] is called: the keyring, the
    environment of the process, and the case maps of the interpreter
    beyond ASCII. *)
Record sources := {
  get_password : str -> str -> keyring_reply;
  getenv : str -> option str;
  upper_ext : char -> str;
  lower_ext : str -> char -> str -> str
}.

(** The attributes of a [ConfigLoader].  The dict [_cache] is a list of
    entries, the first entry of a key being the dict's. *)
Record ConfigLoader := {
  service_name : str;
  use_keyring : bool;
  _cache : list (str * str)
}.

Definition SERVICE_NAME : str := lit "cgi_chat".

(** [ConfigLoader(service_name, use_keyring)]. *)
Definition init (KEYRING_AVAILABLE : bool) (name : str) (keyring : bool)
  : ConfigLoader :=
  {| service_name := name;
     use_keyring := (keyring && KEYRING_AVAILABLE)%bool;
     _cache := [] |}.

(** [cache.get(key)]: [Some] when [key in cache], and then [cache[key]]. *)
Fixpoint cache_get (cache : list (str * str)) (key : str) : option str :=
  match cache with
  | [] => None
  | (k, v) :: rest => if Py.eqb k key then Some v else cache_get rest key
  end.

(** [self._cache[key] = value]. *)
Definition cache_set (self : ConfigLoader) (key value : str) : ConfigLoader :=
  {| service_name := service_name self;
     use_keyring := use_keyring self;
     _cache := (key, value) :: _cache self |}.

(** [if value:] for an optional string. *)
Definition truthy (value : option str) : bool :=
  match value with
  | Some (_ :: _) => true
  | _ => false
  end.

Section Loader.

Variable S : sources.

(** The [try] block of [get]: what the keyring holds under the lowercased
    key, [None] when asking it raised. *)
Definition keyring_value (self : ConfigLoader) (key : str) : option str :=
  match get_password S (service_name self) (lower (lower_ext S) key) with
  | Password value => value
  | KeyringError => None
  end.

(** [env_var or key.upper()]. *)
Definition env_key (key : str) (env_var : option str) : str :=
  match env_var with
  | Some (c :: e) => c :: e
  | _ => upper (upper_ext S) key
  end.

(** [ConfigLoader.get]: the value, and the loader afterwards. *)
Definition get (self : ConfigLoader) (key : str) (default env_var : option str)
  : option str * ConfigLoader :=
  match cache_get (_cache self) key with
  | Some value => (Some value, self)
  | None =>
      match (if use_keyring self then keyring_value self key else None) with
      | Some (c :: v) => (Some (c :: v), cache_set self key (c :: v))
      | _ =>
          match getenv S (env_key key env_var) with
          | Some (c :: v) => (Some (c :: v), cache_set self key (c :: v))
          | _ =>
              match default with
              | Some value => (Some value, cache_set self key value)
              | None => (None, self)
              end
          end
      end
  end.

(** What [require] ends in. *)
Inductive required : Type :=
| Found (value : str)
| ValueError (msg : str).

Definition not_found (key : str) (env_var : option str) : str :=
  lit "Required configuration '" ++ key
  ++ lit "' not found. Set it in keyring or " ++ env_key key env_var
  ++ lit " environment variable.".

(** [ConfigLoader.require]. *)
Definition require (self : ConfigLoader) (key : str) (env_var : option str)
  : required * ConfigLoader :=
  match get self key None env_var with
  | (Some value, self') => (Found value, self')
  | (None, self') => (ValueError (not_found key env_var), self')
  end.

End Loader.

(** One call of [get], with what lay outside the loader at that time. *)
Record call := {
  call_sources : sources;
  call_key : str;
  call_default : option str;
  call_env_var : option str
}.

(** The loader after a series of calls of [get]. *)
Fixpoint gets (self : ConfigLoader) (calls : list call) : ConfigLoader :=
  match calls with
  | [] => self
  | c :: rest =>
      gets (snd (get (call_sources c) self (call_key c) (call_default c)
                   (call_env_var c))) rest
  end.

(** The values of a series of calls of [get], in order. *)
Fixpoint got (self : ConfigLoader) (calls : list call) : list (option str) :=
  match calls with
  | [] => []
  | c :: rest =>
      let r := get (call_sources c) self (call_key c) (call_default c)
                 (call_env_var c) in
      fst r :: got (snd r) rest
  end.

(** A keyring with one password, an environment with one variable. *)
Definition demo_sources : sources :=
  {| get_password :=
       fun service key =>
         if (Py.eqb service SERVICE_NAME && Py.eqb key (lit "postgres_user"))%bool
         then Password (Some (lit "alice"))
         else if Py.eqb key (lit "postgres_port") then KeyringError
         else Password None;
     getenv :=
       fun name =>
         if Py.eqb name (lit "POSTGRES_HOST") then Some (lit "db.internal")
         else if Py.eqb name (lit "POSTGRES_DB") then Some []
         else None;
     upper_ext := fun c => [c];
     lower_ext := fun _ c _ => [c] |}.

(** Nothing anywhere. *)
Definition no_sources : sources :=
  {| get_password := fun _ _ => Password None;
     getenv := fun _ => None;
     upper_ext := fun c => [c];
     lower_ext := fun _ c _ => [c] |}.

End Config.


(* ===================================================================== *)
(** ** [tools/credentials_setup.py] *)
(* ===================================================================== *)

Module Credentials.

Record credential := {
  key : str;
  prompt : str;
  default : option str;
  secret : bool
}.

Definition SERVICE_NAME : str := lit "cgi_chat".

Definition CREDENTIALS : list credential :=
  [ {| key := lit "postgres_host"; prompt := lit "PostgreSQL Host";
       default := Some (lit "localhost"); secret := false |};
    {| key := lit "postgres_port"; prompt := lit "PostgreSQL Port";
       default := Some (lit "5432"); secret := false |};
    {| key := lit "postgres_user"; prompt := lit "PostgreSQL Username";
       default := Some (lit "cgiuser"); secret := false |};
    {| key := lit "postgres_password"; prompt := lit "PostgreSQL Password";
       default := None; secret := true |};
    {| key := lit "postgres_db"; prompt := lit "PostgreSQL Database";
       default := Some (lit "cgidb"); secret := false |} ].

(** What the script does at the terminal: a [print], the prompt of an
    [input], the prompt of a [getpass] (which does not echo). *)
Inductive event : Type :=
| Written (text : str)
| Asked (message : str)
| AskedHidden (message : str).

Inductive exn : Type :=
| SystemExit (code : Z)
| EOFError
| KeyboardInterrupt.

(** The keyring, a working backend: the passwords by service and user
    name. *)
Definition store : Type := list ((str * str) * str).

Definition same_entry (service username : str) (e : (str * str) * str)
  : bool :=
  (Py.eqb (fst (fst e)) service && Py.eqb (snd (fst e)) username)%bool.

(** [keyring.get_password]. *)
Definition password (s : store) (service username : str) : option str :=
  match find (same_entry service username) s with
  | Some e => Some (snd e)
  | None => None
  end.

Definition without (s : store) (service username : str) : store :=
  filter (fun e => negb (same_entry service username e)) s.

Record world := {
  keyring : store;
  asked : nat;
  out : list event
}.

Inductive res (A : Type) : Type :=
| Returned (a : A)
| Raised (e : exn).
Arguments Returned {A} a.
Arguments Raised {A} e.

Definition M (A : Type) : Type := world -> res A * world.

Definition ret {A : Type} (a : A) : M A := fun w => (Returned a, w).

Definition bind {A B : Type} (m : M A) (k : A -> M B) : M B :=
  fun w =>
    match m w with
    | (Returned a, w') => k a w'
    | (Raised e, w') => (Raised e, w')
    end.

Definition raise {A : Type} (e : exn) : M A := fun w => (Raised e, w).

Declare Scope cred_scope.
Delimit Scope cred_scope with cred.
Notation "x <- m ;; k" := (bind m (fun x => k))
  (at level 61, m at next level, right associativity) : cred_scope.
Notation "m ;; k" := (bind m (fun _ => k))
  (at level 61, right associativity) : cred_scope.
Local Open Scope cred_scope.

(** [for x in l: f(x)]. *)
Fixpoint for_each {A : Type} (f : A -> M unit) (l : list A) : M unit :=
  match l with
  | [] => ret tt
  | x :: r => f x ;; for_each f r
  end.

Definition emit (e : event) : M unit :=
  fun w =>
    (Returned tt,
     {| keyring := keyring w; asked := asked w; out := out w ++ [e] |}).

(** [print(text)]. *)
Definition print (text : str) : M unit := emit (Written text).

(** [keyring.set_password]. *)
Definition set_password (service username value : str) : M unit :=
  fun w =>
    (Returned tt,
     {| keyring := ((service, username), value)
                   :: without (keyring w) service username;
        asked := asked w; out := out w |}).

(** [keyring.get_password]. *)
Definition get_password (service username : str) : M (option str) :=
  fun w => (Returned (password (keyring w) service username), w).

(** [keyring.delete_password]: [false] stands for its
    [PasswordDeleteError], raised when there is nothing to delete. *)
Definition delete_password (service username : str) : M bool :=
  fun w =>
    match password (keyring w) service username with
    | Some _ =>
        (Returned true,
         {| keyring := without (keyring w) service username;
            asked := asked w; out := out w |})
    | None => (Returned false, w)
    end.

Definition cross_mark : str := [10060%N].
Definition check_mark : str := [10003%N].
Definition ballot_x : str := [10007%N].
Definition warning_sign : str := [9888%N; 65039%N].

(** ["=" * 70], ["*" * 8]. *)
Definition rule : str := repeat 61%N 70%nat.
Definition mask : str := repeat 42%N 8%nat.

Section Script.

(** What the user types at the n-th prompt, and the lowercase map of the
    interpreter beyond ASCII. *)
Variable keyboard : nat -> key_reply.
Variable lower_ext : str -> char -> str -> str.

Definition read (e : event) : M str :=
  fun w =>
    let w' := {| keyring := keyring w; asked := S (asked w);
                 out := out w ++ [e] |} in
    match keyboard (asked w) with
    | Line s => (Returned s, w')
    | CtrlD => (Raised EOFError, w')
    | CtrlC => (Raised KeyboardInterrupt, w')
    end.

(** [input(message)], [getpass.getpass(message)]. *)
Definition input (message : str) : M str := read (Asked message).
Definition getpass (message : str) : M str := read (AskedHidden message).

(** [if s:] for a string and for an optional one. *)
Definition nonempty (s : str) : bool :=
  match s with
  | [] => false
  | _ => true
  end.

Definition truthy (s : option str) : bool :=
  match s with
  | Some (_ :: _) => true
  | _ => false
  end.

(** The body of the loop of [setup_credentials]. *)
Definition setup_one (cred : credential) : M unit :=
  let prompt_text := prompt cred in
  let full_prompt :=
    match default cred with
    | Some (c :: d) => prompt_text ++ lit " [" ++ (c :: d) ++ lit "]: "
    | _ => prompt_text ++ lit ": "
    end in
  value <- (if secret cred then getpass full_prompt else input full_prompt) ;;
  let value :=
    match value, default cred with
    | [], Some (c :: d) => c :: d
    | _, _ => value
    end in
  if negb (nonempty value) then
    print (cross_mark ++ lit " " ++ prompt_text ++ lit " is required!") ;;
    raise (SystemExit 1%Z)
  else
    set_password SERVICE_NAME (key cred) value ;;
    let display_value := if secret cred then mask else value in
    print (check_mark ++ lit " Stored " ++ prompt_text ++ lit ": "
           ++ display_value).

Definition setup_credentials : M unit :=
  print rule ;;
  print (lit "CGI Chat - Secure Credential Setup") ;;
  print rule ;;
  print (lit "
Credentials will be stored in your system keyring:") ;;
  print (lit "Service: " ++ SERVICE_NAME) ;;
  print (lit "
Press Enter to use default values shown in [brackets]
") ;;
  for_each setup_one CREDENTIALS ;;
  print (lit "
" ++ rule) ;;
  print (check_mark
         ++ lit " All credentials stored securely in system keyring") ;;
  print rule ;;
  print (lit "
You can now run chat.py with keyring support") ;;
  print (lit "To update credentials, run this script again").

(** The body of the loop of [list_credentials]. *)
Definition list_one (cred : credential) : M unit :=
  value <- get_password SERVICE_NAME (key cred) ;;
  if truthy value then
    let display :=
      if secret cred then lit "********"
      else match value with Some v => v | None => [] end in
    print (check_mark ++ lit " " ++ prompt cred ++ lit ": " ++ display)
  else
    print (ballot_x ++ lit " " ++ prompt cred ++ lit ": Not set").

Definition list_credentials : M unit :=
  print rule ;;
  print (lit "Stored Credentials") ;;
  print rule ;;
  for_each list_one CREDENTIALS.

(** The body of the loop of [delete_credentials]. *)
Definition delete_one (cred : credential) : M unit :=
  deleted <- delete_password SERVICE_NAME (key cred) ;;
  if deleted then print (check_mark ++ lit " Deleted " ++ prompt cred)
  else print (lit "  (not found: " ++ prompt cred ++ lit ")").

Definition delete_credentials : M unit :=
  confirm <- input (lit "
" ++ warning_sign ++ lit "  Delete all stored credentials? (yes/no): ") ;;
  if negb (Py.eqb (lower lower_ext confirm) (lit "yes")) then
    print (lit "Cancelled")
  else
    print (lit "
Deleting credentials...") ;;
    for_each delete_one CREDENTIALS ;;
    print (lit "
" ++ check_mark ++ lit " All credentials deleted").

(** [main()], for the arguments [sys.argv]. *)
Definition main (argv : list str) : M unit :=
  match argv with
  | _ :: arg :: _ =>
      let command := lower lower_ext arg in
      if Py.eqb command (lit "list") then list_credentials
      else if Py.eqb command (lit "delete") then delete_credentials
      else if Py.eqb command (lit "setup") then setup_credentials
      else
        print (lit "Unknown command: " ++ command) ;;
        print (lit "
Usage:") ;;
        print (lit "  python credentials_setup.py [setup|list|delete]") ;;
        print (lit "
Commands:") ;;
        print (lit "  setup   - Interactive credential setup (default)") ;;
        print (lit "  list    - List stored credentials") ;;
        print (lit "  delete  - Delete all stored credentials")
  | _ => setup_credentials
  end.

End Script.

(** The value that [setup_credentials] stores for a credential when the
    user types [line]. *)
Definition chosen (cred : credential) (line : str) : str :=
  match line, default cred with
  | [], Some d => d
  | _, _ => line
  end.

(** The sources of a [ConfigLoader] that reads the keyring [s]. *)
Definition reading (s : store) (S : Config.sources) : Config.sources :=
  {| Config.get_password :=
       fun service username => Config.Password (password s service username);
     Config.getenv := Config.getenv S;
     Config.upper_ext := Config.upper_ext S;
     Config.lower_ext := Config.lower_ext S |}.

(** A user who accepts every default and types a password; an empty
    keyring at a fresh terminal. *)
Definition demo_keyboard (n : nat) : key_reply :=
  match n with
  | 3%nat => Line (lit "s3cret")
  | _ => Line []
  end.

Definition fresh : world := {| keyring := []; asked := 0%nat; out := [] |}.

(** What [setup_credentials] prints before and after its loop. *)
Definition opening : list event :=
  [ Written rule;
    Written (lit "CGI Chat - Secure Credential Setup");
    Written rule;
    Written (lit "
Credentials will be stored in your system keyring:");
    Written (lit "Service: " ++ SERVICE_NAME);
    Written (lit "
Press Enter to use default values shown in [brackets]
") ].

Definition closing : list event :=
  [ Written (lit "
" ++ rule);
    Written (check_mark
             ++ lit " All credentials stored securely in system keyring");
    Written rule;
    Written (lit "
You can now run chat.py with keyring support");
    Written (lit "To update credentials, run this script again") ].

(** The keys of the script, as a test on a user name. *)
Definition is_credential (username : str) : bool :=
  existsb (fun cred => Py.eqb (key cred) username) CREDENTIALS.

End Credentials.


(* ===================================================================== *)
(** ** Facts about the string methods *)
(* ===================================================================== *)

Unset Implicit Arguments.
Close Scope Q_scope.

Lemma char_eqb_eq (a b : char) : char_eqb a b = true <-> a = b.
Proof. unfold char_eqb. apply N.eqb_eq. Qed.

Lemma eqb_eq (a b : str) : Py.eqb a b = true <-> a = b.
Proof.
  revert b. induction a as [|x a IH]; intros [|y b]; simpl;
    try (split; [discriminate | discriminate]); try tauto.
  rewrite andb_true_iff, char_eqb_eq, IH. split.
  - intros [-> ->]. reflexivity.
  - intros H. injection H as -> ->. tauto.
Qed.

Lemma eqb_refl (a : str) : Py.eqb a a = true.
Proof. apply eqb_eq. reflexivity. Qed.

Lemma startswith_spec (s p : str) : startswith s p = true <-> starts_with s p.
Proof.
  revert s. induction p as [|x p IH]; intros s.
  - destruct s; simpl; split; intros _; try reflexivity;
      eexists; reflexivity.
  - destruct s as [|y s]; simpl.
    + split; [discriminate | intros [r H]; discriminate].
    + rewrite andb_true_iff, char_eqb_eq, IH. split.
      * intros [-> [r ->]]. exists r. reflexivity.
      * intros [r H]. injection H as -> ->. split; [reflexivity|].
        exists r. reflexivity.
Qed.

Lemma startswith_false (s p : str) :
  startswith s p = false <-> ~ starts_with s p.
Proof.
  rewrite <- startswith_spec. symmetry. apply not_true_iff_false.
Qed.

Lemma endswith_spec (s p : str) : endswith s p = true <-> ends_with s p.
Proof.
  unfold endswith. rewrite startswith_spec. split.
  - intros [r H]. exists (rev r).
    rewrite <- (rev_involutive s), H, rev_app_distr, rev_involutive.
    reflexivity.
  - intros [f ->]. exists (rev f). apply rev_app_distr.
Qed.

Lemma contains_unfold (k s : str) :
  contains k s =
  startswith s k || match s with [] => false | _ :: r => contains k r end.
Proof. destruct s; reflexivity. Qed.

Lemma contains_spec (k s : str) : contains k s = true <-> occurs k s.
Proof.
  induction s as [|c s IH]; rewrite contains_unfold, orb_true_iff.
  - split.
    + intros [H | H]; [|discriminate].
      apply startswith_spec in H as [r H]. exists [], r. exact H.
    + intros [pre [post H]]. left. apply startswith_spec.
      destruct pre; [exists post; exact H | discriminate].
  - rewrite IH, startswith_spec. split.
    + intros [[r H] | [pre [post H]]].
      * exists [], r. exact H.
      * exists (c :: pre), post. rewrite H. reflexivity.
    + intros [[|x pre] [post H]].
      * left. exists post. exact H.
      * right. injection H as -> ->. exists pre, post. reflexivity.
Qed.

Lemma contains_false (k s : str) : contains k s = false <-> ~ occurs k s.
Proof.
  rewrite <- contains_spec. symmetry. apply not_true_iff_false.
Qed.

Lemma count_count_occ (s : str) (c : char) :
  count s c = count_occ N.eq_dec s c.
Proof.
  induction s as [|x s IH]; simpl; [reflexivity|].
  unfold char_eqb. destruct (N.eq_dec x c) as [->|Hne].
  - rewrite N.eqb_refl, IH. reflexivity.
  - apply N.eqb_neq in Hne. rewrite Hne, IH. reflexivity.
Qed.

(** [find] returns the first element that passes the test. *)
Lemma find_first {A : Type} (f : A -> bool) (l : list A) (x : A) :
  find f l = Some x <->
  exists before after,
    l = before ++ x :: after /\ f x = true
    /\ forall y, In y before -> f y = false.
Proof.
  induction l as [|a l IH]; simpl.
  - split; [discriminate|]. intros [[|b bs] [af [H _]]]; discriminate.
  - destruct (f a) eqn:Hfa.
    + split.
      * intros H. injection H as ->. exists [], l. simpl. tauto.
      * intros [[|b bs] [af [H [Hx Hb]]]].
        -- injection H as -> _. reflexivity.
        -- injection H as -> _. specialize (Hb b (or_introl eq_refl)).
           congruence.
    + rewrite IH. split.
      * intros [bs [af [-> [Hx Hb]]]]. exists (a :: bs), af.
        repeat split; trivial. intros y [<- | Hy]; auto.
      * intros [[|b bs] [af [H [Hx Hb]]]].
        -- injection H as -> _. congruence.
        -- injection H as -> ->. exists bs, af. repeat split; trivial.
           intros y Hy. apply Hb. right. exact Hy.
Qed.

Lemma find_none_iff {A : Type} (f : A -> bool) (l : list A) :
  find f l = None <-> forall y, In y l -> f y = false.
Proof.
  split; [apply find_none|]. induction l as [|a l IH]; simpl; intros H.
  - reflexivity.
  - rewrite (H a (or_introl eq_refl)). apply IH. intros y Hy. apply H.
    right. exact Hy.
Qed.

Example split_words_example :
  split (lit "  SELECT  *
 FROM	users  ") = [lit "SELECT"; lit "*"; lit "FROM"; lit "users"].
Proof. vm_compute. reflexivity. Qed.

Example split_blank_example : split (lit "   ") = [] /\ split [] = [].
Proof. split; reflexivity. Qed.

Example split1_example :
  split1 (lit "/sql   list  all users ")
  = [lit "/sql"; lit "list  all users "]
  /\ split1 (lit "/help") = [lit "/help"].
Proof. split; vm_compute; reflexivity. Qed.

Example strip_chars_example :
  strip_chars (lit "; ;SELECT 1; ;") (lit "; ") = lit "SELECT 1".
Proof. vm_compute. reflexivity. Qed.

Example clean_query_example :
  forall upper_ext,
    clean_query upper_ext (lit "  select  *
  from users ; ") = lit "SELECT * FROM USERS".
Proof. intros upper_ext. vm_compute. reflexivity. Qed.

(** On ASCII text the lowercase form is [y] for the inputs [y] and [Y]
    only. *)
Lemma lower_is_y_ascii (lower_ext : str -> char -> str -> str)
    (answer : str) :
  Forall (fun c => (c < 128)%N) answer ->
  (lower lower_ext answer = lit "y"
   <-> answer = lit "y" \/ answer = lit "Y").
Proof.
  intros Hascii.
  assert (Hone : forall before c after,
             (c < 128)%N ->
             exists d, lower_char lower_ext before c after = [d]
                       /\ (d = 121%N <-> c = 121%N \/ c = 89%N)).
  { intros before c after Hc. unfold lower_char.
    destruct ((65 <=? c)%N && (c <=? 90)%N) eqn:Hup.
    - apply andb_true_iff in Hup as [H1 H2].
      apply N.leb_le in H1, H2. eexists. split; [reflexivity|]. lia.
    - apply N.ltb_lt in Hc as Hlt. rewrite Hlt.
      eexists. split; [reflexivity|].
      apply andb_false_iff in Hup. rewrite !N.leb_gt in Hup. lia. }
  unfold lower. destruct answer as [|c [|d r]].
  - simpl. split; [discriminate | intros [H|H]; discriminate H].
  - inversion Hascii as [|? ? Hc _]; subst.
    destruct (Hone [] c [] Hc) as [x [Hx Hiff]].
    simpl. rewrite Hx. simpl. change (lit "y") with [121%N].
    change (lit "Y") with [89%N]. split.
    + intros H. injection H as ->.
      destruct (proj1 Hiff eq_refl) as [-> | ->]; [left|right]; reflexivity.
    + intros [H|H]; injection H as ->; f_equal; apply Hiff; lia.
  - inversion Hascii as [|? ? Hc Hr]; subst.
    inversion Hr as [|? ? Hd _]; subst.
    destruct (Hone [] c (d :: r) Hc) as [x [Hx _]].
    destruct (Hone [c] d r Hd) as [y [Hy _]].
    simpl lower_from. rewrite Hx, Hy. simpl.
    split; [discriminate | intros [H|H]; discriminate H].
Qed.

Lemma split_cons (c : char) (r : str) :
  split (c :: r) =
  if isspace c then split r
  else match r with
       | [] => [[c]]
       | d :: _ =>
           if isspace d then [c] :: split r
           else match split r with
                | w :: ws => (c :: w) :: ws
                | [] => [[c]]
                end
       end.
Proof. reflexivity. Qed.

(** The words of [s.split()] are made of the code points of [s] that are
    not whitespace. *)
Lemma split_words (R : char -> Prop) (s : str) :
  (forall c, In c s -> isspace c = false -> R c) ->
  Forall (Forall R) (split s).
Proof.
  induction s as [|c r IH]; intros H; [constructor|].
  assert (Hr : Forall (Forall R) (split r)).
  { apply IH. intros x Hx. apply H. right. exact Hx. }
  rewrite split_cons. destruct (isspace c) eqn:Hc; [exact Hr|].
  assert (Rc : R c) by (apply H; [left; reflexivity | exact Hc]).
  destruct r as [|d r']; [repeat constructor; exact Rc|].
  destruct (isspace d).
  - constructor; [repeat constructor; exact Rc | exact Hr].
  - destruct (split (d :: r')) as [|w ws].
    + repeat constructor; exact Rc.
    + inversion Hr; subst. constructor; [constructor|]; assumption.
Qed.

Lemma join_Forall (R : char -> Prop) (sep : str) (ws : list str) :
  Forall R sep -> Forall (Forall R) ws -> Forall R (join sep ws).
Proof.
  intros Hsep. induction ws as [|w ws IH]; intros H; [constructor|].
  inversion H; subst. simpl. destruct ws as [|w' ws'].
  - assumption.
  - apply Forall_app. split; [assumption|]. apply Forall_app.
    split; [assumption|]. apply IH. assumption.
Qed.

Lemma dropwhile_Forall (R : char -> Prop) (p : char -> bool) (s : str) :
  Forall R s -> Forall R (dropwhile p s).
Proof.
  induction s as [|c r IH]; intros H; simpl; [constructor|].
  destruct (p c); [|exact H]. apply IH. inversion H; assumption.
Qed.

Lemma strip_by_Forall (R : char -> Prop) (p : char -> bool) (s : str) :
  Forall R s -> Forall R (strip_by p s).
Proof.
  intros H. unfold strip_by.
  apply Forall_rev, dropwhile_Forall, Forall_rev, dropwhile_Forall, H.
Qed.

Lemma dropwhile_all (p : char -> bool) (s : str) :
  Forall (fun c => p c = true) s -> dropwhile p s = [].
Proof.
  induction s as [|c r IH]; intros H; simpl; [reflexivity|].
  inversion H; subst. rewrite H2. apply IH. assumption.
Qed.

Lemma strip_by_all (p : char -> bool) (s : str) :
  Forall (fun c => p c = true) s -> strip_by p s = [].
Proof.
  intros H. unfold strip_by. rewrite (dropwhile_all p s H). reflexivity.
Qed.

(* ===================================================================== *)
(** ** The validator: what it rejects and why *)
(* ===================================================================== *)

Example run_tests_all_pass :
  forallb (fun t => Bool.eqb (passes (fst t)) (snd t)) test_cases = true.
Proof. vm_compute. reflexivity. Qed.

Lemma forbidden_msg_inj (k k' : str) :
  forbidden_msg k = forbidden_msg k' -> k = k'.
Proof.
  unfold forbidden_msg. intros H.
  apply app_inv_head in H. apply app_inv_head in H.
  apply app_inv_tail in H. exact H.
Qed.

Lemma forbidden_msg_not_prefix_msg (k : str) : forbidden_msg k <> prefix_msg.
Proof.
  intros H. apply (f_equal (@rev char)) in H. unfold forbidden_msg in H.
  rewrite !rev_app_distr in H. vm_compute in H. discriminate H.
Qed.

Lemma forbidden_msg_not_multi_msg (k : str) : forbidden_msg k <> multi_msg.
Proof.
  intros H. apply (f_equal (@rev char)) in H. unfold forbidden_msg in H.
  rewrite !rev_app_distr in H. vm_compute in H. discriminate H.
Qed.

Lemma prefix_msg_not_multi_msg : prefix_msg <> multi_msg.
Proof. vm_compute. discriminate. Qed.

Section ValidatorFacts.

Variable upper_ext : char -> str.


Lemma first_forbidden_some (c k : str) :
first_forbidden c = Some k <->
exists before after,
  forbidden_keywords = before ++ k :: after /\ occurs k c
  /\ forall j, In j before -> ~ occurs j c.
Proof.
unfold first_forbidden. rewrite find_first. split.
- intros [b [a [H1 [H2 H3]]]]. exists b, a. repeat split; trivial.
  + apply contains_spec. exact H2.
  + intros j Hj. apply contains_false. apply H3. exact Hj.
- intros [b [a [H1 [H2 H3]]]]. exists b, a. repeat split; trivial.
  + apply contains_spec. exact H2.
  + intros j Hj. apply contains_false. apply H3. exact Hj.
Qed.

Lemma first_forbidden_none (c : str) :
first_forbidden c = None <->
forall k, In k forbidden_keywords -> ~ occurs k c.
Proof.
unfold first_forbidden. rewrite find_none_iff. split.
- intros H k Hk. apply contains_false. apply H. exact Hk.
- intros H k Hk. apply contains_false. apply H. exact Hk.
Qed.

Lemma validate_forbidden (s k : str) :
first_forbidden (clean_query upper_ext s) = Some k -> validate_read_only_query upper_ext s = Raise (forbidden_msg k).
Proof.
intros H. unfold validate_read_only_query.
rewrite H. reflexivity.
Qed.

Lemma validate_not_forbidden (s : str) :
first_forbidden (clean_query upper_ext s) = None ->
validate_read_only_query upper_ext s =
if negb (startswith (clean_query upper_ext s) (lit "SELECT")
         || startswith (clean_query upper_ext s) (lit "WITH"))
then Raise prefix_msg
else if semicolon_violation s then Raise multi_msg else Return true.
Proof.
intros H. unfold validate_read_only_query.
rewrite H. reflexivity.
Qed.

End ValidatorFacts.

Lemma split_unique {A : Type} (x : A) (b a b' a' : list A) :
  NoDup (b ++ x :: a) -> b ++ x :: a = b' ++ x :: a' -> b = b'.
Proof.
  revert b'. induction b as [|y b IH]; intros [|y' b'] Hnd H; simpl in *.
  - reflexivity.
  - injection H as <- ->. inversion Hnd; subst. exfalso. apply H1.
    apply in_or_app. right. left. reflexivity.
  - injection H as -> <-. inversion Hnd; subst. exfalso. apply H1.
    apply in_or_app. right. left. reflexivity.
  - injection H as <- H. inversion Hnd; subst. f_equal.
    apply IH; assumption.
Qed.

Lemma forbidden_keywords_NoDup : NoDup forbidden_keywords.
Proof.
  unfold forbidden_keywords.
  repeat (constructor;
          [simpl; intros Hc;
           repeat (destruct Hc as [Hc|Hc];
                   [vm_compute in Hc; discriminate Hc|]);
           exact Hc|]).
  constructor.
Qed.

(** The scan is a plain substring test: a table called [dogs] is enough
    to have a query rejected for the keyword DO. *)
Example substring_not_word_boundary :
  forall upper_ext,
    validate_read_only_query upper_ext (lit "SELECT * FROM dogs")
    = Raise (forbidden_msg (lit "DO")).
Proof. intros upper_ext. vm_compute. reflexivity. Qed.

(** C2, as stated, fails: the text [EXECUTE SP_MALICIOUS] contains the
    keyword EXEC, and the rejection names EXECUTE, which comes first in
    the list. *)
Lemma keyword_named_counterexample :
  ~ (forall (upper_ext : char -> str) (s k : str),
        In k forbidden_keywords ->
        occurs k (clean_query upper_ext s) ->
        validate_read_only_query upper_ext s = Raise (forbidden_msg k)).
Proof.
  intros H.
  specialize (H no_ext (lit "EXECUTE sp_malicious") (lit "EXEC")).
  assert (Hin : In (lit "EXEC") forbidden_keywords).
  { unfold forbidden_keywords. simpl. tauto. }
  assert (Hocc : occurs (lit "EXEC")
                   (clean_query no_ext (lit "EXECUTE sp_malicious"))).
  { exists [], (lit "UTE SP_MALICIOUS"). vm_compute. reflexivity. }
  specialize (H Hin Hocc). vm_compute in H. discriminate H.
Qed.

(** C2 (amended): when the cleaned text contains a forbidden keyword as a
    substring, the query is rejected with the forbidden-keyword message
    naming the first keyword, in the order of the list, that occurs in the
    cleaned text; it names a given keyword that occurs exactly when no
    keyword listed before it occurs too. *)
Theorem forbidden_keyword_rejected :
  forall (upper_ext : char -> str) (s k : str),
    In k forbidden_keywords ->
    occurs k (clean_query upper_ext s) ->
    exists k' before after,
      forbidden_keywords = before ++ k' :: after
      /\ occurs k' (clean_query upper_ext s)
      /\ (forall j, In j before -> ~ occurs j (clean_query upper_ext s))
      /\ validate_read_only_query upper_ext s = Raise (forbidden_msg k')
      /\ ((forall b a j, forbidden_keywords = b ++ k :: a -> In j b ->
                         ~ occurs j (clean_query upper_ext s))
          <-> k' = k).
Proof.
  intros upper_ext s k Hin Hocc.
  destruct (first_forbidden (clean_query upper_ext s)) as [k'|] eqn:Hf.
  - pose proof Hf as Hfirst.
    apply first_forbidden_some in Hf as [before [after [Hl [Hk' Hb]]]].
    exists k', before, after. repeat split; trivial.
    + apply validate_forbidden. exact Hfirst.
    + intros Hk. destruct (in_split _ _ Hin) as [b [a Hba]].
      assert (Hk2 : first_forbidden (clean_query upper_ext s) = Some k).
      { apply first_forbidden_some. exists b, a. repeat split; trivial.
        intros j Hj. apply (Hk b a j Hba Hj). }
      congruence.
    + intros <- b a j Hba Hj.
      assert (Hbb : b = before).
      { apply (split_unique k' b a before after).
        - rewrite <- Hba. exact forbidden_keywords_NoDup.
        - rewrite <- Hba. exact Hl. }
      subst b. apply Hb. exact Hj.
  - exfalso. rewrite first_forbidden_none in Hf. exact (Hf k Hin Hocc).
Qed.

Lemma forbidden_keyword_rejected_witness :
  In (lit "DROP") forbidden_keywords
  /\ occurs (lit "DROP") (clean_query no_ext (lit "DROP TABLE users"))
  /\ exists k' before after,
      forbidden_keywords = before ++ k' :: after
      /\ occurs k' (clean_query no_ext (lit "DROP TABLE users"))
      /\ (forall j, In j before ->
                    ~ occurs j (clean_query no_ext (lit "DROP TABLE users")))
      /\ validate_read_only_query no_ext (lit "DROP TABLE users")
         = Raise (forbidden_msg k')
      /\ ((forall b a j, forbidden_keywords = b ++ lit "DROP" :: a ->
                         In j b ->
                         ~ occurs j
                             (clean_query no_ext (lit "DROP TABLE users")))
          <-> k' = lit "DROP").
Proof.
  assert (Hin : In (lit "DROP") forbidden_keywords).
  { unfold forbidden_keywords. simpl. tauto. }
  assert (Hocc : occurs (lit "DROP")
                   (clean_query no_ext (lit "DROP TABLE users"))).
  { exists [], (lit " TABLE USERS"). vm_compute. reflexivity. }
  split; [exact Hin|]. split; [exact Hocc|].
  exact (forbidden_keyword_rejected no_ext (lit "DROP TABLE users")
           (lit "DROP") Hin Hocc).
Defined.

(** C3: a query that the keyword scan lets through and whose cleaned text
    starts with neither SELECT nor WITH is rejected with the read-only
    prefix message; the CTE query of the tests is allowed. *)
Theorem prefix_check_rejects :
  forall upper_ext : char -> str,
    (forall s : str,
        (forall k, In k forbidden_keywords ->
                   ~ occurs k (clean_query upper_ext s)) ->
        ~ starts_with (clean_query upper_ext s) (lit "SELECT") ->
        ~ starts_with (clean_query upper_ext s) (lit "WITH") ->
        validate_read_only_query upper_ext s = Raise prefix_msg)
    /\ validate_read_only_query upper_ext
         (lit "WITH cte AS (SELECT * FROM users) SELECT * FROM cte")
       = Return true.
Proof.
  intros upper_ext. split.
  - intros s Hk Hs Hw.
    rewrite validate_not_forbidden by (apply first_forbidden_none; exact Hk).
    apply startswith_false in Hs, Hw. rewrite Hs, Hw. reflexivity.
  - vm_compute. reflexivity.
Qed.

Lemma no_keyword_in (upper_ext : char -> str) (s : str) :
  first_forbidden (clean_query upper_ext s) = None ->
  forall k, In k forbidden_keywords -> ~ occurs k (clean_query upper_ext s).
Proof. intros H. apply first_forbidden_none. exact H. Qed.

Lemma prefix_check_rejects_witness :
  validate_read_only_query no_ext (lit "hello; world") = Raise prefix_msg.
Proof.
  apply (proj1 (prefix_check_rejects no_ext)).
  - apply no_keyword_in. vm_compute. reflexivity.
  - apply startswith_false. vm_compute. reflexivity.
  - apply startswith_false. vm_compute. reflexivity.
Defined.

(** C4: for a query that passes the keyword scan and the prefix check, the
    semicolons are counted in the raw string: more than one, or one that
    is not the last character of the raw string once its surrounding
    whitespace is removed, rejects the query with the multiple-statements
    message; otherwise the query is allowed. *)
Theorem semicolon_check :
  forall (upper_ext : char -> str) (s : str),
    (forall k, In k forbidden_keywords ->
               ~ occurs k (clean_query upper_ext s)) ->
    starts_with (clean_query upper_ext s) (lit "SELECT")
    \/ starts_with (clean_query upper_ext s) (lit "WITH") ->
    ((1 < count_occ N.eq_dec s 59%N
      \/ (count_occ N.eq_dec s 59%N = 1
          /\ ~ ends_with (strip s) (lit ";"))) ->
     validate_read_only_query upper_ext s = Raise multi_msg)
    /\ (~ (1 < count_occ N.eq_dec s 59%N
           \/ (count_occ N.eq_dec s 59%N = 1
               /\ ~ ends_with (strip s) (lit ";"))) ->
        validate_read_only_query upper_ext s = Return true).
Proof.
  intros upper_ext s Hk Hp.
  rewrite validate_not_forbidden by (apply first_forbidden_none; exact Hk).
  assert (Hpre : startswith (clean_query upper_ext s) (lit "SELECT")
                 || startswith (clean_query upper_ext s) (lit "WITH")
                 = true).
  { apply orb_true_iff. rewrite !startswith_spec. exact Hp. }
  rewrite Hpre. simpl negb. cbv iota.
  unfold semicolon_violation. rewrite count_count_occ.
  set (n := count_occ N.eq_dec s 59%N).
  destruct (endswith (strip s) (lit ";")) eqn:He.
  - apply endswith_spec in He. split.
    + intros [H | [H1 H2]].
      * apply Nat.ltb_lt in H. rewrite H. reflexivity.
      * contradiction.
    + intros H. destruct (1 <? n)%nat eqn:Hlt.
      * exfalso. apply H. left. apply Nat.ltb_lt. exact Hlt.
      * rewrite andb_false_r. reflexivity.
  - assert (Hne : ~ ends_with (strip s) (lit ";")).
    { rewrite <- endswith_spec, He. discriminate. }
    split.
    + intros [H | [H1 H2]].
      * apply Nat.ltb_lt in H. rewrite H. reflexivity.
      * rewrite H1. reflexivity.
    + intros H. destruct (1 <? n)%nat eqn:Hlt.
      * exfalso. apply H. left. apply Nat.ltb_lt. exact Hlt.
      * destruct (n =? 1)%nat eqn:Heq; [|reflexivity].
        exfalso. apply H. right. split; [|exact Hne].
        apply Nat.eqb_eq. exact Heq.
Qed.

Lemma semicolon_check_witness :
  validate_read_only_query no_ext (lit "SELECT 1; SELECT 2") = Raise multi_msg
  /\ validate_read_only_query no_ext (lit "SELECT * FROM users;")
     = Return true.
Proof.
  split.
  - apply (semicolon_check no_ext (lit "SELECT 1; SELECT 2")).
    + apply no_keyword_in. vm_compute. reflexivity.
    + left. exists (lit " 1; SELECT 2"). vm_compute. reflexivity.
    + right. split; [vm_compute; reflexivity|].
      rewrite <- endswith_spec. vm_compute. discriminate.
  - apply (semicolon_check no_ext (lit "SELECT * FROM users;")).
    + apply no_keyword_in. vm_compute. reflexivity.
    + left. exists (lit " * FROM USERS"). vm_compute. reflexivity.
    + intros [H | [_ H]].
      * vm_compute in H. lia.
      * apply H. rewrite <- endswith_spec. vm_compute. reflexivity.
Defined.

(** The four outcomes of the validator. *)
Lemma validate_outcomes (upper_ext : char -> str) (s : str) :
  validate_read_only_query upper_ext s = Return true
  \/ (exists k, In k forbidden_keywords
                /\ validate_read_only_query upper_ext s
                   = Raise (forbidden_msg k))
  \/ validate_read_only_query upper_ext s = Raise prefix_msg
  \/ validate_read_only_query upper_ext s = Raise multi_msg.
Proof.
  destruct (first_forbidden (clean_query upper_ext s)) as [k|] eqn:Hf.
  - right. left. exists k. split.
    + apply first_forbidden_some in Hf as [b [a [Hl _]]]. rewrite Hl.
      apply in_or_app. right. left. reflexivity.
    + apply validate_forbidden. exact Hf.
  - rewrite (validate_not_forbidden upper_ext s Hf).
    destruct (negb _); [right; right; left; reflexivity|].
    destruct (semicolon_violation s).
    + right. right. right. reflexivity.
    + left. reflexivity.
Qed.

(** C8: for every input string the validator yields exactly one result,
    which is fixed by the string alone: it returns [True] or raises one of
    its three messages. *)
Theorem classification_total_deterministic :
  forall (upper_ext : char -> str) (s : str),
    exists r : outcome bool,
      validate_read_only_query upper_ext s = r
      /\ (forall r', validate_read_only_query upper_ext s = r' -> r' = r)
      /\ (forall s', s' = s -> validate_read_only_query upper_ext s' = r)
      /\ (r = Return true
          \/ (exists k, In k forbidden_keywords /\ r = Raise (forbidden_msg k))
          \/ r = Raise prefix_msg
          \/ r = Raise multi_msg).
Proof.
  intros upper_ext s. exists (validate_read_only_query upper_ext s).
  split; [reflexivity|]. split; [intros r' H; symmetry; exact H|].
  split; [intros s' ->; reflexivity|].
  apply validate_outcomes.
Qed.

(** The cleaned text of a string made of whitespace and semicolons is
    empty. *)
Lemma clean_query_blank (upper_ext : char -> str) (s : str) :
  Forall (fun c => isspace c = true \/ c = 59%N) s ->
  clean_query upper_ext s = [].
Proof.
  intros H. unfold clean_query.
  set (Q := fun c : char => mem c (lit "; ") = true).
  assert (Hj : Forall Q (join (lit " ") (split s))).
  { apply join_Forall.
    - repeat constructor.
    - apply split_words. intros c Hc Hs.
      rewrite Forall_forall in H. destruct (H c Hc) as [Hsp | ->].
      + congruence.
      + reflexivity. }
  assert (Hu : upper upper_ext (join (lit " ") (split s))
               = join (lit " ") (split s)).
  { revert Hj. generalize (join (lit " ") (split s)). intros l Hl.
    induction Hl as [|c l Hc _ IH]; [reflexivity|].
    unfold upper in *. simpl. rewrite IH.
    unfold Q, mem in Hc. simpl in Hc. rewrite orb_false_r in Hc.
    apply orb_true_iff in Hc as [Hc | Hc]; apply char_eqb_eq in Hc;
      subst c; reflexivity. }
  rewrite Hu. apply strip_by_all. apply strip_by_Forall. exact Hj.
Qed.

(** C10: the validator never returns [False]: it returns [True] or raises;
    on the empty string and on every string made of whitespace and
    semicolons only, the keyword scan finds nothing and the function raises
    the read-only prefix message. *)
Theorem never_returns_false :
  forall upper_ext : char -> str,
    (forall s : str,
        validate_read_only_query upper_ext s <> Return false
        /\ (validate_read_only_query upper_ext s = Return true
            \/ exists msg, validate_read_only_query upper_ext s = Raise msg))
    /\ (forall s : str,
           Forall (fun c => isspace c = true \/ c = 59%N) s ->
           first_forbidden (clean_query upper_ext s) = None
           /\ validate_read_only_query upper_ext s = Raise prefix_msg).
Proof.
  intros upper_ext. split.
  - intros s.
    destruct (validate_outcomes upper_ext s)
      as [-> | [[k [_ ->]] | [-> | ->]]].
    + split; [discriminate | left; reflexivity].
    + split; [discriminate | right; eexists; reflexivity].
    + split; [discriminate | right; eexists; reflexivity].
    + split; [discriminate | right; eexists; reflexivity].
  - intros s H. pose proof (clean_query_blank upper_ext s H) as Hc.
    assert (Hf : first_forbidden (clean_query upper_ext s) = None)
      by (rewrite Hc; reflexivity).
    split; [exact Hf|].
    rewrite (validate_not_forbidden upper_ext s Hf), Hc. reflexivity.
Qed.

Lemma never_returns_false_witness :
  validate_read_only_query no_ext [] = Raise prefix_msg
  /\ validate_read_only_query no_ext (lit " ;  ; ") = Raise prefix_msg.
Proof.
  split.
  - apply (proj2 (never_returns_false no_ext) []). constructor.
  - apply (proj2 (never_returns_false no_ext) (lit " ;  ; ")).
    repeat constructor; vm_compute; tauto.
Defined.

(* ===================================================================== *)
(** ** [ORDER BY] and [LIMIT] *)
(* ===================================================================== *)

Section OrderBy.

Variable A : Type.
Variable leb : A -> A -> bool.
Hypothesis leb_total : forall a b, leb a b = false -> leb b a = true.
Hypothesis leb_trans :
  forall a b c, leb a b = true -> leb b c = true -> leb a c = true.


Lemma insert_by_perm (x : A) (l : list A) :
  Permutation (insert_by leb x l) (x :: l).
Proof.
  induction l as [|y r IH]; simpl; [reflexivity|].
  destruct (leb x y); [reflexivity|].
  rewrite IH. apply perm_swap.
Qed.

Lemma order_by_perm (l : list A) : Permutation (order_by leb l) l.
Proof.
  induction l as [|x r IH]; simpl; [reflexivity|].
  rewrite insert_by_perm, IH. reflexivity.
Qed.

Lemma insert_by_sorted (x : A) (l : list A) :
  StronglySorted (fun a b => leb a b = true) l -> StronglySorted (fun a b => leb a b = true) (insert_by leb x l).
Proof.
  induction l as [|y r IH]; intros Hs; simpl.
  - repeat constructor.
  - inversion Hs as [|? ? Hr Hy]; subst.
    destruct (leb x y) eqn:Hxy.
    + constructor; [exact Hs|]. constructor; [exact Hxy|].
      rewrite Forall_forall in *. intros z Hz.
      apply (leb_trans x y z Hxy). apply Hy. exact Hz.
    + constructor; [apply IH; exact Hr|].
      rewrite Forall_forall in *. intros z Hz.
      apply (Permutation_in z (insert_by_perm x r)) in Hz.
      destruct Hz as [<- | Hz]; [apply leb_total; exact Hxy | apply Hy, Hz].
Qed.

Lemma order_by_sorted (l : list A) : StronglySorted (fun a b => leb a b = true) (order_by leb l).
Proof.
  induction l as [|x r IH]; simpl; [constructor|].
  apply insert_by_sorted. exact IH.
Qed.

(** An element that every other one precedes goes to the end. *)
Lemma insert_by_last (x : A) (l : list A) :
  Forall (fun y => leb x y = false) l -> insert_by leb x l = l ++ [x].
Proof.
  induction l as [|y r IH]; intros H; simpl; [reflexivity|].
  inversion H; subst. rewrite H2, IH by assumption. reflexivity.
Qed.

End OrderBy.

Lemma in_firstn {A : Type} (n : nat) (l : list A) (a : A) :
  In a (firstn n l) -> In a l.
Proof.
  intros H. rewrite <- (firstn_skipn n l). apply in_or_app. left. exact H.
Qed.

Lemma in_skipn {A : Type} (n : nat) (l : list A) (a : A) :
  In a (skipn n l) -> In a l.
Proof.
  intros H. rewrite <- (firstn_skipn n l). apply in_or_app. right. exact H.
Qed.

Lemma sorted_firstn_skipn {A : Type} (R : A -> A -> Prop) (l : list A)
    (n : nat) :
  StronglySorted R l ->
  forall a b, In a (firstn n l) -> In b (skipn n l) -> R a b.
Proof.
  revert l. induction n as [|n IH]; intros l Hs a b Ha Hb.
  - destruct Ha.
  - destruct l as [|x r]; [destruct Ha|].
    inversion Hs as [|? ? Hr Hx]; subst. simpl in Ha, Hb.
    destruct Ha as [<- | Ha].
    + rewrite Forall_forall in Hx. apply Hx.
      apply (in_skipn n). exact Hb.
    + apply (IH r Hr a b Ha Hb).
Qed.

Lemma sorted_firstn {A : Type} (R : A -> A -> Prop) (l : list A) (n : nat) :
  StronglySorted R l -> StronglySorted R (firstn n l).
Proof.
  revert l. induction n as [|n IH]; intros l Hs; [constructor|].
  destruct l as [|x r]; [constructor|].
  inversion Hs as [|? ? Hr Hx]; subst. simpl. constructor.
  - apply IH. exact Hr.
  - rewrite Forall_forall in *. intros y Hy. apply Hx.
    apply (in_firstn n). exact Hy.
Qed.

Lemma sorted_rev {A : Type} (R : A -> A -> Prop) (l : list A) :
  StronglySorted R l -> StronglySorted (fun a b => R b a) (rev l).
Proof.
  induction 1 as [|x r Hr IH Hx]; simpl; [constructor|].
  clear Hr. revert IH. generalize (rev_involutive r).
  assert (Hx' : Forall (fun y => R x y) (rev r)) by (apply Forall_rev, Hx).
  clear Hx. revert Hx'. generalize (rev r). intros l Hl _ Hs.
  induction Hs as [|y t Ht IHt Hy]; simpl.
  - repeat constructor.
  - inversion Hl; subst. constructor; [apply IHt; assumption|].
    apply Forall_app. split; [exact Hy|]. repeat constructor. assumption.
Qed.

Lemma sorted_filter {A : Type} (R : A -> A -> Prop) (f : A -> bool)
    (l : list A) :
  StronglySorted R l -> StronglySorted R (filter f l).
Proof.
  induction 1 as [|x r Hr IH Hx]; simpl; [constructor|].
  destruct (f x); [|exact IH]. constructor; [exact IH|].
  rewrite Forall_forall in *. intros y Hy. apply Hx.
  apply filter_In in Hy. tauto.
Qed.

Lemma newer_first_total (a b : chat_row) :
  newer_first a b = false -> newer_first b a = true.
Proof. unfold newer_first. rewrite Z.leb_gt, Z.leb_le. lia. Qed.

Lemma newer_first_trans (a b c : chat_row) :
  newer_first a b = true -> newer_first b c = true -> newer_first a c = true.
Proof. unfold newer_first. rewrite !Z.leb_le. lia. Qed.

(** Rows stored with increasing timestamps come back newest first as the
    stored order reversed. *)
Lemma order_by_increasing (l : list chat_row) :
  StronglySorted (fun a b => (timestamp a < timestamp b)%Z) l ->
  order_by newer_first l = rev l.
Proof.
  induction 1 as [|x r Hr IH Hx]; simpl; [reflexivity|].
  rewrite IH. apply insert_by_last. apply Forall_rev.
  rewrite Forall_forall in *. intros y Hy. unfold newer_first.
  apply Z.leb_gt. apply Hx. exact Hy.
Qed.

(* ===================================================================== *)
(** ** The server and [execute_query] *)
(* ===================================================================== *)

Section ServerFacts.

Variable cd : vec -> vec -> Q.
Variable cl : str -> str -> bool.
Variable eng : str -> option (list param) -> tables -> reply * tables.

Lemma server_schema (now : Z) (t : tables) :
  server cd cl eng now schema_sql None t
  = (Rows (map schema_row (select_schema cl t)), t).
Proof. unfold server. rewrite eqb_refl. reflexivity. Qed.

Lemma server_insert (now : Z) (sid r c : str) (t : tables) :
  server cd cl eng now insert_chat_sql (Some [PStr sid; PStr r; PStr c]) t
  = (Count 1,
     {| chat_history :=
          chat_history t
          ++ [ {| session_id := sid; role := r; content := c;
                  timestamp := now |} ];
        documents := documents t;
        columns := columns t;
        application := application t |}).
Proof.
  unfold server.
  replace (Py.eqb insert_chat_sql schema_sql) with false
    by (vm_compute; reflexivity).
  rewrite eqb_refl. reflexivity.
Qed.

Lemma server_history (now : Z) (sid : str) (limit : Z) (t : tables) :
  server cd cl eng now history_sql (Some [PStr sid; PInt limit]) t
  = if (limit <? 0)%Z then (Failure negative_limit, t)
    else (Rows (map history_row (select_history t sid limit)), t).
Proof.
  unfold server.
  replace (Py.eqb history_sql schema_sql) with false
    by (vm_compute; reflexivity).
  replace (Py.eqb history_sql insert_chat_sql) with false
    by (vm_compute; reflexivity).
  rewrite eqb_refl. reflexivity.
Qed.

Lemma server_history_ok (now : Z) (sid : str) (limit : Z) (t : tables) :
  (0 <= limit)%Z ->
  server cd cl eng now history_sql (Some [PStr sid; PInt limit]) t
  = (Rows (map history_row (select_history t sid limit)), t).
Proof.
  intros H. rewrite server_history.
  replace (limit <? 0)%Z with false by (symmetry; apply Z.ltb_ge; exact H).
  reflexivity.
Qed.

Lemma server_search (now : Z) (q1 q2 : vec) (top_k : Z) (t : tables) :
  server cd cl eng now search_sql (Some [PVec q1; PVec q2; PInt top_k]) t
  = if (top_k <? 0)%Z then (Failure negative_limit, t)
    else (Rows (map (search_row cd q1) (select_documents cd t q2 top_k)), t).
Proof.
  unfold server.
  replace (Py.eqb search_sql schema_sql) with false
    by (vm_compute; reflexivity).
  replace (Py.eqb search_sql insert_chat_sql) with false
    by (vm_compute; reflexivity).
  replace (Py.eqb search_sql history_sql) with false
    by (vm_compute; reflexivity).
  rewrite eqb_refl. reflexivity.
Qed.

End ServerFacts.

Section ExecuteQuery.

Variable E : env.

Lemma execute_query_rows (q : str) (p : option (list param)) (w : world)
    (rs : list row) (t : tables) :
  fault E (statements w) = None ->
  server (cosine_distance E) (collate_leb E) (engine E)
    (clock E (statements w)) q p (working (conn w)) = (Rows rs, t) ->
  execute_query E q p w
  = (Ok rs,
     after_statement w q p
       {| committed := committed (conn w); working := t |} []).
Proof.
  intros Hf Hs. unfold execute_query, try_except, bind, cursor_execute.
  rewrite Hf, Hs. reflexivity.
Qed.

Lemma execute_query_count (q : str) (p : option (list param)) (w : world)
    (k : Z) (t : tables) :
  fault E (statements w) = None ->
  server (cosine_distance E) (collate_leb E) (engine E)
    (clock E (statements w)) q p (working (conn w)) = (Count k, t) ->
  execute_query E q p w
  = (Ok [ [ (lit "affected_rows", VInt k) ] ],
     after_statement w q p {| committed := t; working := t |} [Committed]).
Proof.
  intros Hf Hs. unfold execute_query, try_except, bind, cursor_execute.
  rewrite Hf, Hs. unfold after_statement. simpl.
  rewrite <- app_assoc. reflexivity.
Qed.

Lemma execute_query_fault (q : str) (p : option (list param)) (w : world)
    (msg : str) :
  fault E (statements w) = Some msg ->
  execute_query E q p w
  = (Err (Exception (lit "Query execution failed: " ++ msg)),
     after_statement w q p
       {| committed := committed (conn w); working := committed (conn w) |}
       [RolledBack]).
Proof.
  intros Hf. unfold execute_query, try_except, bind, cursor_execute.
  rewrite Hf. unfold after_statement. simpl.
  rewrite <- app_assoc. reflexivity.
Qed.

Lemma execute_query_failure (q : str) (p : option (list param)) (w : world)
    (msg : str) (t : tables) :
  fault E (statements w) = None ->
  server (cosine_distance E) (collate_leb E) (engine E)
    (clock E (statements w)) q p (working (conn w)) = (Failure msg, t) ->
  execute_query E q p w
  = (Err (Exception (lit "Query execution failed: " ++ msg)),
     after_statement w q p
       {| committed := committed (conn w); working := committed (conn w) |}
       [RolledBack]).
Proof.
  intros Hf Hs. unfold execute_query, try_except, bind, cursor_execute.
  rewrite Hf, Hs. unfold after_statement. simpl.
  rewrite <- app_assoc. reflexivity.
Qed.

End ExecuteQuery.

(* ===================================================================== *)
(** ** Reading the history *)
(* ===================================================================== *)

Lemma conn_eta (c : connection) :
  {| committed := committed c; working := working c |} = c.
Proof. destruct c. reflexivity. Qed.

Lemma get_chat_history_negative (E : env) (w : world) (limit : Z) :
  (limit < 0)%Z ->
  fault E (statements w) = None ->
  get_chat_history E limit w
  = (Err (Exception (lit "Query execution failed: " ++ negative_limit)),
     after_statement w history_sql
       (Some [PStr (SESSION_ID E); PInt limit])
       {| committed := committed (conn w); working := committed (conn w) |}
       [RolledBack]).
Proof.
  intros Hl Hf. unfold get_chat_history, bind.
  erewrite execute_query_failure; [reflexivity | exact Hf |].
  rewrite server_history.
  replace (limit <? 0)%Z with true by (symmetry; apply Z.ltb_lt; exact Hl).
  reflexivity.
Qed.

(** C9, as stated, fails: it speaks of every limit, and for the limit
    [-1] the statement is refused by the server, so that the history-read
    returns nothing and raises. *)
Lemma history_limit_counterexample :
  ~ (forall (E : env) (w : world) (limit : Z),
        fault E (statements w) = None ->
        exists fetched : list chat_row,
          fst (get_chat_history E limit w)
          = Ok (map history_row (rev fetched))
          /\ StronglySorted (fun a b => (timestamp a <= timestamp b)%Z)
               (rev fetched)).
Proof.
  intros H.
  destruct (H (demo_env [] [] []) demo_world (-1)%Z eq_refl)
    as [fetched [Hget _]].
  rewrite (get_chat_history_negative (demo_env [] [] []) demo_world (-1)%Z
             ltac:(lia) eq_refl) in Hget.
  discriminate Hget.
Qed.

(** C9 (amended): for every session token and every limit that is a row
    count the server accepts (from 0 to 2^63 - 1), when the statement
    succeeds, [get_chat_history] fetches the newest [limit] messages of
    the session, newest first, and returns them reversed: oldest first,
    every message left out being no newer than any returned.  When the
    stored timestamps increase with insertion, the result is the last
    [limit] messages of the session in stored order.  For a negative
    limit the server refuses the statement: [get_chat_history] returns
    nothing and raises the error of [execute_query], after a rollback. *)
Theorem history_is_chronological :
  forall (E : env) (w : world) (limit : Z),
    (limit < 2 ^ 63)%Z ->
    fault E (statements w) = None ->
    ((0 <= limit)%Z ->
     exists fetched older : list chat_row,
      cursor_execute E history_sql
        (Some [PStr (SESSION_ID E); PInt limit]) w
      = (Ok (inl (map history_row fetched)),
         after_statement w history_sql
           (Some [PStr (SESSION_ID E); PInt limit]) (conn w) [])
      /\ get_chat_history E limit w
         = (Ok (map history_row (rev fetched)),
            after_statement w history_sql
              (Some [PStr (SESSION_ID E); PInt limit]) (conn w) [])
      /\ StronglySorted (fun a b => (timestamp b <= timestamp a)%Z) fetched
      /\ StronglySorted (fun a b => (timestamp a <= timestamp b)%Z)
           (rev fetched)
      /\ List.length fetched
         = Nat.min (Z.to_nat limit)
             (List.length (session_messages E (working (conn w))))
      /\ Permutation (older ++ rev fetched)
           (session_messages E (working (conn w)))
      /\ (forall o m, In o older -> In m fetched ->
                      (timestamp o <= timestamp m)%Z)
      /\ (StronglySorted (fun a b => (timestamp a < timestamp b)%Z)
            (chat_history (working (conn w))) ->
          rev fetched
          = skipn (List.length (session_messages E (working (conn w)))
                   - Z.to_nat limit)
              (session_messages E (working (conn w)))))
    /\ ((limit < 0)%Z ->
        get_chat_history E limit w
        = (Err (Exception (lit "Query execution failed: "
                           ++ negative_limit)),
           after_statement w history_sql
             (Some [PStr (SESSION_ID E); PInt limit])
             {| committed := committed (conn w);
                working := committed (conn w) |}
             [RolledBack])).
Proof.
  intros E w limit Hbig Hf.
  split; [|intros Hneg; apply get_chat_history_negative; assumption].
  intros Hl.
  set (msgs := session_messages E (working (conn w))).
  set (sorted := order_by newer_first msgs).
  set (n := Z.to_nat limit).
  assert (Hsorted : StronglySorted
                      (fun a b => (timestamp b <= timestamp a)%Z) sorted).
  { pose proof (order_by_sorted chat_row newer_first newer_first_total
                  newer_first_trans msgs) as H.
    fold sorted in H. clear - H.
    induction H as [|x r Hr IH Hx]; constructor; [exact IH|].
    rewrite Forall_forall in *. intros y Hy. specialize (Hx y Hy).
    unfold newer_first in Hx. apply Z.leb_le. exact Hx. }
  assert (Hsrv :
    server (cosine_distance E) (collate_leb E) (engine E)
      (clock E (statements w)) history_sql
      (Some [PStr (SESSION_ID E); PInt limit]) (working (conn w))
    = (Rows (map history_row (firstn n sorted)), working (conn w))).
  { rewrite server_history.
    replace (limit <? 0)%Z with false by (symmetry; apply Z.ltb_ge; exact Hl).
    reflexivity. }
  exists (firstn n sorted), (skipn n sorted).
  repeat split.
  - unfold cursor_execute. rewrite Hf, Hsrv, conn_eta. reflexivity.
  - unfold get_chat_history, bind.
    rewrite (execute_query_rows E _ _ w _ _ Hf Hsrv), conn_eta.
    unfold ret. rewrite map_rev. reflexivity.
  - apply sorted_firstn. exact Hsorted.
  - apply (sorted_rev (fun a b => (timestamp b <= timestamp a)%Z)).
    apply sorted_firstn. exact Hsorted.
  - rewrite length_firstn. unfold sorted.
    rewrite (Permutation_length (order_by_perm chat_row newer_first msgs)).
    reflexivity.
  - rewrite <- (order_by_perm chat_row newer_first msgs). fold sorted.
    rewrite <- (firstn_skipn n sorted) at 3.
    rewrite Permutation_app_comm. apply Permutation_app_tail.
    symmetry. apply Permutation_rev.
  - intros o m Ho Hm.
    apply (sorted_firstn_skipn
             (fun a b => (timestamp b <= timestamp a)%Z) sorted n Hsorted
             m o Hm Ho).
  - intros Hst.
    assert (Hm : StronglySorted
                   (fun a b => (timestamp a < timestamp b)%Z) msgs).
    { unfold msgs, session_messages. apply sorted_filter. exact Hst. }
    unfold sorted. rewrite (order_by_increasing msgs Hm).
    rewrite firstn_rev, rev_involutive. reflexivity.
Qed.

(* ===================================================================== *)
(** ** Retrieval without embedded documents *)
(* ===================================================================== *)

Lemma filter_has_embedding_none (docs : list document) :
  (forall d, In d docs -> doc_embedding d = None) ->
  filter has_embedding docs = [].
Proof.
  induction docs as [|d r IH]; intros H; simpl; [reflexivity|].
  unfold has_embedding at 1. rewrite (H d (or_introl eq_refl)).
  apply IH. intros x Hx. apply H. right. exact Hx.
Qed.

Lemma filter_app_single {A : Type} (f : A -> bool) (l : list A) (x : A) :
  f x = false -> filter f (l ++ [x]) = filter f l.
Proof.
  intros H. rewrite filter_app. simpl. rewrite H. apply app_nil_r.
Qed.

Lemma search_documents_empty (E : env) (w : world) (question : str)
    (top_k : Z) :
  (forall d, In d (documents (working (conn w))) ->
             doc_embedding d = None) ->
  fault E (statements w) = None ->
  (0 <= top_k)%Z ->
  exists w' : world,
    search_documents E question top_k w = (Ok [], w')
    /\ conn w' = conn w
    /\ completions w' = completions w
    /\ filter is_chatted (out w') = filter is_chatted (out w).
Proof.
  intros Hd Hf Hk.
  assert (Hsrv : forall now q1 q2,
    server (cosine_distance E) (collate_leb E) (engine E) now search_sql
      (Some [PVec q1; PVec q2; PInt top_k]) (working (conn w))
    = (Rows [], working (conn w))).
  { intros now q1 q2. rewrite server_search.
    replace (top_k <? 0)%Z with false by (symmetry; apply Z.ltb_ge; exact Hk).
    unfold select_documents.
    rewrite (filter_has_embedding_none _ Hd). simpl.
    rewrite firstn_nil. reflexivity. }
  unfold search_documents, bind, init_embedding_model.
  destruct (embedding_model w) eqn:Hm.
  - unfold emit. cbv beta iota.
    erewrite execute_query_rows; [| exact Hf | apply Hsrv].
    eexists. split; [reflexivity|]. cbn [conn completions out after_statement].
    rewrite conn_eta. repeat split.
    rewrite !filter_app. simpl. rewrite ?app_nil_r. reflexivity.
  - unfold console_print, emit, bind. cbv beta iota.
    erewrite execute_query_rows; [| exact Hf | apply Hsrv].
    eexists. split; [reflexivity|]. cbn [conn completions out after_statement].
    rewrite conn_eta. repeat split.
    rewrite !filter_app. simpl. rewrite ?app_nil_r. reflexivity.
Qed.

(** C7: when no stored document has an embedding, the search returns no
    row, and [answer_with_rag] returns the fixed sentence without a call
    to the language model. *)
Theorem no_embeddings_no_llm_call :
  forall (E : env) (w : world) (question : str),
    (forall d, In d (documents (working (conn w))) ->
               doc_embedding d = None) ->
    fault E (statements w) = None ->
    (forall top_k, (0 <= top_k)%Z ->
                   fst (search_documents E question top_k w) = Ok [])
    /\ exists w' : world,
        answer_with_rag E question w = (Ok no_information, w')
        /\ conn w' = conn w
        /\ completions w' = completions w
        /\ filter is_chatted (out w') = filter is_chatted (out w).
Proof.
  intros E w question Hd Hf. split.
  - intros top_k Hk.
    destruct (search_documents_empty E w question top_k Hd Hf Hk)
      as [w' [H _]].
    rewrite H. reflexivity.
  - destruct (search_documents_empty E w question 3 Hd Hf ltac:(lia))
      as [w' [H [Hc [Hn Ho]]]].
    exists w'. unfold answer_with_rag, bind. rewrite H.
    repeat split; assumption.
Qed.

(* ===================================================================== *)
(** ** SQL mode *)
(* ===================================================================== *)

Lemma quiet_ret {A : Type} (a : A) : quiet (ret a).
Proof. intros w. reflexivity. Qed.

Lemma quiet_raise {A : Type} (e : exn) : quiet (@raise A e).
Proof. intros w. reflexivity. Qed.

Lemma quiet_bind {A B : Type} (m : M A) (k : A -> M B) :
  quiet m -> (forall a, quiet (k a)) -> quiet (bind m k).
Proof.
  intros Hm Hk w. unfold bind. specialize (Hm w).
  destruct (m w) as [[a|e] w']; simpl in Hm; subst w'.
  - apply Hk.
  - reflexivity.
Qed.

Lemma quiet_getitem (r : row) (key : str) : quiet (getitem r key).
Proof.
  unfold getitem. destruct (lookup r key); [apply quiet_ret|apply quiet_raise].
Qed.

Lemma quiet_foldM {A S : Type} (f : S -> A -> M S) (l : list A) :
  (forall s a, quiet (f s a)) -> forall s, quiet (foldM f s l).
Proof.
  intros Hf. induction l as [|x r IH]; intros s; simpl.
  - apply quiet_ret.
  - apply quiet_bind; [apply Hf | intros s'; apply IH].
Qed.

Lemma quiet_schema_line (E : env) (acc : str * value) (r : row) :
  quiet (schema_line E acc r).
Proof.
  unfold schema_line. destruct acc as [schema_text current_table].
  apply quiet_bind; [apply quiet_getitem|]. intros t.
  apply quiet_bind.
  - destruct (negb _); [|apply quiet_ret].
    apply quiet_bind; [apply quiet_getitem|]. intros t'. apply quiet_ret.
  - intros [schema_text' current_table'].
    apply quiet_bind; [apply quiet_getitem|]. intros c.
    apply quiet_bind; [apply quiet_getitem|]. intros d.
    apply quiet_bind; [apply quiet_getitem|]. intros n.
    apply quiet_ret.
Qed.

Lemma get_schema_info_ok (E : env) (schema : str) (w w1 : world) :
  get_schema_info E w = (Ok schema, w1) ->
  w1 = after_statement w schema_sql None (conn w) [].
Proof.
  unfold get_schema_info, bind.
  destruct (fault E (statements w)) as [msg|] eqn:Hf.
  - rewrite (execute_query_fault E _ _ w msg Hf). intros H. discriminate H.
  - rewrite (execute_query_rows E schema_sql None w _ _ Hf
               (server_schema _ _ _ _ _)).
    rewrite conn_eta.
    set (w' := after_statement w schema_sql None (conn w) []).
    pose proof (quiet_foldM (schema_line E)
                  (map schema_row
                     (select_schema (collate_leb E) (working (conn w))))
                  (quiet_schema_line E)
                  (lit "Database Schema:

", VNone) w') as Hq.
    destruct (foldM _ _ _ w') as [[acc|e] w''] eqn:Hfold; simpl in Hq;
      subst w''; intros H; [|discriminate H].
    unfold ret in H. injection H as _ <-. reflexivity.
Qed.

(** A generation that succeeds has sent one statement, the catalog
    [SELECT], and one chat request; the connection is as before. *)
Lemma generate_sql_query_ok (E : env) (user_input sql : str) (w w1 : world) :
  generate_sql_query E user_input w = (Ok sql, w1) ->
  exists messages,
    w1 = {| conn := conn w; statements := S (statements w);
            completions := S (completions w); prompts := prompts w;
            embedding_model := embedding_model w;
            out := out w ++ [Executed schema_sql None;
                             Chatted messages (1 # 5) 500] |}.
Proof.
  unfold generate_sql_query. unfold bind at 1.
  destruct (get_schema_info E w) as [[schema|e] w'] eqn:Hs;
    [|intros H; discriminate H].
  apply get_schema_info_ok in Hs. subst w'.
  unfold bind, chat. cbn [completions after_statement].
  destruct (llm E _ _) as [text|msg]; intros H; [|discriminate H].
  unfold ret in H. injection H as _ <-.
  eexists. cbn. rewrite <- app_assoc. reflexivity.
Qed.

(** C6: when the answer to the confirmation prompt, lowercased, is not
    [y], the generated query is not sent to the server: no statement
    follows the generation, the connection (committed and uncommitted
    tables alike) is as it was before the request, and the method ends
    normally on the message that the query was cancelled. *)
Theorem decline_leaves_database_untouched :
  forall (E : env) (w w1 : world) (user_input sql answer : str),
    generate_sql_query E user_input
      (snd (console_print (Text (lit "
[cyan]Generating SQL query...[/cyan]")) w)) = (Ok sql, w1) ->
    keyboard E (prompts w1) = Line answer ->
    lower (lower_ext E) answer <> lit "y" ->
    exists w' : world,
      handle_sql_mode E user_input w = (Ok tt, w')
      /\ conn w' = conn w
      /\ statements w' = statements w1
      /\ out w'
         = out w1
           ++ [ Printed (Text (lit "
[yellow]Generated Query:[/yellow]"));
                Printed (Panel sql (lit "dim"));
                Prompted (lit "
Execute this query? (y/n): ");
                Printed (Text (lit "[dim]Query cancelled[/dim]")) ]
      /\ filter is_executed (out w')
         = filter is_executed (out w) ++ [Executed schema_sql None].
Proof.
  intros E w w1 user_input sql answer Hgen Hkey Hne.
  destruct (generate_sql_query_ok E user_input sql _ w1 Hgen)
    as [messages Hw1].
  unfold console_print, emit in Hgen. cbn [snd] in Hgen.
  unfold handle_sql_mode.
  unfold bind at 1. unfold console_print at 1. unfold emit at 1.
  unfold try_except. unfold bind at 1. rewrite Hgen.
  unfold bind, console_print, emit, prompt. cbn [prompts].
  rewrite Hkey.
  assert (Hq : Py.eqb (lower (lower_ext E) answer) (lit "y") = false).
  { apply not_true_iff_false. rewrite eqb_eq. exact Hne. }
  rewrite Hq. eexists. split; [reflexivity|].
  cbn [conn statements out]. repeat split.
  - rewrite Hw1. reflexivity.
  - rewrite <- !app_assoc. reflexivity.
  - rewrite Hw1. cbn [out snd console_print emit].
    rewrite !filter_app. cbn. rewrite ?app_nil_r. reflexivity.
Qed.

(* ===================================================================== *)
(** ** A history append that fails *)
(* ===================================================================== *)

Lemma save_chat_message_fault (E : env) (r c msg : str) (w : world) :
  fault E (statements w) = Some msg ->
  save_chat_message E r c w
  = (Err (Exception (lit "Query execution failed: " ++ msg)),
     after_statement w insert_chat_sql
       (Some [PStr (SESSION_ID E); PStr r; PStr c])
       {| committed := committed (conn w); working := committed (conn w) |}
       [RolledBack]).
Proof.
  intros Hf. unfold save_chat_message, bind.
  rewrite (execute_query_fault E _ _ w msg Hf). reflexivity.
Qed.

(** The world after a pass of the loop in which the append of the user's
    message failed. *)
Lemma run_once_append_fault (E : env) (w : world) (line text msg : str) :
  keyboard E (prompts w) = Line line ->
  saved_text E (strip line) = Some text ->
  fault E (statements w) = Some msg ->
  run_once E w
  = (Ok Continue,
     {| conn := {| committed := committed (conn w);
                   working := committed (conn w) |};
        statements := S (statements w);
        completions := completions w;
        prompts := S (prompts w);
        embedding_model := embedding_model w;
        out := out w
               ++ [ Prompted (lit "You: ");
                    Executed insert_chat_sql
                      (Some [PStr (SESSION_ID E); PStr (lit "user");
                             PStr text]);
                    RolledBack;
                    Printed
                      (Text
                         (error_text
                            (Exception
                               (lit "Query execution failed: " ++ msg))
                          ++ [newline])) ] |}).
Proof.
  intros Hkey Hsaved Hf.
  unfold run_once, run_try. unfold bind at 1. unfold prompt at 1.
  rewrite Hkey.
  set (wp := {| conn := conn w; statements := statements w;
                completions := completions w; prompts := S (prompts w);
                embedding_model := embedding_model w;
                out := out w ++ [Prompted (lit "You: ")] |}).
  assert (Hfp : fault E (statements wp) = Some msg) by exact Hf.
  assert (Hend : forall r c,
    c = text ->
    save_chat_message E r c wp
    = (Err (Exception (lit "Query execution failed: " ++ msg)),
       after_statement wp insert_chat_sql
         (Some [PStr (SESSION_ID E); PStr r; PStr text])
         {| committed := committed (conn w); working := committed (conn w) |}
         [RolledBack])).
  { intros r c ->. apply (save_chat_message_fault E r text msg wp Hfp). }
  unfold saved_text in Hsaved.
  destruct (strip line) as [|ch rest] eqn:Hstrip; [discriminate Hsaved|].
  destruct (startswith (ch :: rest) (lit "/")) eqn:Hslash.
  - unfold run_command.
    set (command := lower (lower_ext E) (nth 0 (split1 (ch :: rest)) []))
      in *.
    set (content := nth 1 (split1 (ch :: rest)) []) in *.
    destruct (Py.eqb command (lit "/quit") || Py.eqb command (lit "/exit"));
      [discriminate Hsaved|].
    destruct (Py.eqb command (lit "/help")); [discriminate Hsaved|].
    destruct (Py.eqb command (lit "/sql")).
    + simpl orb in Hsaved. cbv iota in Hsaved.
      destruct content as [|c0 content']; [discriminate Hsaved|].
      injection Hsaved as <-.
      unfold bind. rewrite (Hend (lit "user") (ch :: rest) eq_refl).
      unfold console_print, emit, ret, after_statement. cbn.
      rewrite <- !app_assoc. reflexivity.
    + simpl orb in Hsaved.
      destruct (Py.eqb command (lit "/ask")).
      * destruct content as [|c0 content']; [discriminate Hsaved|].
        injection Hsaved as <-.
        unfold bind. rewrite (Hend (lit "user") (ch :: rest) eq_refl).
        unfold console_print, emit, ret, after_statement. cbn.
        rewrite <- !app_assoc. reflexivity.
      * destruct (Py.eqb command (lit "/chat")); [|discriminate Hsaved].
        destruct content as [|c0 content']; [discriminate Hsaved|].
        injection Hsaved as <-.
        unfold bind. rewrite (Hend (lit "user") (c0 :: content') eq_refl).
        unfold console_print, emit, ret, after_statement. cbn.
        rewrite <- !app_assoc. reflexivity.
  - injection Hsaved as <-.
    unfold run_auto, bind. rewrite (Hend (lit "user") (ch :: rest) eq_refl).
    unfold console_print, emit, ret, after_statement. cbn.
    rewrite <- !app_assoc. reflexivity.
Qed.

Lemma mapM_history_message (l : list chat_row) (w : world) :
  mapM history_message (map history_row l) w
  = (Ok (map (fun m => message (VText (role m)) (VText (content m))) l), w).
Proof.
  induction l as [|m r IH]; [reflexivity|].
  cbn [map mapM]. unfold bind at 1.
  replace (history_message (history_row m) w)
    with (Ok (message (VText (role m)) (VText (content m))), w)
    by reflexivity.
  unfold bind. rewrite IH. reflexivity.
Qed.

(** The world after [handle_chat_mode] when the append of the reply is
    the one statement that fails. *)
Lemma handle_chat_mode_append_fault (E : env) (w : world)
    (user_input response msg : str) :
  fault E (statements w) = None ->
  (forall messages, llm E (completions w) messages = Completion response) ->
  fault E (S (statements w)) = Some msg ->
  exists messages : list row,
    handle_chat_mode E user_input w
    = (Ok tt,
       {| conn := {| committed := committed (conn w);
                     working := committed (conn w) |};
          statements := S (S (statements w));
          completions := S (completions w);
          prompts := prompts w;
          embedding_model := embedding_model w;
          out := out w
                 ++ [ Executed history_sql
                        (Some [PStr (SESSION_ID E); PInt 10]);
                      Printed (Text (lit "
[cyan]Thinking...[/cyan]"));
                      Chatted messages (4 # 5) 800;
                      Printed (Text (lit "
[green]Assistant:[/green]"));
                      Printed (Markdown response);
                      Executed insert_chat_sql
                        (Some [PStr (SESSION_ID E); PStr (lit "assistant");
                               PStr response]);
                      RolledBack;
                      Printed
                        (Text
                           (error_text
                              (Exception
                                 (lit "Query execution failed: " ++ msg))))
                    ] |}).
Proof.
  intros Hf Hllm Hf2.
  unfold handle_chat_mode. unfold bind at 1. unfold get_chat_history.
  unfold bind at 1.
  rewrite (execute_query_rows E _ _ w _ _ Hf
             (server_history_ok _ _ _ _ _ 10%Z _ ltac:(lia))).
  rewrite conn_eta. unfold ret at 1.
  rewrite <- map_rev. unfold bind at 1. rewrite mapM_history_message.
  eexists.
  unfold try_except, bind, console_print, emit, chat.
  cbn [completions after_statement]. rewrite Hllm.
  cbn [conn statements completions prompts embedding_model out].
  erewrite save_chat_message_fault; [| exact Hf2].
  unfold after_statement. cbn. rewrite <- !app_assoc. reflexivity.
Qed.

(** C5, as stated, fails: the user sends [/chat hello], the model would
    answer, the [INSERT] of the user's message is the only statement that
    fails, and no answer is printed. *)
Lemma append_failure_counterexample :
  ~ (forall (E : env) (w : world) (msg response : str),
        keyboard E (prompts w) = Line (lit "/chat hello") ->
        fault E (statements w) = Some msg ->
        (forall n, n <> statements w -> fault E n = None) ->
        (forall messages,
            llm E (completions w) messages = Completion response) ->
        In (Printed (Markdown response)) (out (snd (run_once E w)))).
Proof.
  intros H.
  specialize (H (demo_env [Line (lit "/chat hello")]
                   [Completion (lit "Hi there!")]
                   [Some (lit "connection lost")])
                demo_world (lit "connection lost") (lit "Hi there!")
                eq_refl eq_refl).
  assert (Hn : forall n, n <> statements demo_world ->
                         fault (demo_env [Line (lit "/chat hello")]
                                  [Completion (lit "Hi there!")]
                                  [Some (lit "connection lost")]) n = None).
  { intros [|[|n]] Hn; [exfalso; apply Hn; reflexivity | | ]; reflexivity. }
  specialize (H Hn (fun _ => eq_refl)).
  vm_compute in H.
  repeat (destruct H as [H|H]; [discriminate H|]). exact H.
Qed.

(** C5 (amended): a failed append of a chat message does not end the
    loop.  When the append of the user's message fails, the error is
    printed and the pass ends there: no request goes to the model and no
    answer is printed.  When, in chat mode, the append of the model's reply
    is the statement that fails, the reply has been printed already and
    the error is printed after it. *)
Theorem failed_append_is_reported :
  forall E : env,
    (forall (w : world) (line text msg : str),
        keyboard E (prompts w) = Line line ->
        saved_text E (strip line) = Some text ->
        fault E (statements w) = Some msg ->
        run_once E w
        = (Ok Continue,
           {| conn := {| committed := committed (conn w);
                         working := committed (conn w) |};
              statements := S (statements w);
              completions := completions w;
              prompts := S (prompts w);
              embedding_model := embedding_model w;
              out := out w
                     ++ [ Prompted (lit "You: ");
                          Executed insert_chat_sql
                            (Some [PStr (SESSION_ID E); PStr (lit "user");
                                   PStr text]);
                          RolledBack;
                          Printed
                            (Text
                               (error_text
                                  (Exception
                                     (lit "Query execution failed: " ++ msg))
                                ++ [newline])) ] |}))
    /\ (forall (w : world) (user_input response msg : str),
           fault E (statements w) = None ->
           (forall messages,
               llm E (completions w) messages = Completion response) ->
           fault E (S (statements w)) = Some msg ->
           exists (messages : list row) (w' : world),
             handle_chat_mode E user_input w = (Ok tt, w')
             /\ out w'
                = out w
                  ++ [ Executed history_sql
                         (Some [PStr (SESSION_ID E); PInt 10]);
                       Printed (Text (lit "
[cyan]Thinking...[/cyan]"));
                       Chatted messages (4 # 5) 800;
                       Printed (Text (lit "
[green]Assistant:[/green]"));
                       Printed (Markdown response);
                       Executed insert_chat_sql
                         (Some [PStr (SESSION_ID E); PStr (lit "assistant");
                                PStr response]);
                       RolledBack;
                       Printed
                         (Text
                            (error_text
                               (Exception
                                  (lit "Query execution failed: " ++ msg))))
                     ]).
Proof.
  intros E. split.
  - intros w line text msg. apply run_once_append_fault.
  - intros w user_input response msg Hf Hllm Hf2.
    destruct (handle_chat_mode_append_fault E w user_input response msg
                Hf Hllm Hf2) as [messages H].
    exists messages. eexists. split; [exact H | reflexivity].
Qed.

Lemma failed_append_is_reported_witness :
  fst (run_once
         (demo_env [Line (lit "/ask What is your return policy?")] []
            [Some (lit "connection lost")])
         demo_world) = Ok Continue
  /\ exists (messages : list row) (w' : world),
      handle_chat_mode
        (demo_env [] [Completion (lit "Hi there!")]
           [None; Some (lit "connection lost")])
        (lit "hello") demo_world = (Ok tt, w')
      /\ In (Printed (Markdown (lit "Hi there!"))) (out w')
      /\ In (Chatted messages (4 # 5) 800) (out w').
Proof.
  split.
  - rewrite (proj1 (failed_append_is_reported
                      (demo_env
                         [Line (lit "/ask What is your return policy?")] []
                         [Some (lit "connection lost")]))
               demo_world (lit "/ask What is your return policy?")
               (lit "/ask What is your return policy?")
               (lit "connection lost") eq_refl eq_refl eq_refl).
    reflexivity.
  - destruct (proj2 (failed_append_is_reported
                       (demo_env [] [Completion (lit "Hi there!")]
                          [None; Some (lit "connection lost")]))
                demo_world (lit "hello") (lit "Hi there!")
                (lit "connection lost") eq_refl (fun _ => eq_refl) eq_refl)
      as [messages [w' [H1 H2]]].
    exists messages, w'. split; [exact H1|]. rewrite H2.
    simpl. tauto.
Defined.

(* ===================================================================== *)
(** ** What reaches the server in SQL mode *)
(* ===================================================================== *)

(** After a confirmation, the statement that goes to the server is the
    generated text: nothing stands between the prompt and
    [execute_query], and the validator is not consulted. *)
Lemma confirmed_sql_is_executed (E : env) (w w1 : world)
    (user_input sql answer : str) :
  generate_sql_query E user_input
    (snd (console_print (Text (lit "
[cyan]Generating SQL query...[/cyan]")) w)) = (Ok sql, w1) ->
  keyboard E (prompts w1) = Line answer ->
  lower (lower_ext E) answer = lit "y" ->
  exists (w' : world) (rest : list event),
    handle_sql_mode E user_input w = (Ok tt, w')
    /\ out w'
       = out w1
         ++ [ Printed (Text (lit "
[yellow]Generated Query:[/yellow]"));
              Printed (Panel sql (lit "dim"));
              Prompted (lit "
Execute this query? (y/n): ");
              Executed sql None ] ++ rest.
Proof.
  intros Hgen Hkey Hy.
  unfold console_print, emit in Hgen. cbn [snd] in Hgen.
  unfold handle_sql_mode.
  unfold bind at 1. unfold console_print at 1. unfold emit at 1.
  unfold try_except. unfold bind at 1. rewrite Hgen.
  unfold bind at 1. unfold console_print at 1. unfold emit at 1.
  unfold bind at 1. unfold console_print at 1. unfold emit at 1.
  unfold bind at 1. unfold prompt. cbn [prompts]. rewrite Hkey.
  rewrite Hy, eqb_refl.
  unfold bind at 1.
  match goal with
  | |- context [execute_query E sql None ?w0] => set (wq := w0)
  end.
  assert (Hout : out wq
                 = out w1
                   ++ [ Printed (Text (lit "
[yellow]Generated Query:[/yellow]"));
                        Printed (Panel sql (lit "dim"));
                        Prompted (lit "
Execute this query? (y/n): ") ]).
  { unfold wq. cbn [out]. rewrite <- !app_assoc. reflexivity. }
  assert (Hex : exists r w2 rest,
             execute_query E sql None wq = (r, w2)
             /\ out w2 = out wq ++ Executed sql None :: rest).
  { unfold execute_query, try_except, bind, cursor_execute.
    destruct (fault E (statements wq)).
    - do 3 eexists. split; [reflexivity|]. cbn. rewrite <- !app_assoc.
      reflexivity.
    - destruct (server _ _ _ _ _ _ _) as [[rows|k|msg] t].
      + do 3 eexists. split; [reflexivity|]. cbn. reflexivity.
      + do 3 eexists. split; [reflexivity|]. cbn. rewrite <- !app_assoc.
        reflexivity.
      + do 3 eexists. split; [reflexivity|]. cbn. rewrite <- !app_assoc.
        reflexivity. }
  destruct Hex as [r [w2 [rest [Hrun Hw2]]]]. rewrite Hrun.
  destruct r as [results|e].
  - unfold show_results.
    destruct results as [|first others].
    + eexists. eexists. split; [reflexivity|]. cbn [out].
      rewrite Hw2, Hout, <- !app_assoc. reflexivity.
    + unfold bind, console_print, emit.
      destruct (50 <? _)%nat.
      * eexists. eexists. split; [reflexivity|]. cbn [out].
        rewrite Hw2, Hout, <- !app_assoc. reflexivity.
      * eexists. eexists. split; [reflexivity|]. cbn [out].
        rewrite Hw2, Hout, <- !app_assoc. reflexivity.
  - assert (He : is_Exception e = true).
    { revert Hrun. unfold execute_query, try_except, bind, cursor_execute.
      destruct (fault E (statements wq)).
      - cbn. intros H. injection H as <- _. reflexivity.
      - destruct (server _ _ _ _ _ _ _) as [[rows|k|msg] t]; cbn;
          intros H; try discriminate H.
        injection H as <- _. reflexivity. }
    rewrite He. unfold console_print, emit.
    eexists. eexists. split; [reflexivity|]. cbn [out].
    rewrite Hw2, Hout, <- !app_assoc. reflexivity.
Qed.

(** C1 on the code: the model writes [DROP TABLE users], the user
    confirms, and the statement is executed and committed, although the
    validator rejects that very string. *)
Theorem generated_sql_runs_unvalidated :
  validate_read_only_query no_ext (lit "DROP TABLE users")
  = Raise (forbidden_msg (lit "DROP"))
  /\ filter is_executed
       (out (snd (handle_sql_mode
                    (demo_env [Line (lit "y")]
                       [Completion (lit "DROP TABLE users")] [])
                    (lit "remove every user") demo_world)))
     = [ Executed schema_sql None; Executed (lit "DROP TABLE users") None ]
  /\ map fst (application (committed (conn demo_world))) = [lit "users"]
  /\ application
       (committed
          (conn (snd (handle_sql_mode
                        (demo_env [Line (lit "y")]
                           [Completion (lit "DROP TABLE users")] [])
                        (lit "remove every user") demo_world)))) = [].
Proof. vm_compute. repeat split; reflexivity. Qed.

(* ===================================================================== *)
(** ** The statements above on the small database *)
(* ===================================================================== *)

Lemma history_is_chronological_witness :
  (2 < 2 ^ 63)%Z
  /\ fault (demo_env [] [] []) (statements demo_world) = None
  /\ exists fetched : list chat_row,
      fst (get_chat_history (demo_env [] [] []) 2 demo_world)
      = Ok (map history_row (rev fetched))
      /\ map content (rev fetched) = [lit "hello"; lit "how are you"].
Proof.
  split; [lia|]. split; [reflexivity|].
  destruct (history_is_chronological (demo_env [] [] []) demo_world 2
              ltac:(lia) eq_refl) as [Hrows _].
  destruct (Hrows ltac:(lia))
    as [fetched [older [_ [H2 [_ [_ [_ [_ [_ H8]]]]]]]]].
  exists fetched. split.
  - rewrite H2. reflexivity.
  - rewrite H8; [vm_compute; reflexivity|].
    simpl. repeat constructor; simpl; lia.
Defined.

Lemma no_embeddings_no_llm_call_witness :
  (forall d, In d (documents (working (conn demo_world))) ->
             doc_embedding d = None)
  /\ fault (demo_env [] [] []) (statements demo_world) = None
  /\ fst (search_documents (demo_env [] [] []) (lit "refund policy") 3
            demo_world) = Ok []
  /\ exists w' : world,
      answer_with_rag (demo_env [] [] []) (lit "refund policy") demo_world
      = (Ok no_information, w')
      /\ completions w' = completions demo_world.
Proof.
  assert (Hd : forall d, In d (documents (working (conn demo_world))) ->
                         doc_embedding d = None).
  { simpl. intros d [<- | []]. reflexivity. }
  split; [exact Hd|]. split; [reflexivity|].
  destruct (no_embeddings_no_llm_call (demo_env [] [] []) demo_world
              (lit "refund policy") Hd eq_refl)
    as [Hs [w' [Ha [_ [Hc _]]]]].
  split; [apply Hs; lia|].
  exists w'. split; [exact Ha | exact Hc].
Defined.

Lemma decline_leaves_database_untouched_witness :
  lower (fun _ c _ => [c]) (lit "No") <> lit "y"
  /\ exists w' : world,
      handle_sql_mode
        (demo_env [Line (lit "No")] [Completion (lit "DROP TABLE users")] [])
        (lit "remove every user") demo_world = (Ok tt, w')
      /\ conn w' = conn demo_world
      /\ filter is_executed (out w') = [Executed schema_sql None].
Proof.
  assert (Hne : lower (fun _ c _ => [c]) (lit "No") <> lit "y")
    by (vm_compute; discriminate).
  split; [exact Hne|].
  destruct (decline_leaves_database_untouched
              (demo_env [Line (lit "No")]
                 [Completion (lit "DROP TABLE users")] [])
              demo_world
              (snd (generate_sql_query
                      (demo_env [Line (lit "No")]
                         [Completion (lit "DROP TABLE users")] [])
                      (lit "remove every user")
                      (snd (console_print (Text (lit "
[cyan]Generating SQL query...[/cyan]")) demo_world))))
              (lit "remove every user") (lit "DROP TABLE users") (lit "No")
              ltac:(vm_compute; reflexivity) eq_refl Hne)
    as [w' [H1 [H2 [_ [_ H5]]]]].
  exists w'. split; [exact H1|]. split; [exact H2|]. exact H5.
Defined.


(* ===================================================================== *)
(** ** The validator: what it accepts *)
(* ===================================================================== *)

Lemma semicolon_violation_false (s : str) :
  semicolon_violation s = false
  <-> count_occ N.eq_dec s 59%N = 0
      \/ (count_occ N.eq_dec s 59%N = 1 /\ ends_with (strip s) (lit ";")).
Proof.
  unfold semicolon_violation. rewrite count_count_occ.
  set (n := count_occ N.eq_dec s 59%N).
  rewrite orb_false_iff, andb_false_iff, negb_false_iff, endswith_spec.
  rewrite Nat.ltb_ge, Nat.eqb_neq. split.
  - intros [H1 [H2 | H2]]; [left; lia|].
    destruct (Nat.eq_dec n 1) as [H|H]; [right; tauto | left; lia].
  - intros [H | [H1 H2]]; [split; [lia | left; lia] | split; [lia | tauto]].
Qed.

(** The validator returns [True] exactly for the strings whose cleaned
    text contains no forbidden keyword and starts with SELECT or WITH, and
    whose raw text has no semicolon, or a single one that closes the text
    once the surrounding whitespace is removed. *)
Theorem allowed_iff :
  forall (upper_ext : char -> str) (s : str),
    validate_read_only_query upper_ext s = Return true
    <-> (forall k, In k forbidden_keywords ->
                   ~ occurs k (clean_query upper_ext s))
        /\ (starts_with (clean_query upper_ext s) (lit "SELECT")
            \/ starts_with (clean_query upper_ext s) (lit "WITH"))
        /\ (count_occ N.eq_dec s 59%N = 0
            \/ (count_occ N.eq_dec s 59%N = 1
                /\ ends_with (strip s) (lit ";"))).
Proof.
  intros upper_ext s. rewrite <- first_forbidden_none.
  rewrite <- semicolon_violation_false, <- !startswith_spec.
  rewrite <- orb_true_iff.
  destruct (first_forbidden (clean_query upper_ext s)) as [k|] eqn:Hf.
  - rewrite (validate_forbidden upper_ext s k Hf).
    split; [discriminate | intros [H _]; discriminate H].
  - rewrite (validate_not_forbidden upper_ext s Hf).
    destruct (startswith (clean_query upper_ext s) (lit "SELECT")
              || startswith (clean_query upper_ext s) (lit "WITH")).
    + simpl negb. cbv iota. destruct (semicolon_violation s).
      * split; [discriminate | intros [_ [_ H]]; discriminate H].
      * split; [intros _; repeat split; reflexivity | reflexivity].
    + simpl negb. cbv iota.
      split; [discriminate | intros [_ [H _]]; discriminate H].
Qed.

Lemma split_blank (ws : str) : is_blank ws -> split ws = [].
Proof.
  induction 1 as [|c r Hc _ IH]; [reflexivity|].
  rewrite split_cons, Hc. exact IH.
Qed.

Lemma split_lead (ws s : str) : is_blank ws -> split (ws ++ s) = split s.
Proof.
  induction 1 as [|c r Hc _ IH]; [reflexivity|].
  simpl app. rewrite split_cons, Hc. exact IH.
Qed.

Lemma split_trail (s ws : str) : is_blank ws -> split (s ++ ws) = split s.
Proof.
  intros Hws. induction s as [|c r IH]; [apply split_blank; exact Hws|].
  simpl app. rewrite !split_cons. destruct (isspace c); [exact IH|].
  destruct r as [|d r'].
  - simpl app. destruct Hws as [|d ws' Hd Hws']; [reflexivity|].
    rewrite Hd, (split_blank (d :: ws')) by (constructor; assumption).
    reflexivity.
  - simpl app in *. rewrite IH. reflexivity.
Qed.

Lemma dropwhile_lead (p : char -> bool) (a b : str) :
  Forall (fun c => p c = true) a -> dropwhile p (a ++ b) = dropwhile p b.
Proof.
  induction 1 as [|c r Hc _ IH]; [reflexivity|].
  simpl. rewrite Hc. exact IH.
Qed.

Lemma dropwhile_keep (p : char -> bool) (a b : str) :
  dropwhile p a <> [] -> dropwhile p (a ++ b) = dropwhile p a ++ b.
Proof.
  induction a as [|c r IH]; simpl; intros H; [congruence|].
  destruct (p c); [apply IH; exact H | reflexivity].
Qed.

Lemma dropwhile_nil_all (p : char -> bool) (a : str) :
  dropwhile p a = [] -> Forall (fun c => p c = true) a.
Proof.
  induction a as [|c r IH]; simpl; intros H; [constructor|].
  destruct (p c) eqn:Hc; [|discriminate H].
  constructor; [exact Hc | apply IH; exact H].
Qed.

(** Stripping ignores what it would strip anyway. *)
Lemma strip_by_surrounded (p : char -> bool) (a s b : str) :
  Forall (fun c => p c = true) a ->
  Forall (fun c => p c = true) b ->
  strip_by p (a ++ s ++ b) = strip_by p s.
Proof.
  intros Ha Hb. unfold strip_by. rewrite (dropwhile_lead p a _ Ha).
  destruct (dropwhile p s) as [|c r] eqn:Hs.
  - rewrite (dropwhile_lead p s b (dropwhile_nil_all p s Hs)).
    rewrite (dropwhile_all p b Hb). reflexivity.
  - rewrite (dropwhile_keep p s b) by (rewrite Hs; discriminate).
    rewrite Hs, rev_app_distr.
    rewrite (dropwhile_lead p (rev b) _ (Forall_rev Hb)). reflexivity.
Qed.

Lemma count_app (a b : str) (c : char) :
  count (a ++ b) c = count a c + count b c.
Proof.
  induction a as [|x r IH]; simpl; [reflexivity|]. rewrite IH. lia.
Qed.

Lemma count_blank (ws : str) : is_blank ws -> count ws 59%N = 0.
Proof.
  induction 1 as [|c r Hc _ IH]; simpl; [reflexivity|].
  rewrite IH. unfold char_eqb. destruct (N.eqb_spec c 59%N) as [->|_].
  - vm_compute in Hc. discriminate Hc.
  - reflexivity.
Qed.

(** Whitespace before and after a query does not change the verdict. *)
Theorem surrounding_whitespace_ignored :
  forall (upper_ext : char -> str) (s before after : str),
    is_blank before ->
    is_blank after ->
    validate_read_only_query upper_ext (before ++ s ++ after)
    = validate_read_only_query upper_ext s.
Proof.
  intros upper_ext s a b Ha Hb.
  assert (Hclean : clean_query upper_ext (a ++ s ++ b)
                   = clean_query upper_ext s).
  { unfold clean_query. rewrite (split_lead a _ Ha), (split_trail s b Hb).
    reflexivity. }
  assert (Hsemi : semicolon_violation (a ++ s ++ b) = semicolon_violation s).
  { unfold semicolon_violation, strip.
    rewrite (strip_by_surrounded isspace a s b Ha Hb).
    rewrite !count_app, (count_blank a Ha), (count_blank b Hb).
    rewrite Nat.add_0_r. reflexivity. }
  unfold validate_read_only_query. rewrite Hclean, Hsemi. reflexivity.
Qed.

Lemma surrounding_whitespace_ignored_witness :
  validate_read_only_query no_ext (lit "
  SELECT 1;	 ")
  = validate_read_only_query no_ext (lit "SELECT 1;").
Proof.
  apply (surrounding_whitespace_ignored no_ext (lit "SELECT 1;") (lit "
  ") (lit "	 ")).
  - repeat constructor.
  - repeat constructor.
Defined.

Lemma isspace_printable (c : char) :
  (33 <= c)%N -> (c <= 132)%N -> isspace c = false.
Proof.
  intros H1 H2. unfold isspace.
  rewrite !orb_false_iff, !andb_false_iff, !N.leb_gt, !N.eqb_neq. lia.
Qed.

Lemma ascii_upper_cases (c : char) :
  (ascii_upper c = c /\ ~ (97 <= c <= 122)%N)
  \/ (ascii_upper c = (c - 32)%N /\ (97 <= c <= 122)%N).
Proof.
  unfold ascii_upper.
  destruct ((97 <=? c)%N && (c <=? 122)%N) eqn:H.
  - right. apply andb_true_iff in H as [H1 H2].
    apply N.leb_le in H1, H2. tauto.
  - left. apply andb_false_iff in H. rewrite !N.leb_gt in H.
    split; [reflexivity | lia].
Qed.

Lemma isspace_ascii_upper (c : char) : isspace (ascii_upper c) = isspace c.
Proof.
  destruct (ascii_upper_cases c) as [[-> _] | [-> H]]; [reflexivity|].
  rewrite !isspace_printable by lia. reflexivity.
Qed.

Lemma ascii_upper_semicolon (c : char) :
  char_eqb (ascii_upper c) 59%N = char_eqb c 59%N.
Proof.
  unfold char_eqb.
  destruct (ascii_upper_cases c) as [[-> _] | [-> H]]; [reflexivity|].
  destruct (N.eqb_spec (c - 32) 59%N), (N.eqb_spec c 59%N);
    try reflexivity; lia.
Qed.

Lemma upper_ascii (upper_ext : char -> str) (s : str) :
  is_ascii s -> upper upper_ext s = map ascii_upper s.
Proof.
  unfold upper. induction 1 as [|c r Hc _ IH]; [reflexivity|].
  simpl. rewrite IH. unfold upper_char, ascii_upper.
  destruct ((97 <=? c)%N && (c <=? 122)%N); [reflexivity|].
  apply N.ltb_lt in Hc. rewrite Hc. reflexivity.
Qed.

Lemma split_map_upper (s : str) :
  split (map ascii_upper s) = map (map ascii_upper) (split s).
Proof.
  induction s as [|c r IH]; [reflexivity|].
  destruct r as [|d r'].
  - cbn [map]. rewrite !split_cons, isspace_ascii_upper.
    destruct (isspace c); reflexivity.
  - cbn [map] in *. rewrite (split_cons c), (split_cons (ascii_upper c)).
    rewrite !isspace_ascii_upper, IH.
    destruct (isspace c); [reflexivity|].
    destruct (isspace d); [reflexivity|].
    destruct (split (d :: r')); reflexivity.
Qed.

Lemma join_map_upper (l : list str) :
  join (lit " ") (map (map ascii_upper) l)
  = map ascii_upper (join (lit " ") l).
Proof.
  induction l as [|x r IH]; [reflexivity|].
  destruct r as [|y r']; [reflexivity|].
  change (join (lit " ") (map (map ascii_upper) (x :: y :: r')))
    with (map ascii_upper x ++ lit " "
          ++ join (lit " ") (map (map ascii_upper) (y :: r'))).
  change (join (lit " ") (x :: y :: r'))
    with (x ++ lit " " ++ join (lit " ") (y :: r')).
  rewrite IH, !map_app. reflexivity.
Qed.

Lemma dropwhile_map_upper (s : str) :
  dropwhile isspace (map ascii_upper s)
  = map ascii_upper (dropwhile isspace s).
Proof.
  induction s as [|c r IH]; [reflexivity|].
  simpl. rewrite isspace_ascii_upper. destruct (isspace c);
    [exact IH | reflexivity].
Qed.

Lemma strip_map_upper (s : str) :
  strip (map ascii_upper s) = map ascii_upper (strip s).
Proof.
  unfold strip, strip_by.
  rewrite dropwhile_map_upper, <- map_rev, dropwhile_map_upper, map_rev.
  reflexivity.
Qed.

Lemma count_map_upper (s : str) :
  count (map ascii_upper s) 59%N = count s 59%N.
Proof.
  induction s as [|c r IH]; [reflexivity|].
  simpl. rewrite ascii_upper_semicolon, IH. reflexivity.
Qed.

Lemma endswith_map_upper (s : str) :
  endswith (map ascii_upper s) (lit ";") = endswith s (lit ";").
Proof.
  unfold endswith. change (rev (lit ";")) with [59%N]. rewrite <- map_rev.
  destruct (rev s) as [|c r]; [reflexivity|].
  cbn [map startswith].
  pose proof (ascii_upper_semicolon c) as H. unfold char_eqb in *.
  rewrite (N.eqb_sym 59%N (ascii_upper c)), H, (N.eqb_sym c 59%N).
  destruct r; reflexivity.
Qed.

Lemma is_ascii_joined (s : str) :
  is_ascii s -> is_ascii (join (lit " ") (split s)).
Proof.
  intros H. apply join_Forall.
  - repeat constructor.
  - apply split_words. intros c Hc _.
    unfold is_ascii in H. rewrite Forall_forall in H. apply H. exact Hc.
Qed.

(** On ASCII text the validator looks at the upper-case form only. *)
Lemma validate_upper_ascii (upper_ext : char -> str) (s : str) :
  is_ascii s ->
  validate_read_only_query upper_ext s
  = match first_forbidden
            (strip_chars (strip (join (lit " ") (split (map ascii_upper s))))
               (lit "; ")) with
    | Some keyword => Raise (forbidden_msg keyword)
    | None =>
        if negb (startswith
                   (strip_chars
                      (strip (join (lit " ") (split (map ascii_upper s))))
                      (lit "; ")) (lit "SELECT")
                 || startswith
                      (strip_chars
                         (strip (join (lit " ") (split (map ascii_upper s))))
                         (lit "; ")) (lit "WITH"))
        then Raise prefix_msg
        else if semicolon_violation (map ascii_upper s)
        then Raise multi_msg
        else Return true
    end.
Proof.
  intros H. unfold validate_read_only_query, clean_query.
  rewrite (upper_ascii upper_ext _ (is_ascii_joined s H)).
  rewrite <- join_map_upper, <- split_map_upper.
  unfold semicolon_violation.
  rewrite count_map_upper, strip_map_upper, endswith_map_upper.
  reflexivity.
Qed.

(** Two ASCII queries that differ in the case of their letters only get
    the same verdict. *)
Theorem letter_case_ignored :
  forall (upper_ext : char -> str) (s t : str),
    is_ascii s ->
    is_ascii t ->
    map ascii_upper s = map ascii_upper t ->
    validate_read_only_query upper_ext s
    = validate_read_only_query upper_ext t.
Proof.
  intros upper_ext s t Hs Ht H.
  rewrite (validate_upper_ascii upper_ext s Hs).
  rewrite (validate_upper_ascii upper_ext t Ht).
  rewrite H. reflexivity.
Qed.

Lemma letter_case_ignored_witness :
  validate_read_only_query no_ext (lit "SeLeCt * FrOm users")
  = validate_read_only_query no_ext (lit "select * FROM USERS").
Proof.
  apply (letter_case_ignored no_ext).
  - unfold is_ascii. repeat constructor.
  - unfold is_ascii. repeat constructor.
  - vm_compute. reflexivity.
Defined.


(* ===================================================================== *)
(** ** The transaction discipline of [execute_query] *)
(* ===================================================================== *)

(** [execute_query] by the answer of the server to its one statement.
    The rows of a statement that has a result set are returned without a
    commit: what the statement changed stays uncommitted.  The row count
    of a statement that has none is returned as [affected_rows], after a
    commit that leaves no uncommitted change.  When the statement fails
    (the connection still rolling back), every uncommitted change is
    discarded and [Exception("Query execution failed: ...")] is raised
    with the message of the failure.  So what a statement that returns
    rows has changed is lost when the next statement fails. *)
Theorem execute_query_outcomes :
  forall (E : env) (query : str) (params : option (list param)) (w : world),
    (forall rows t,
        fault E (statements w) = None ->
        server (cosine_distance E) (collate_leb E) (engine E)
          (clock E (statements w)) query params (working (conn w))
        = (Rows rows, t) ->
        execute_query E query params w
        = (Ok rows,
           after_statement w query params
             {| committed := committed (conn w); working := t |} []))
    /\ (forall k t,
           fault E (statements w) = None ->
           server (cosine_distance E) (collate_leb E) (engine E)
             (clock E (statements w)) query params (working (conn w))
           = (Count k, t) ->
           execute_query E query params w
           = (Ok [ [ (lit "affected_rows", VInt k) ] ],
              after_statement w query params
                {| committed := t; working := t |} [Committed]))
    /\ (forall msg,
           fault E (statements w) = Some msg
           \/ (fault E (statements w) = None
               /\ exists t,
                    server (cosine_distance E) (collate_leb E) (engine E)
                      (clock E (statements w)) query params
                      (working (conn w))
                    = (Failure msg, t)) ->
           execute_query E query params w
           = (Err (Exception (lit "Query execution failed: " ++ msg)),
              after_statement w query params
                {| committed := committed (conn w);
                   working := committed (conn w) |} [RolledBack]))
    /\ (forall rows t query' params' msg,
           fault E (statements w) = None ->
           server (cosine_distance E) (collate_leb E) (engine E)
             (clock E (statements w)) query params (working (conn w))
           = (Rows rows, t) ->
           fault E (S (statements w)) = Some msg ->
           conn (snd (execute_query E query' params'
                        (snd (execute_query E query params w))))
           = {| committed := committed (conn w);
                working := committed (conn w) |}).
Proof.
  intros E query params w.
  split; [intros rows t Hf Hs; apply execute_query_rows; assumption|].
  split; [intros k t Hf Hs; apply execute_query_count; assumption|].
  split.
  - intros msg [Hf | [Hf [t Hs]]].
    + apply execute_query_fault. exact Hf.
    + apply (execute_query_failure E query params w msg t); assumption.
  - intros rows t query' params' msg Hf Hs Hf2.
    rewrite (execute_query_rows E query params w rows t Hf Hs).
    cbn [snd].
    erewrite execute_query_fault; [reflexivity|exact Hf2].
Qed.

Lemma execute_query_outcomes_witness :
  execute_query (demo_env [] [] [Some (lit "connection lost")])
    (lit "SELECT 1") None demo_world
  = (Err (Exception (lit "Query execution failed: "
                     ++ lit "connection lost")),
     after_statement demo_world (lit "SELECT 1") None
       {| committed := committed (conn demo_world);
          working := committed (conn demo_world) |} [RolledBack]).
Proof.
  destruct (execute_query_outcomes
              (demo_env [] [] [Some (lit "connection lost")])
              (lit "SELECT 1") None demo_world) as [_ [_ [H _]]].
  apply H. left. reflexivity.
Defined.

(* ===================================================================== *)
(** ** Saving a message and reading it back *)
(* ===================================================================== *)

Lemma order_by_newest (x : chat_row) (l : list chat_row) :
  Forall (fun m => (timestamp m < timestamp x)%Z) l ->
  order_by newer_first (l ++ [x]) = x :: order_by newer_first l.
Proof.
  induction 1 as [|a r Ha _ IH]; [reflexivity|].
  simpl. rewrite IH. simpl. unfold newer_first at 1.
  replace (timestamp x <=? timestamp a)%Z with false
    by (symmetry; apply Z.leb_gt; exact Ha).
  reflexivity.
Qed.

(** A message that has been saved is the last one of the history read
    next, whatever the limit (from 1 on), provided the server's clock is
    past the timestamps of the session's messages. *)
Theorem saved_message_is_read_back :
  forall (E : env) (w : world) (r c : str) (limit : Z),
    fault E (statements w) = None ->
    fault E (S (statements w)) = None ->
    (1 <= limit)%Z ->
    (forall m, In m (session_messages E (working (conn w))) ->
               (timestamp m < clock E (statements w))%Z) ->
    exists (w1 w2 : world) (earlier : list row),
      save_chat_message E r c w = (Ok tt, w1)
      /\ get_chat_history E limit w1
         = (Ok (earlier
                ++ [ history_row
                       {| session_id := SESSION_ID E; role := r;
                          content := c;
                          timestamp := clock E (statements w) |} ]),
            w2)
      /\ List.length earlier
         = Nat.min (Z.to_nat limit - 1)
             (List.length (session_messages E (working (conn w)))).
Proof.
  intros E w r c limit Hf1 Hf2 Hl Hnew.
  set (x := {| session_id := SESSION_ID E; role := r; content := c;
               timestamp := clock E (statements w) |}).
  set (t' := {| chat_history := chat_history (working (conn w)) ++ [x];
                documents := documents (working (conn w));
                columns := columns (working (conn w));
                application := application (working (conn w)) |}).
  set (w1 := after_statement w insert_chat_sql
               (Some [PStr (SESSION_ID E); PStr r; PStr c])
               {| committed := t'; working := t' |} [Committed]).
  assert (Hsave : save_chat_message E r c w = (Ok tt, w1)).
  { unfold save_chat_message, bind.
    rewrite (execute_query_count E _ _ w 1%Z t' Hf1
               (server_insert _ _ _ _ _ _ _ _)).
    reflexivity. }
  set (msgs := session_messages E (working (conn w))) in *.
  assert (Hsel : select_history t' (SESSION_ID E) limit
                 = x :: firstn (Z.to_nat limit - 1)
                          (order_by newer_first msgs)).
  { unfold select_history. unfold t' at 1. cbn [chat_history].
    rewrite filter_app. cbn [filter session_id x]. rewrite eqb_refl.
    fold (session_messages E (working (conn w))). fold msgs.
    rewrite order_by_newest by (apply Forall_forall; exact Hnew).
    destruct (Z.to_nat limit) as [|n] eqn:Hn; [lia|].
    replace (S n - 1) with n by lia. reflexivity. }
  exists w1. eexists.
  exists (map history_row
            (rev (firstn (Z.to_nat limit - 1) (order_by newer_first msgs)))).
  split; [exact Hsave|]. split.
  - unfold get_chat_history, bind.
    rewrite (execute_query_rows E _ _ w1 _ _ Hf2
               (server_history_ok _ _ _ _ _ limit _ ltac:(lia))).
    unfold ret. cbn [working conn w1 after_statement].
    rewrite Hsel. cbn [map rev]. rewrite map_rev. reflexivity.
  - rewrite length_map, length_rev, length_firstn.
    rewrite (Permutation_length (order_by_perm chat_row newer_first msgs)).
    reflexivity.
Qed.

Lemma saved_message_is_read_back_witness :
  exists (w1 w2 : world) (earlier : list row),
    save_chat_message (demo_env [] [] []) (lit "user") (lit "thanks")
      demo_world = (Ok tt, w1)
    /\ get_chat_history (demo_env [] [] []) 2 w1
       = (Ok (earlier
              ++ [ history_row
                     {| session_id := lit "s1"; role := lit "user";
                        content := lit "thanks"; timestamp := 100 |} ]),
          w2)
    /\ List.length earlier = 1.
Proof.
  apply (saved_message_is_read_back (demo_env [] [] []) demo_world
           (lit "user") (lit "thanks") 2 eq_refl eq_refl).
  - lia.
  - intros m Hm. vm_compute in Hm.
    repeat (destruct Hm as [<- | Hm]; [vm_compute; reflexivity|]).
    destruct Hm.
Defined.

(* ===================================================================== *)
(** ** Searching the documents *)
(* ===================================================================== *)

Lemma Qle_bool_total (a b : Q) : Qle_bool a b = false -> Qle_bool b a = true.
Proof.
  intros H. apply Qle_bool_iff. apply Qlt_le_weak. apply Qnot_le_lt.
  intros Hle. apply Qle_bool_iff in Hle. congruence.
Qed.

Lemma Qle_bool_trans (a b c : Q) :
  Qle_bool a b = true -> Qle_bool b c = true -> Qle_bool a c = true.
Proof.
  rewrite !Qle_bool_iff. apply Qle_trans.
Qed.

(** What [search_documents] returns when its statement succeeds. *)
Lemma search_documents_run (E : env) (w : world) (query : str) (top_k : Z) :
  (0 <= top_k)%Z ->
  fault E (statements w) = None ->
  exists w' : world,
    search_documents E query top_k w
    = (Ok (map (search_row (cosine_distance E) (encode E query))
             (select_documents (cosine_distance E) (working (conn w))
                (encode E query) top_k)),
       w')
    /\ conn w' = conn w.
Proof.
  intros Hk Hf.
  assert (Hsrv : forall now,
    server (cosine_distance E) (collate_leb E) (engine E) now search_sql
      (Some [PVec (encode E query); PVec (encode E query); PInt top_k])
      (working (conn w))
    = (Rows (map (search_row (cosine_distance E) (encode E query))
               (select_documents (cosine_distance E) (working (conn w))
                  (encode E query) top_k)),
       working (conn w))).
  { intros now. rewrite server_search.
    replace (top_k <? 0)%Z with false by (symmetry; apply Z.ltb_ge; exact Hk).
    reflexivity. }
  unfold search_documents, bind, init_embedding_model.
  destruct (embedding_model w) eqn:Hm.
  - unfold emit. cbv beta iota.
    erewrite execute_query_rows; [| exact Hf | apply Hsrv].
    eexists. split; [reflexivity|]. cbn [conn after_statement].
    apply conn_eta.
  - unfold console_print, emit, bind. cbv beta iota.
    erewrite execute_query_rows; [| exact Hf | apply Hsrv].
    eexists. split; [reflexivity|]. cbn [conn after_statement].
    apply conn_eta.
Qed.

(** [search_documents] returns the [top_k] documents nearest to the
    question among those that have an embedding, nearest first (so by
    falling similarity): every embedded document left out is at least as
    far as any returned, and a document without embedding is never
    returned. *)
Theorem search_returns_nearest_first :
  forall (E : env) (w : world) (query : str) (top_k : Z),
    (0 <= top_k)%Z ->
    fault E (statements w) = None ->
    exists found rest : list document,
      fst (search_documents E query top_k w)
      = Ok (map (search_row (cosine_distance E) (encode E query)) found)
      /\ List.length found
         = Nat.min (Z.to_nat top_k)
             (List.length
                (filter has_embedding (documents (working (conn w)))))
      /\ Permutation (found ++ rest)
           (filter has_embedding (documents (working (conn w))))
      /\ StronglySorted
           (fun a b =>
              (distance_to (cosine_distance E) (encode E query) a
               <= distance_to (cosine_distance E) (encode E query) b)%Q)
           found
      /\ (forall f r, In f found -> In r rest ->
                      (distance_to (cosine_distance E) (encode E query) f
                       <= distance_to (cosine_distance E) (encode E query) r)%Q)
      /\ (forall d, In d found ->
                    In d (documents (working (conn w)))
                    /\ doc_embedding d <> None).
Proof.
  intros E w query top_k Hk Hf.
  destruct (search_documents_run E w query top_k Hk Hf) as [w' [Hrun _]].
  set (q := encode E query) in *.
  set (leb := fun a b : document =>
                Qle_bool (distance_to (cosine_distance E) q a)
                  (distance_to (cosine_distance E) q b)).
  set (embedded := filter has_embedding (documents (working (conn w)))).
  set (sorted := order_by leb embedded).
  assert (Hsorted : StronglySorted
                      (fun a b =>
                         (distance_to (cosine_distance E) q a
                          <= distance_to (cosine_distance E) q b)%Q) sorted).
  { pose proof (order_by_sorted document leb
                  (fun a b => Qle_bool_total _ _)
                  (fun a b c => Qle_bool_trans _ _ _) embedded) as H.
    fold sorted in H. clear - H.
    induction H as [|x r Hr IH Hx]; constructor; [exact IH|].
    rewrite Forall_forall in *. intros y Hy. specialize (Hx y Hy).
    unfold leb in Hx. apply Qle_bool_iff. exact Hx. }
  exists (firstn (Z.to_nat top_k) sorted), (skipn (Z.to_nat top_k) sorted).
  split; [rewrite Hrun; reflexivity|]. split.
  { rewrite length_firstn. unfold sorted.
    rewrite (Permutation_length (order_by_perm document leb embedded)).
    reflexivity. }
  split.
  { rewrite firstn_skipn. apply order_by_perm. }
  split; [apply sorted_firstn; exact Hsorted|]. split.
  { intros f r Hfo Hr.
    apply (sorted_firstn_skipn _ sorted (Z.to_nat top_k) Hsorted f r Hfo Hr). }
  intros d Hd. apply in_firstn in Hd.
  apply (Permutation_in d (order_by_perm document leb embedded)) in Hd.
  unfold embedded in Hd. apply filter_In in Hd as [Hin He].
  split; [exact Hin|]. unfold has_embedding in He.
  destruct (doc_embedding d); [discriminate | discriminate He].
Qed.

Lemma search_returns_nearest_first_witness :
  exists found rest : list document,
    fst (search_documents (library_env []) (lit "refund policy") 2
           library_world)
    = Ok (map (search_row (fun e _ => hd 0%Q e) []) found)
    /\ List.length found = 2
    /\ Permutation (found ++ rest)
         (filter has_embedding (documents library_tables)).
Proof.
  destruct (search_returns_nearest_first (library_env [])
              library_world (lit "refund policy") 2 ltac:(lia) eq_refl)
    as [found [rest [H1 [H2 [H3 _]]]]].
  exists found, rest. split; [exact H1|]. split; [exact H2 | exact H3].
Defined.

(* ===================================================================== *)
(** ** The schema text *)
(* ===================================================================== *)

Lemma value_eqb_text (a : str) (v : value) :
  value_eqb (VText a) v = true -> v = VText a.
Proof.
  destruct v; simpl; intros H; try discriminate H.
  apply eqb_eq in H. rewrite H. reflexivity.
Qed.

Lemma schema_line_row (E : env) (text : str) (current : value)
    (c : column_info) (w : world) :
  schema_line E (text, current) (schema_row c) w
  = (Ok (text ++ schema_lines current [c], VText (table_name c)), w).
Proof.
  unfold schema_line, bind.
  replace (getitem (schema_row c) (lit "table_name"))
    with (@ret value (VText (table_name c))) by reflexivity.
  replace (getitem (schema_row c) (lit "column_name"))
    with (@ret value (VText (column_name c))) by reflexivity.
  replace (getitem (schema_row c) (lit "data_type"))
    with (@ret value (VText (data_type c))) by reflexivity.
  replace (getitem (schema_row c) (lit "is_nullable"))
    with (@ret value (VText (is_nullable c))) by reflexivity.
  cbn [schema_lines]. unfold ret.
  destruct (value_eqb (VText (table_name c)) current) eqn:Hsame;
    cbn [negb]; cbn [value_eqb str_of];
    try (apply value_eqb_text in Hsame; subst current);
    destruct (Py.eqb (is_nullable c) (lit "NO"));
    rewrite <- ?app_assoc, ?app_nil_r; reflexivity.
Qed.

Lemma foldM_schema_lines (E : env) (cols : list column_info) (text : str)
    (current : value) (w : world) :
  exists last : value,
    foldM (schema_line E) (text, current) (map schema_row cols) w
    = (Ok (text ++ schema_lines current cols, last), w).
Proof.
  revert text current. induction cols as [|c r IH]; intros text current.
  - exists current. cbn. rewrite app_nil_r. reflexivity.
  - cbn [map foldM]. unfold bind. rewrite schema_line_row.
    destruct (IH (text ++ schema_lines current [c]) (VText (table_name c)))
      as [last H].
    exists last. refine (eq_trans H _). f_equal. f_equal. f_equal.
    cbn [schema_lines]. rewrite <- !app_assoc, ?app_nil_r.
    destruct (value_eqb (VText (table_name c)) current);
      rewrite <- ?app_assoc; reflexivity.
Qed.

(** Whenever its statement succeeds, [get_schema_info] returns: no key is
    missing from a row.  Its text is the heading, then, for each column of
    the public schema in catalog order, a header where the table changes
    and a line with the column's name and type, marked NOT NULL when the
    column is not nullable.  The connection is left as it was. *)
Theorem schema_text_lists_public_columns :
  forall (E : env) (w : world),
    fault E (statements w) = None ->
    get_schema_info E w
    = (Ok (lit "Database Schema:

" ++ schema_lines VNone
        (select_schema (collate_leb E) (working (conn w)))),
       after_statement w schema_sql None (conn w) []).
Proof.
  intros E w Hf. unfold get_schema_info. unfold bind at 1.
  rewrite (execute_query_rows E schema_sql None w _ _ Hf
             (server_schema _ _ _ _ _)).
  rewrite conn_eta. unfold bind.
  destruct (foldM_schema_lines E
              (select_schema (collate_leb E) (working (conn w)))
              (lit "Database Schema:

") VNone (after_statement w schema_sql None (conn w) [])) as [last H].
  rewrite H. reflexivity.
Qed.

Lemma schema_text_lists_public_columns_witness :
  fst (get_schema_info (demo_env [] [] []) demo_world)
  = Ok (lit "Database Schema:


Table: users
  - id: integer (NOT NULL)
  - name: text
").
Proof.
  rewrite (schema_text_lists_public_columns (demo_env [] [] []) demo_world
             eq_refl).
  vm_compute. reflexivity.
Defined.


(* ===================================================================== *)
(** ** The clean-up of the model's SQL *)
(* ===================================================================== *)

Lemma split_on_nonempty (sep : char) (s : str) :
  exists w ws, split_on sep s = w :: ws.
Proof.
  destruct s as [|c r]; simpl; [eauto|].
  destruct (char_eqb c sep); [eauto|].
  destruct (split_on sep r); eauto.
Qed.

Lemma split_on_app (sep : char) (a b : str) :
  split_on sep (a ++ sep :: b) = split_on sep a ++ split_on sep b.
Proof.
  induction a as [|c r IH]; simpl.
  - unfold char_eqb. rewrite N.eqb_refl. reflexivity.
  - destruct (char_eqb c sep); rewrite IH; [reflexivity|].
    destruct (split_on_nonempty sep r) as [w [ws ->]]. reflexivity.
Qed.

Lemma split_on_single (sep : char) (s : str) :
  ~ In sep s -> split_on sep s = [s].
Proof.
  induction s as [|c r IH]; intros H; simpl; [reflexivity|].
  destruct (char_eqb c sep) eqn:Hc.
  - apply char_eqb_eq in Hc. exfalso. apply H. left. exact Hc.
  - rewrite IH; [reflexivity|]. intros Hin. apply H. right. exact Hin.
Qed.

(** [sep.join(s.split(sep))] gives [s] back. *)
Lemma join_split_on (sep : char) (s : str) :
  join [sep] (split_on sep s) = s.
Proof.
  induction s as [|c r IH]; [reflexivity|].
  simpl split_on. destruct (split_on_nonempty sep r) as [w [ws Hr]].
  rewrite Hr in *. destruct (char_eqb c sep) eqn:Hc.
  - apply char_eqb_eq in Hc. subst c.
    change (join [sep] ([] :: w :: ws)) with (sep :: join [sep] (w :: ws)).
    rewrite IH. reflexivity.
  - destruct ws as [|w' ws'].
    + simpl in *. rewrite IH. reflexivity.
    + change (join [sep] ((c :: w) :: w' :: ws'))
        with (c :: join [sep] (w :: w' :: ws')).
      rewrite IH. reflexivity.
Qed.

Lemma length_split_on (sep : char) (s : str) :
  List.length (split_on sep s) = S (count s sep).
Proof.
  induction s as [|c r IH]; [reflexivity|].
  simpl. destruct (char_eqb c sep); simpl.
  - rewrite IH. reflexivity.
  - destruct (split_on_nonempty sep r) as [w [ws Hr]].
    rewrite Hr in *. simpl in *. exact IH.
Qed.

Lemma dropwhile_head (p : char -> bool) (s : str) (c : char) (r : str) :
  dropwhile p s = c :: r -> p c = false.
Proof.
  induction s as [|x s IH]; simpl; [discriminate|].
  destruct (p x) eqn:Hx; [exact IH|].
  intros H. injection H as <- _. exact Hx.
Qed.

Lemma dropwhile_fixed (p : char -> bool) (s : str) :
  match s with [] => True | c :: _ => p c = false end ->
  dropwhile p s = s.
Proof.
  destruct s as [|c r]; [reflexivity|]. simpl. intros ->. reflexivity.
Qed.

Lemma dropwhile_idem (p : char -> bool) (s : str) :
  dropwhile p (dropwhile p s) = dropwhile p s.
Proof.
  apply dropwhile_fixed. destruct (dropwhile p s) as [|c r] eqn:H; [exact I|].
  apply (dropwhile_head p s c r H).
Qed.

Lemma dropwhile_suffix (p : char -> bool) (s : str) :
  exists pre, s = pre ++ dropwhile p s.
Proof.
  induction s as [|c r [pre IH]]; [exists []; reflexivity|].
  simpl. destruct (p c).
  - exists (c :: pre). simpl. rewrite <- IH. reflexivity.
  - exists []. reflexivity.
Qed.

(** Stripping twice is stripping once. *)
Lemma strip_by_idem (p : char -> bool) (s : str) :
  strip_by p (strip_by p s) = strip_by p s.
Proof.
  unfold strip_by.
  set (A := dropwhile p s).
  set (B := dropwhile p (rev A)).
  assert (HB : dropwhile p B = B) by apply dropwhile_idem.
  assert (HrB : dropwhile p (rev B) = rev B).
  { apply dropwhile_fixed.
    destruct (rev B) as [|c r] eqn:Hrev; [exact I|].
    destruct (dropwhile_suffix p (rev A)) as [pre Hpre]. fold B in Hpre.
    assert (HA : A = c :: r ++ rev pre).
    { rewrite <- (rev_involutive A), Hpre, rev_app_distr, Hrev.
      reflexivity. }
    apply (dropwhile_head p s c (r ++ rev pre)). exact HA. }
  rewrite HrB, rev_involutive, HB. reflexivity.
Qed.

Lemma strip_by_fixed (p : char -> bool) (s : str) :
  dropwhile p s = s -> dropwhile p (rev s) = rev s -> strip_by p s = s.
Proof.
  intros H1 H2. unfold strip_by. rewrite H1, H2. apply rev_involutive.
Qed.

(** What [generate_sql_query] makes of the model's text.  Text that does
    not open with a code fence is stripped of its surrounding whitespace
    and nothing else.  Of fenced text, the first and the last line go: an
    answer between an opening fence line and a closing fence gives the
    lines in between, stripped; an answer of one or two lines in all (the
    query on the line of the fence, or no closing fence) gives the empty
    string. *)
Theorem strip_fences_behaviour :
  (forall s : str,
      startswith (strip s) fence = false -> strip_fences s = strip s)
  /\ (forall before after lang body : str,
         is_blank before ->
         is_blank after ->
         ~ In newline lang ->
         strip_fences
           (before ++ (fence ++ lang ++ newline :: body ++ newline :: fence)
            ++ after)
         = strip body)
  /\ (forall s : str,
         startswith (strip s) fence = true ->
         count (strip s) newline <= 1 ->
         strip_fences s = []).
Proof.
  split; [|split].
  - intros s H. unfold strip_fences. rewrite H. apply strip_by_idem.
  - intros before after lang body Hb Ha Hlang.
    unfold strip_fences.
    set (t := fence ++ lang ++ newline :: body ++ newline :: fence).
    assert (Ht : strip (before ++ t ++ after) = t).
    { unfold strip. rewrite (strip_by_surrounded isspace before t after Hb Ha).
      apply strip_by_fixed.
      - reflexivity.
      - unfold t. rewrite !rev_app_distr. simpl rev.
        rewrite !rev_app_distr. reflexivity. }
    rewrite Ht.
    assert (Hfence : startswith t fence = true).
    { apply startswith_spec. eexists. reflexivity. }
    rewrite Hfence.
    assert (Hlines : split_on newline t
                     = (fence ++ lang) :: split_on newline body ++ [fence]).
    { unfold t. rewrite app_assoc, split_on_app, split_on_app.
      rewrite (split_on_single newline (fence ++ lang)).
      - rewrite (split_on_single newline fence); [reflexivity|].
        vm_compute. intuition discriminate.
      - intros Hin. apply in_app_or in Hin as [Hin | Hin].
        + vm_compute in Hin. intuition discriminate.
        + exact (Hlang Hin). }
    rewrite Hlines. cbn [tl]. rewrite removelast_last, join_split_on.
    reflexivity.
  - intros s Hf Hc. unfold strip_fences. rewrite Hf.
    pose proof (length_split_on newline (strip s)) as Hlen.
    destruct (split_on newline (strip s)) as [|l1 [|l2 [|l3 ls]]];
      simpl in Hlen; try reflexivity; lia.
Qed.

Lemma strip_fences_behaviour_witness :
  strip_fences (lit "SELECT 1;  ") = lit "SELECT 1;"
  /\ strip_fences (lit "```sql
SELECT *
FROM users;
```
") = lit "SELECT *
FROM users;"
  /\ strip_fences (lit "```sql SELECT 1; ```") = []
  /\ strip_fences (lit "```sql
SELECT 1;") = [].
Proof.
  destruct strip_fences_behaviour as [Ha [Hb Hc]].
  split; [|split; [|split]].
  - rewrite (Ha (lit "SELECT 1;  ")) by (vm_compute; reflexivity).
    vm_compute. reflexivity.
  - transitivity (strip (lit "SELECT *
FROM users;")); [|vm_compute; reflexivity].
    apply (Hb [] (lit "
") (lit "sql") (lit "SELECT *
FROM users;")).
    + constructor.
    + repeat constructor.
    + vm_compute. intuition discriminate.
  - apply Hc; [vm_compute; reflexivity | vm_compute; lia].
  - apply Hc; [vm_compute; reflexivity | vm_compute; lia].
Defined.


(* ===================================================================== *)
(** ** Where failures end *)
(* ===================================================================== *)










Section Calm.

Variable E : env.

















End Calm.

Section Handlers.

Variable E : env.











End Handlers.

(* ===================================================================== *)
(** ** What ends the loop *)
(* ===================================================================== *)

Section Loop.

Variable E : env.
















End Loop.

(* ===================================================================== *)
(** ** Saving, then chatting *)
(* ===================================================================== *)

Lemma select_history_after_insert (E : env) (t : tables) (x : chat_row)
    (limit : Z) :
  session_id x = SESSION_ID E ->
  (1 <= limit)%Z ->
  (forall m, In m (session_messages E t) ->
             (timestamp m < timestamp x)%Z) ->
  select_history
    {| chat_history := chat_history t ++ [x]; documents := documents t;
       columns := columns t; application := application t |}
    (SESSION_ID E) limit
  = x :: firstn (Z.to_nat limit - 1)
           (order_by newer_first (session_messages E t)).
Proof.
  intros Hx Hl Hnew. unfold select_history. cbn [chat_history].
  rewrite filter_app. cbn [filter]. rewrite Hx, eqb_refl.
  fold (session_messages E t).
  rewrite order_by_newest by (apply Forall_forall; exact Hnew).
  destruct (Z.to_nat limit) as [|n] eqn:Hn; [lia|].
  replace (S n - 1) with n by lia. reflexivity.
Qed.

Lemma save_chat_message_appends (E : env) (r c : str) (w : world) :
  exists (res : res unit) (w' : world) (tail : list event),
    save_chat_message E r c w = (res, w')
    /\ out w' = out w ++ tail
    /\ (res = Ok tt \/ exists e, res = Err e /\ is_Exception e = true).
Proof.
  unfold save_chat_message, bind.
  destruct (fault E (statements w)) as [m|] eqn:Hf.
  - rewrite (execute_query_fault E _ _ w m Hf).
    do 3 eexists. split; [reflexivity|]. split; [reflexivity|].
    right. eexists. split; reflexivity.
  - destruct (server (cosine_distance E) (collate_leb E) (engine E)
                (clock E (statements w)) insert_chat_sql
                (Some [PStr (SESSION_ID E); PStr r; PStr c])
                (working (conn w))) as [[rows|k|m] t] eqn:Hs.
    + rewrite (execute_query_rows E _ _ w rows t Hf Hs).
      do 3 eexists. split; [reflexivity|]. split; [reflexivity|].
      left. reflexivity.
    + rewrite (execute_query_count E _ _ w k t Hf Hs).
      do 3 eexists. split; [reflexivity|]. split; [reflexivity|].
      left. reflexivity.
    + rewrite (execute_query_failure E _ _ w m t Hf Hs).
      do 3 eexists. split; [reflexivity|]. split; [reflexivity|].
      right. eexists. split; reflexivity.
Qed.

(** Once the history has been read, [handle_chat_mode] sends its request
    and returns. *)
Lemma chat_after_history (E : env) (messages : list row) (w : world) :
  exists w' : world,
    try_except
      (bind (console_print (Text (lit "
[cyan]Thinking...[/cyan]")))
         (fun _ =>
            bind (chat E messages (4 # 5) 800)
              (fun response =>
                 bind (console_print (Text (lit "
[green]Assistant:[/green]")))
                   (fun _ =>
                      bind (console_print (Markdown response))
                        (fun _ =>
                           save_chat_message E (lit "assistant") response)))))
      (fun e => console_print (Text (error_text e))) w
    = (Ok tt, w')
    /\ In (Chatted messages (4 # 5) 800) (out w').
Proof.
  unfold try_except. unfold bind at 1. unfold console_print at 1.
  unfold emit at 1. unfold bind at 1. unfold chat.
  cbn [completions].
  destruct (llm E (completions w) messages) as [response|msg].
  - unfold bind at 1. unfold console_print at 1. unfold emit at 1.
    unfold bind at 1. unfold console_print at 1. unfold emit at 1.
    match goal with
    | |- context [save_chat_message E ?r ?c ?w0] =>
        destruct (save_chat_message_appends E r c w0)
          as [res [w2 [tail [Hs [Hout Hres]]]]]
    end.
    rewrite Hs. cbn [out] in Hout.
    destruct Hres as [-> | [e [-> He]]].
    + eexists. split; [reflexivity|]. rewrite Hout.
      rewrite <- !app_assoc. apply in_or_app. right.
      apply in_or_app. right. left. reflexivity.
    + rewrite He. unfold console_print, emit.
      eexists. split; [reflexivity|]. cbn [out]. rewrite Hout.
      rewrite <- !app_assoc. apply in_or_app. right.
      apply in_or_app. right. left. reflexivity.
  - cbn [is_Exception]. unfold console_print, emit.
    eexists. split; [reflexivity|]. cbn [out].
    rewrite <- !app_assoc. apply in_or_app. right.
    apply in_or_app. right. left. reflexivity.
Qed.

(** In chat mode the user's message reaches the model twice.  The loop
    saves the message and then calls [handle_chat_mode], which reads the
    history, the message just saved at its end, and appends the message
    once more: the request ends with two copies of it. *)
Theorem chat_request_repeats_the_message :
  forall (E : env) (w : world) (text : str),
    fault E (statements w) = None ->
    fault E (S (statements w)) = None ->
    (forall m, In m (session_messages E (working (conn w))) ->
               (timestamp m < clock E (statements w))%Z) ->
    exists (earlier : list row) (w' : world),
      bind (save_chat_message E (lit "user") text)
        (fun _ => handle_chat_mode E text) w = (Ok tt, w')
      /\ List.length earlier
         = Nat.min 9
             (List.length (session_messages E (working (conn w))))
      /\ In (Chatted
               (chat_system_message
                :: earlier
                   ++ [ message (VText (lit "user")) (VText text);
                        message (VText (lit "user")) (VText text) ])
               (4 # 5) 800)
           (out w').
Proof.
  intros E w text Hf1 Hf2 Hnew.
  set (x := {| session_id := SESSION_ID E; role := lit "user";
               content := text; timestamp := clock E (statements w) |}).
  set (t' := {| chat_history := chat_history (working (conn w)) ++ [x];
                documents := documents (working (conn w));
                columns := columns (working (conn w));
                application := application (working (conn w)) |}).
  set (w1 := after_statement w insert_chat_sql
               (Some [PStr (SESSION_ID E); PStr (lit "user"); PStr text])
               {| committed := t'; working := t' |} [Committed]).
  set (msgs := session_messages E (working (conn w))) in *.
  set (kept := rev (firstn 9 (order_by newer_first msgs))).
  exists (map (fun m => message (VText (role m)) (VText (content m))) kept).
  assert (Hsave : save_chat_message E (lit "user") text w = (Ok tt, w1)).
  { unfold save_chat_message, bind.
    rewrite (execute_query_count E _ _ w 1%Z t' Hf1
               (server_insert _ _ _ _ _ _ _ _)).
    reflexivity. }
  assert (Hsel : select_history t' (SESSION_ID E) 10
                 = x :: firstn 9 (order_by newer_first msgs)).
  { apply (select_history_after_insert E (working (conn w)) x 10);
      [reflexivity | lia | exact Hnew]. }
  assert (Hlen : List.length
                   (map (fun m => message (VText (role m))
                                    (VText (content m))) kept)
                 = Nat.min 9 (List.length msgs)).
  { unfold kept. rewrite length_map, length_rev, length_firstn.
    rewrite (Permutation_length (order_by_perm chat_row newer_first msgs)).
    reflexivity. }
  unfold bind at 1. rewrite Hsave.
  unfold handle_chat_mode. unfold bind at 1. unfold get_chat_history.
  unfold bind at 1.
  rewrite (execute_query_rows E _ _ w1 _ _ Hf2
             (server_history_ok _ _ _ _ _ 10%Z _ ltac:(lia))).
  unfold ret at 1. rewrite <- map_rev.
  unfold bind at 1. rewrite mapM_history_message.
  cbn [working conn w1 after_statement]. rewrite Hsel.
  cbn [rev]. fold kept. rewrite map_app. cbn [map role content x].
  fold chat_system_message.
  match goal with
  | |- exists w', try_except ?b ?h ?w0 = _ /\ _ =>
      destruct (chat_after_history E
                  (chat_system_message
                   :: map (fun m => message (VText (role m))
                                      (VText (content m))) kept
                      ++ [ message (VText (lit "user")) (VText text);
                           message (VText (lit "user")) (VText text) ])
                  w0) as [w' [Hrun Hin]]
  end.
  exists w'. split; [|split; [exact Hlen | exact Hin]].
  rewrite <- Hrun. cbn [app]. rewrite <- app_assoc. reflexivity.
Qed.

Lemma chat_request_repeats_the_message_witness :
  exists (earlier : list row) (w' : world),
    bind (save_chat_message (demo_env [] [Completion (lit "Hi there!")] [])
            (lit "user") (lit "hello"))
      (fun _ =>
         handle_chat_mode (demo_env [] [Completion (lit "Hi there!")] [])
           (lit "hello"))
      demo_world = (Ok tt, w')
    /\ List.length earlier = 3
    /\ In (Chatted
             (chat_system_message
              :: earlier
                 ++ [ message (VText (lit "user")) (VText (lit "hello"));
                      message (VText (lit "user")) (VText (lit "hello")) ])
             (4 # 5) 800)
         (out w').
Proof.
  apply (chat_request_repeats_the_message
           (demo_env [] [Completion (lit "Hi there!")] []) demo_world
           (lit "hello") eq_refl eq_refl).
  intros m Hm. vm_compute in Hm.
  repeat (destruct Hm as [<- | Hm]; [vm_compute; reflexivity|]).
  destruct Hm.
Defined.

(* ===================================================================== *)
(** ** Inputs that reach neither the database nor the model *)
(* ===================================================================== *)



Lemma confirmed_sql_is_executed_witness :
  exists (w' : world) (rest : list event),
    handle_sql_mode
      (demo_env [Line (lit "Y")] [Completion (lit "DROP TABLE users")] [])
      (lit "remove every user") demo_world = (Ok tt, w')
    /\ In (Executed (lit "DROP TABLE users") None) (out w').
Proof.
  destruct (confirmed_sql_is_executed
              (demo_env [Line (lit "Y")]
                 [Completion (lit "DROP TABLE users")] [])
              demo_world
              (snd (generate_sql_query
                      (demo_env [Line (lit "Y")]
                         [Completion (lit "DROP TABLE users")] [])
                      (lit "remove every user")
                      (snd (console_print (Text (lit "
[cyan]Generating SQL query...[/cyan]")) demo_world))))
              (lit "remove every user") (lit "DROP TABLE users") (lit "Y")
              ltac:(vm_compute; reflexivity) eq_refl
              ltac:(vm_compute; reflexivity))
    as [w' [rest [H1 H2]]].
  exists w', rest. split; [exact H1|]. rewrite H2.
  apply in_or_app. right. cbn. tauto.
Defined.

(* ===================================================================== *)
(** ** Filling in the embeddings *)
(* ===================================================================== *)

Lemma set_documents_same (t : tables) : set_documents t (documents t) = t.
Proof. destruct t. reflexivity. Qed.

Lemma backfilled_nil (E : env) (d : document) : backfilled E [] d = d.
Proof. reflexivity. Qed.

Lemma backfilled_cons (E : env) (u : document) (todo : list document)
    (d : document) :
  backfilled E (u :: todo) d
  = backfilled E todo
      (update_embedding (doc_id u) (encode E (doc_content u)) d).
Proof. reflexivity. Qed.

Lemma update_embedding_id (key : Z) (v : vec) (d : document) :
  doc_id (update_embedding key v d) = doc_id d.
Proof. unfold update_embedding. destruct (doc_id d =? key)%Z; reflexivity. Qed.

Lemma update_embedding_content (key : Z) (v : vec) (d : document) :
  doc_content (update_embedding key v d) = doc_content d.
Proof. unfold update_embedding. destruct (doc_id d =? key)%Z; reflexivity. Qed.

Lemma update_embedding_keeps (key : Z) (v : vec) (d : document) :
  has_embedding d = true -> has_embedding (update_embedding key v d) = true.
Proof.
  unfold update_embedding. destruct (doc_id d =? key)%Z; [reflexivity|].
  intros H. exact H.
Qed.

Lemma backfilled_id (E : env) (todo : list document) (d : document) :
  doc_id (backfilled E todo d) = doc_id d.
Proof.
  revert d. induction todo as [|u r IH]; intros d; [reflexivity|].
  rewrite backfilled_cons, IH. apply update_embedding_id.
Qed.

Lemma backfilled_content (E : env) (todo : list document) (d : document) :
  doc_content (backfilled E todo d) = doc_content d.
Proof.
  revert d. induction todo as [|u r IH]; intros d; [reflexivity|].
  rewrite backfilled_cons, IH. apply update_embedding_content.
Qed.

Lemma backfilled_keeps (E : env) (todo : list document) (d : document) :
  has_embedding d = true -> has_embedding (backfilled E todo d) = true.
Proof.
  revert d. induction todo as [|u r IH]; intros d H; [exact H|].
  rewrite backfilled_cons. apply IH. apply update_embedding_keeps. exact H.
Qed.

(** A document whose key is among those of [todo] has an embedding once
    the updates for [todo] are made. *)
Lemma backfilled_reached (E : env) (todo : list document) (d : document) :
  In (doc_id d) (map doc_id todo) ->
  has_embedding (backfilled E todo d) = true.
Proof.
  revert d. induction todo as [|u r IH]; intros d H; [destruct H|].
  rewrite backfilled_cons.
  destruct (Z.eqb (doc_id d) (doc_id u)) eqn:Hk.
  - apply backfilled_keeps. unfold update_embedding. rewrite Hk. reflexivity.
  - apply IH. rewrite update_embedding_id.
    destruct H as [H|H]; [|exact H].
    apply Z.eqb_neq in Hk. congruence.
Qed.

(** No key of [todo] is that of [d]: the updates leave [d] alone. *)
Lemma backfilled_missed (E : env) (todo : list document) (d : document) :
  ~ In (doc_id d) (map doc_id todo) -> backfilled E todo d = d.
Proof.
  revert d. induction todo as [|u r IH]; intros d H; [reflexivity|].
  rewrite backfilled_cons.
  assert (Hk : Z.eqb (doc_id d) (doc_id u) = false).
  { apply Z.eqb_neq. intros Heq. apply H. left. symmetry. exact Heq. }
  unfold update_embedding. rewrite Hk. apply IH.
  intros Hin. apply H. right. exact Hin.
Qed.

(** Every document of [todo] with the key of [d] has the text of [d], and
    there is one: the updates give [d] the embedding of its own text. *)
Lemma backfilled_own (E : env) (todo : list document) (d : document) :
  (forall u, In u todo -> doc_id u = doc_id d ->
             doc_content u = doc_content d) ->
  In (doc_id d) (map doc_id todo) ->
  backfilled E todo d = with_embedding d (encode E (doc_content d)).
Proof.
  revert d. induction todo as [|u r IH]; intros d Hsame Hin; [destruct Hin|].
  rewrite backfilled_cons.
  destruct (Z.eqb (doc_id d) (doc_id u)) eqn:Hk.
  - unfold update_embedding. rewrite Hk.
    apply Z.eqb_eq in Hk.
    rewrite (Hsame u (or_introl eq_refl) (eq_sym Hk)).
    destruct (in_dec Z.eq_dec (doc_id d) (map doc_id r)) as [Hr|Hr].
    + rewrite IH.
      * reflexivity.
      * intros u' Hu' Hid. cbn in Hid |- *.
        apply Hsame; [right; exact Hu'|exact Hid].
      * exact Hr.
    + apply backfilled_missed. exact Hr.
  - unfold update_embedding. rewrite Hk.
    apply IH.
    + intros u' Hu' Hid. apply Hsame; [right; exact Hu'|exact Hid].
    + destruct Hin as [Hin|Hin]; [|exact Hin].
      apply Z.eqb_neq in Hk. congruence.
Qed.

Lemma pending_none (docs : list document) :
  forallb has_embedding docs = true ->
  filter (fun d => negb (has_embedding d)) docs = [].
Proof.
  induction docs as [|d r IH]; [reflexivity|].
  cbn. destruct (has_embedding d); [|discriminate].
  cbn. exact IH.
Qed.

Lemma pending_in (t : tables) (d : document) :
  In d (pending t) <-> In d (documents t) /\ has_embedding d = false.
Proof.
  unfold pending. rewrite filter_In.
  destruct (has_embedding d); cbn; intuition congruence.
Qed.

(** With distinct keys, the updates for the pending documents make of
    each stored document what [embedded] says. *)
Lemma backfilled_pending (E : env) (t : tables) (d : document) :
  NoDup (map doc_id (documents t)) ->
  In d (documents t) ->
  backfilled E (pending t) d = embedded E d.
Proof.
  intros Hnd Hd.
  assert (Hinj : forall a b, In a (documents t) -> In b (documents t) ->
                             doc_id a = doc_id b -> a = b).
  { clear Hd d. induction (documents t) as [|x r IH]; intros a b Ha Hb Hid.
    - destruct Ha.
    - inversion Hnd as [|? ? Hx Hr]; subst.
      destruct Ha as [Ha|Ha], Hb as [Hb|Hb].
      + congruence.
      + subst a. exfalso. apply Hx. rewrite Hid. apply in_map. exact Hb.
      + subst b. exfalso. apply Hx. rewrite <- Hid. apply in_map. exact Ha.
      + apply IH; assumption. }
  unfold embedded. destruct (has_embedding d) eqn:He.
  - apply backfilled_missed. intros Hin.
    apply in_map_iff in Hin. destruct Hin as [u [Hid Hu]].
    apply pending_in in Hu. destruct Hu as [Hu Hue].
    rewrite (Hinj u d Hu Hd Hid) in Hue. congruence.
  - apply backfilled_own.
    + intros u Hu Hid. apply pending_in in Hu. destruct Hu as [Hu _].
      rewrite (Hinj u d Hu Hd Hid). reflexivity.
    + apply in_map. apply pending_in. split; assumption.
Qed.

Section BackfillFacts.

Variable E : env.
Variable base : str -> option (list param) -> tables -> reply * tables.
Hypothesis Hengine : engine E = documents_engine base.

Lemma server_unembedded (now : Z) (t : tables) :
  server (cosine_distance E) (collate_leb E) (engine E) now
    unembedded_sql None t
  = (Rows (map unembedded_row (pending t)), t).
Proof.
  rewrite Hengine. unfold server.
  replace (Py.eqb unembedded_sql schema_sql) with false
    by (vm_compute; reflexivity).
  replace (Py.eqb unembedded_sql insert_chat_sql) with false
    by (vm_compute; reflexivity).
  replace (Py.eqb unembedded_sql history_sql) with false
    by (vm_compute; reflexivity).
  replace (Py.eqb unembedded_sql search_sql) with false
    by (vm_compute; reflexivity).
  unfold documents_engine. rewrite eqb_refl. reflexivity.
Qed.

Lemma server_update_embedding (now : Z) (v : vec) (key : Z) (t : tables) :
  server (cosine_distance E) (collate_leb E) (engine E) now
    update_embedding_sql (Some [PVec v; PInt key]) t
  = (Count (Z.of_nat
              (List.length
                 (filter (fun d => (doc_id d =? key)%Z) (documents t)))),
     set_documents t (map (update_embedding key v) (documents t))).
Proof.
  rewrite Hengine. unfold server.
  replace (Py.eqb update_embedding_sql schema_sql) with false
    by (vm_compute; reflexivity).
  replace (Py.eqb update_embedding_sql insert_chat_sql) with false
    by (vm_compute; reflexivity).
  replace (Py.eqb update_embedding_sql history_sql) with false
    by (vm_compute; reflexivity).
  replace (Py.eqb update_embedding_sql search_sql) with false
    by (vm_compute; reflexivity).
  unfold documents_engine.
  replace (Py.eqb update_embedding_sql unembedded_sql) with false
    by (vm_compute; reflexivity).
  rewrite eqb_refl. reflexivity.
Qed.

(** The statement that one turn of the loop sends for [d]. *)
Lemma embed_one_sends (d : document) (w : world) :
  embed_one E (unembedded_row d) w
  = (execute_query E update_embedding_sql
       (Some [PVec (encode E (doc_content d)); PInt (doc_id d)]) ;;
     ret tt)
      (snd (emit (Encoded (doc_content d)) w)).
Proof. reflexivity. Qed.

(** One turn of the loop, the server answering. *)
Lemma embed_one_run (d : document) (w : world) :
  fault E (statements w) = None ->
  exists w' : world,
    embed_one E (unembedded_row d) w = (Ok tt, w')
    /\ statements w' = S (statements w)
    /\ committed (conn w') = working (conn w')
    /\ working (conn w')
       = set_documents (working (conn w))
           (map (update_embedding (doc_id d) (encode E (doc_content d)))
              (documents (working (conn w)))).
Proof.
  intros Hf. rewrite embed_one_sends. unfold bind.
  erewrite execute_query_count;
    [| exact Hf | apply server_update_embedding].
  eexists. split; [reflexivity|]. cbn. repeat split.
Qed.

(** One turn of the loop, the statement failing. *)
Lemma embed_one_fault (d : document) (w : world) (msg : str) :
  fault E (statements w) = Some msg ->
  exists w' : world,
    embed_one E (unembedded_row d) w
    = (Err (Exception (lit "Query execution failed: " ++ msg)), w')
    /\ committed (conn w') = committed (conn w)
    /\ working (conn w') = committed (conn w).
Proof.
  intros Hf. rewrite embed_one_sends. unfold bind.
  erewrite execute_query_fault; [| exact Hf].
  eexists. split; [reflexivity|]. cbn. repeat split.
Qed.

Lemma set_documents_twice (t : tables) (a b : list document) :
  set_documents (set_documents t a) b = set_documents t b.
Proof. reflexivity. Qed.

(** The loop over [todo], every statement answered. *)
Lemma embed_loop (todo : list document) (w : world) :
  (forall n, (statements w <= n < statements w + List.length todo)%nat ->
             fault E n = None) ->
  exists w' : world,
    mapM (embed_one E) (map unembedded_row todo) w
    = (Ok (map (fun _ => tt) todo), w')
    /\ statements w' = (statements w + List.length todo)%nat
    /\ working (conn w')
       = set_documents (working (conn w))
           (map (backfilled E todo) (documents (working (conn w))))
    /\ (todo <> [] -> committed (conn w') = working (conn w'))
    /\ (todo = [] -> w' = w).
Proof.
  revert w. induction todo as [|d r IH]; intros w Hf.
  - exists w. cbn. rewrite Nat.add_0_r, map_id, set_documents_same.
    repeat split. intros H. exfalso. apply H. reflexivity.
  - destruct (embed_one_run d w) as [w1 [H1 [Hs1 [Hc1 Hw1]]]].
    { apply Hf. cbn. lia. }
    destruct (IH w1) as [w2 [H2 [Hs2 [Hw2 [Hc2 Hn2]]]]].
    { intros n Hn. apply Hf. cbn. lia. }
    exists w2. cbn [map mapM]. unfold bind at 1. rewrite H1.
    unfold bind. rewrite H2. split; [reflexivity|].
    split; [cbn; lia|].
    split.
    { rewrite Hw2, Hw1. cbn [documents set_documents].
      unfold set_documents. cbn. rewrite map_map. reflexivity. }
    split; [|discriminate].
    intros _. destruct r as [|d' r'].
    + rewrite (Hn2 eq_refl). exact Hc1.
    + apply Hc2. discriminate.
Qed.

(** The loop over [done ++ d :: rest], the statement for [d] failing. *)
Lemma embed_loop_fault (done rest : list document) (d : document)
    (w : world) (msg : str) :
  committed (conn w) = working (conn w) ->
  (forall n, (statements w <= n < statements w + List.length done)%nat ->
             fault E n = None) ->
  fault E (statements w + List.length done) = Some msg ->
  exists w' : world,
    mapM (embed_one E) (map unembedded_row (done ++ d :: rest)) w
    = (Err (Exception (lit "Query execution failed: " ++ msg)), w')
    /\ committed (conn w') = working (conn w')
    /\ working (conn w')
       = set_documents (working (conn w))
           (map (backfilled E done) (documents (working (conn w)))).
Proof.
  revert w. induction done as [|u r IH]; intros w Hclean Hf Hm.
  - cbn in Hm. rewrite Nat.add_0_r in Hm.
    destruct (embed_one_fault d w msg Hm) as [w1 [H1 [Hc1 Hw1]]].
    exists w1. cbn [app map mapM]. unfold bind at 1. rewrite H1.
    split; [reflexivity|]. split; [congruence|].
    rewrite Hw1, Hclean. cbn [backfilled fold_left].
    rewrite map_id, set_documents_same. reflexivity.
  - destruct (embed_one_run u w) as [w1 [H1 [Hs1 [Hc1 Hw1]]]].
    { apply Hf. cbn. lia. }
    destruct (IH w1) as [w2 [H2 [Hc2 Hw2]]].
    { exact Hc1. }
    { intros n Hn. apply Hf. cbn. lia. }
    { rewrite Hs1. cbn in Hm. rewrite <- Hm. f_equal. lia. }
    exists w2. cbn [app map mapM]. unfold bind at 1. rewrite H1.
    unfold bind. cbn [app map] in H2. rewrite H2.
    split; [reflexivity|]. split; [exact Hc2|].
    rewrite Hw2, Hw1. unfold set_documents. cbn. rewrite map_map.
    reflexivity.
Qed.

(** [embed_documents] up to its loop. *)
Lemma embed_documents_start (w : world) :
  fault E (statements w) = None ->
  exists w1 : world,
    (init_embedding_model E ;; execute_query E unembedded_sql None) w
    = (Ok (map unembedded_row (pending (working (conn w)))), w1)
    /\ conn w1 = conn w
    /\ statements w1 = S (statements w).
Proof.
  intros Hf. unfold bind, init_embedding_model.
  destruct (embedding_model w) eqn:Hm.
  - erewrite execute_query_rows; [| exact Hf | apply server_unembedded].
    eexists. split; [reflexivity|]. cbn. rewrite conn_eta. split; reflexivity.
  - unfold console_print, emit, bind. cbv beta iota.
    erewrite execute_query_rows; [| exact Hf | apply server_unembedded].
    eexists. split; [reflexivity|]. cbn. rewrite conn_eta. split; reflexivity.
Qed.

End BackfillFacts.

Lemma backfilled_all (E : env) (t : tables) :
  forallb has_embedding (map (backfilled E (pending t)) (documents t)) = true.
Proof.
  apply forallb_forall. intros x Hx.
  apply in_map_iff in Hx. destruct Hx as [d [<- Hd]].
  destruct (has_embedding d) eqn:He.
  - apply backfilled_keeps. exact He.
  - apply backfilled_reached. apply in_map. apply pending_in.
    split; assumption.
Qed.

Lemma embed_documents_split (E : env) (w : world) :
  embed_documents E w
  = bind (init_embedding_model E ;; execute_query E unembedded_sql None)
      (fun docs =>
         match docs with
         | [] => ret tt
         | _ =>
             console_print
               (Text (lit "[yellow]Generating embeddings for "
                      ++ of_nat (List.length docs)
                      ++ lit " documents...[/yellow]")) ;;
             mapM (embed_one E) docs ;;
             commit ;;
             console_print
               (Text (lit "[green]" ++ check_mark
                      ++ lit " Embeddings generated[/green]"))
         end) w.
Proof.
  unfold embed_documents, bind.
  destruct (init_embedding_model E w) as [[[]|e] w0]; reflexivity.
Qed.

(** [embed_documents], every statement answered. *)
Lemma embed_documents_run (E : env)
    (base : str -> option (list param) -> tables -> reply * tables)
    (w : world) :
  engine E = documents_engine base ->
  (forall n, fault E n = None) ->
  exists w' : world,
    embed_documents E w = (Ok tt, w')
    /\ working (conn w')
       = set_documents (working (conn w))
           (map (backfilled E (pending (working (conn w))))
              (documents (working (conn w))))
    /\ statements w'
       = S (statements w + List.length (pending (working (conn w))))
    /\ (pending (working (conn w)) <> [] ->
        committed (conn w') = working (conn w'))
    /\ (pending (working (conn w)) = [] -> conn w' = conn w).
Proof.
  intros Heng Hf.
  destruct (embed_documents_start E base Heng w (Hf _))
    as [w1 [H1 [Hc1 Hs1]]].
  rewrite embed_documents_split. unfold bind at 1. rewrite H1.
  destruct (pending (working (conn w))) as [|d r] eqn:Hp.
  - exists w1. cbn [map]. split; [reflexivity|].
    rewrite Hc1. cbn [backfilled fold_left List.length].
    rewrite map_id, set_documents_same, Nat.add_0_r.
    repeat split; try assumption. intros H. exfalso. apply H. reflexivity.
  - cbn [map].
    set (note := Text _).
    destruct (embed_loop E base Heng (d :: r) (snd (console_print note w1)))
      as [w2 [H2 [Hs2 [Hw2 [Hc2 _]]]]].
    { intros n _. apply Hf. }
    cbn [map] in H2.
    unfold bind at 1.
    replace (console_print note w1)
      with (Ok tt, snd (console_print note w1)) by reflexivity.
    cbv beta iota. unfold bind at 1. rewrite H2.
    eexists. split; [reflexivity|].
    cbn [snd fst conn working committed statements commit bind ret set_conn
         emit console_print].
    cbn in Hw2, Hs2, Hc2 |- *.
    rewrite Hc1 in Hw2. rewrite Hs1 in Hs2.
    split; [exact Hw2|]. split; [lia|].
    split; [reflexivity|]. discriminate.
Qed.

(** With a server that gives the two statements of [embed_documents] their
    meaning and answers every statement, [embed_documents] returns after
    one [SELECT] and one [UPDATE] for each document that had no embedding;
    afterwards no document is without one, the keys and the texts of the
    documents are what they were, the other tables are untouched, and
    what was done is committed. *)
Theorem embed_documents_leaves_none_pending (E : env)
    (base : str -> option (list param) -> tables -> reply * tables)
    (w : world) :
  engine E = documents_engine base ->
  (forall n, fault E n = None) ->
  exists w' : world,
    embed_documents E w = (Ok tt, w')
    /\ pending (working (conn w')) = []
    /\ map doc_id (documents (working (conn w')))
       = map doc_id (documents (working (conn w)))
    /\ map doc_content (documents (working (conn w')))
       = map doc_content (documents (working (conn w)))
    /\ working (conn w')
       = set_documents (working (conn w)) (documents (working (conn w')))
    /\ statements w'
       = S (statements w + List.length (pending (working (conn w))))
    /\ (pending (working (conn w)) <> [] ->
        committed (conn w') = working (conn w')).
Proof.
  intros Heng Hf.
  destruct (embed_documents_run E base w Heng Hf)
    as [w' [Hrun [Hw [Hs [Hc _]]]]].
  exists w'. split; [exact Hrun|].
  rewrite Hw. cbn [documents set_documents].
  split.
  { unfold pending. cbn [documents]. apply pending_none.
    apply backfilled_all. }
  split.
  { rewrite map_map. apply map_ext. intros d. apply backfilled_id. }
  split.
  { rewrite map_map. apply map_ext. intros d. apply backfilled_content. }
  split; [reflexivity|].
  split; [exact Hs|].
  intros Hp. rewrite (Hc Hp). exact Hw.
Qed.

Lemma embed_documents_leaves_none_pending_witness :
  exists w' : world,
    embed_documents (draft_env []) draft_world = (Ok tt, w')
    /\ pending (working (conn w')) = []
    /\ map doc_id (documents (working (conn w')))
       = map doc_id (documents (working (conn draft_world)))
    /\ map doc_content (documents (working (conn w')))
       = map doc_content (documents (working (conn draft_world)))
    /\ working (conn w')
       = set_documents (working (conn draft_world))
           (documents (working (conn w')))
    /\ statements w'
       = S (statements draft_world
            + List.length (pending (working (conn draft_world))))
    /\ (pending (working (conn draft_world)) <> [] ->
        committed (conn w') = working (conn w')).
Proof.
  apply (embed_documents_leaves_none_pending (draft_env []) demo_engine
           draft_world eq_refl).
  intros n. destruct n; reflexivity.
Defined.

(** Under the same conditions, when the keys of the documents are
    distinct: a document that had an embedding keeps it, and a document
    that had none gets the encoding of its own text. *)
Theorem embed_documents_embeds_own_text (E : env)
    (base : str -> option (list param) -> tables -> reply * tables)
    (w : world) :
  engine E = documents_engine base ->
  (forall n, fault E n = None) ->
  NoDup (map doc_id (documents (working (conn w)))) ->
  exists w' : world,
    embed_documents E w = (Ok tt, w')
    /\ documents (working (conn w'))
       = map (embedded E) (documents (working (conn w))).
Proof.
  intros Heng Hf Hnd.
  destruct (embed_documents_run E base w Heng Hf)
    as [w' [Hrun [Hw _]]].
  exists w'. split; [exact Hrun|].
  rewrite Hw. cbn [documents set_documents].
  apply map_ext_in. intros d Hd. apply backfilled_pending; assumption.
Qed.

Lemma embed_documents_embeds_own_text_witness :
  exists w' : world,
    embed_documents (draft_env []) draft_world = (Ok tt, w')
    /\ documents (working (conn w'))
       = map (embedded (draft_env []))
           (documents (working (conn draft_world))).
Proof.
  apply (embed_documents_embeds_own_text (draft_env []) demo_engine
           draft_world eq_refl).
  - intros n. destruct n; reflexivity.
  - cbn. repeat constructor; cbn; intuition discriminate.
Defined.

(** [embed_documents] has no handler of its own and every [UPDATE] is
    committed as it is made: when, from a connection without open changes,
    the [UPDATE] for one pending document fails, the failure of
    [execute_query] leaves [embed_documents], and the updates for the
    documents before that one stay made and committed. *)
Theorem embed_documents_failure_keeps_progress (E : env)
    (base : str -> option (list param) -> tables -> reply * tables)
    (w : world) (done rest : list document) (d : document) (msg : str) :
  engine E = documents_engine base ->
  committed (conn w) = working (conn w) ->
  pending (working (conn w)) = done ++ d :: rest ->
  (forall n, (statements w <= n <= statements w + List.length done)%nat ->
             fault E n = None) ->
  fault E (S (statements w + List.length done)) = Some msg ->
  exists w' : world,
    embed_documents E w
    = (Err (Exception (lit "Query execution failed: " ++ msg)), w')
    /\ committed (conn w') = working (conn w')
    /\ working (conn w')
       = set_documents (working (conn w))
           (map (backfilled E done) (documents (working (conn w)))).
Proof.
  intros Heng Hclean Hp Hf Hm.
  destruct (embed_documents_start E base Heng w) as [w1 [H1 [Hc1 Hs1]]].
  { apply Hf. lia. }
  rewrite embed_documents_split. unfold bind at 1. rewrite H1, Hp.
  destruct (embed_loop_fault E base Heng done rest d
              (snd (console_print
                      (Text (lit "[yellow]Generating embeddings for "
                             ++ of_nat
                                  (List.length
                                     (map unembedded_row (done ++ d :: rest)))
                             ++ lit " documents...[/yellow]")) w1))
              msg)
    as [w2 [H2 [Hc2 Hw2]]].
  { cbn. rewrite Hc1. exact Hclean. }
  { intros n Hn. cbn in Hn. apply Hf. lia. }
  { cbn. rewrite Hs1. exact Hm. }
  exists w2.
  destruct (map unembedded_row (done ++ d :: rest)) as [|x xs] eqn:Hrows.
  { destruct done; discriminate Hrows. }
  unfold bind at 1.
  match goal with
  | |- context [console_print ?n w1] =>
      replace (console_print n w1) with (Ok tt, snd (console_print n w1))
        by reflexivity
  end.
  cbv beta iota. unfold bind at 1. rewrite H2.
  split; [reflexivity|]. split; [exact Hc2|].
  cbn in Hw2. rewrite Hc1 in Hw2. exact Hw2.
Qed.

Lemma embed_documents_failure_keeps_progress_witness :
  exists w' : world,
    embed_documents (draft_env [None; None; Some (lit "connection lost")])
      draft_world
    = (Err (Exception (lit "Query execution failed: "
                       ++ lit "connection lost")), w')
    /\ committed (conn w') = working (conn w')
    /\ working (conn w')
       = set_documents (working (conn draft_world))
           (map (backfilled
                   (draft_env [None; None; Some (lit "connection lost")])
                   [ {| doc_id := 2;
                        doc_content := lit "Draft, not yet indexed";
                        doc_metadata := VNone; doc_embedding := None |} ])
              (documents (working (conn draft_world)))).
Proof.
  apply (embed_documents_failure_keeps_progress
           (draft_env [None; None; Some (lit "connection lost")])
           demo_engine draft_world
           [ {| doc_id := 2; doc_content := lit "Draft, not yet indexed";
                doc_metadata := VNone; doc_embedding := None |} ]
           []
           {| doc_id := 3; doc_content := lit "Returns within 30 days";
              doc_metadata := VNone; doc_embedding := None |}
           (lit "connection lost") eq_refl eq_refl).
  - vm_compute. reflexivity.
  - intros n Hn. cbn in Hn.
    destruct n as [|[|n]]; [reflexivity|reflexivity|lia].
  - reflexivity.
Defined.

(** Once [embed_documents] has run, a search reaches every document: it
    returns [top_k] rows, or as many as there are documents when they are
    fewer. *)
Theorem search_after_embedding_reaches_all (E : env)
    (base : str -> option (list param) -> tables -> reply * tables)
    (w : world) (query : str) (top_k : Z) :
  engine E = documents_engine base ->
  (forall n, fault E n = None) ->
  (0 <= top_k)%Z ->
  exists (w1 w2 : world) (rows : list row),
    embed_documents E w = (Ok tt, w1)
    /\ search_documents E query top_k w1 = (Ok rows, w2)
    /\ List.length rows
       = Nat.min (Z.to_nat top_k)
           (List.length (documents (working (conn w)))).
Proof.
  intros Heng Hf Hk.
  destruct (embed_documents_run E base w Heng Hf)
    as [w1 [Hrun [Hw _]]].
  destruct (search_documents_run E w1 query top_k Hk (Hf _))
    as [w2 [Hsearch _]].
  exists w1, w2. eexists. split; [exact Hrun|]. split; [exact Hsearch|].
  rewrite length_map. unfold select_documents.
  rewrite length_firstn. f_equal.
  rewrite (Permutation_length (order_by_perm _ _ _)).
  rewrite Hw. cbn [documents set_documents].
  assert (Hall : forall l, forallb has_embedding l = true ->
                           filter has_embedding l = l).
  { induction l as [|x r IH]; [reflexivity|].
    cbn. destruct (has_embedding x); [|discriminate].
    cbn. intros H. rewrite (IH H). reflexivity. }
  rewrite Hall by apply backfilled_all.
  apply length_map.
Qed.

Lemma search_after_embedding_reaches_all_witness :
  exists (w1 w2 : world) (rows : list row),
    embed_documents (draft_env []) draft_world = (Ok tt, w1)
    /\ search_documents (draft_env []) (lit "returns") 5 w1 = (Ok rows, w2)
    /\ List.length rows
       = Nat.min (Z.to_nat 5)
           (List.length (documents (working (conn draft_world)))).
Proof.
  apply (search_after_embedding_reaches_all (draft_env []) demo_engine
           draft_world (lit "returns") 5 eq_refl).
  - intros n. destruct n; reflexivity.
  - lia.
Defined.

(* ===================================================================== *)
(** ** The configuration loader *)
(* ===================================================================== *)

Lemma get_cached (S : Config.sources) (self : Config.ConfigLoader)
    (key : str) (default env_var : option str) (v : str) :
  Config.cache_get (Config._cache self) key = Some v ->
  Config.get S self key default env_var = (Some v, self).
Proof. intros H. unfold Config.get. rewrite H. reflexivity. Qed.

Lemma cache_set_get (self : Config.ConfigLoader) (key v : str) :
  Config.cache_get (Config._cache (Config.cache_set self key v)) key = Some v.
Proof. cbn. rewrite eqb_refl. reflexivity. Qed.

(** What [get] returns is in the cache afterwards. *)
Lemma get_caches (S : Config.sources) (self self1 : Config.ConfigLoader)
    (key : str) (default env_var : option str) (v : str) :
  Config.get S self key default env_var = (Some v, self1) ->
  Config.cache_get (Config._cache self1) key = Some v.
Proof.
  unfold Config.get.
  destruct (Config.cache_get (Config._cache self) key) as [v0|] eqn:Hc.
  { intros H. injection H as <- <-. exact Hc. }
  destruct (if Config.use_keyring self then Config.keyring_value S self key
            else None) as [[|c r]|];
    try (intros H; injection H as <- <-; apply cache_set_get);
    (destruct (Config.getenv S (Config.env_key S key env_var)) as [[|c' r']|];
     try (intros H; injection H as <- <-; apply cache_set_get);
     (destruct default as [d|];
      [intros H; injection H as <- <-; apply cache_set_get
      |intros H; discriminate H])).
Qed.

(** [get] changes the loader by one entry at most, under its own key and
    only when that key had none. *)
Lemma get_loader (S : Config.sources) (self : Config.ConfigLoader)
    (key : str) (default env_var : option str) :
  snd (Config.get S self key default env_var) = self
  \/ (Config.cache_get (Config._cache self) key = None
      /\ exists v,
           fst (Config.get S self key default env_var) = Some v
           /\ snd (Config.get S self key default env_var)
              = Config.cache_set self key v).
Proof.
  unfold Config.get.
  destruct (Config.cache_get (Config._cache self) key) as [v0|] eqn:Hc.
  { left. reflexivity. }
  destruct (if Config.use_keyring self then Config.keyring_value S self key
            else None) as [[|c r]|];
    try (right; split; [reflexivity|]; eexists; split; reflexivity);
    (destruct (Config.getenv S (Config.env_key S key env_var)) as [[|c' r']|];
     try (right; split; [reflexivity|]; eexists; split; reflexivity);
     (destruct default as [d|];
      [right; split; [reflexivity|]; eexists; split; reflexivity
      |left; reflexivity])).
Qed.

(** An entry of the cache outlives every call. *)
Lemma get_keeps (S : Config.sources) (self : Config.ConfigLoader)
    (key : str) (default env_var : option str) (k v : str) :
  Config.cache_get (Config._cache self) k = Some v ->
  Config.cache_get
    (Config._cache (snd (Config.get S self key default env_var))) k = Some v.
Proof.
  intros Hk.
  destruct (get_loader S self key default env_var) as [->|[Hnone [v' [_ ->]]]];
    [exact Hk|].
  cbn. destruct (Py.eqb key k) eqn:He; [|exact Hk].
  apply eqb_eq in He. subst k. congruence.
Qed.

Lemma gets_keeps (calls : list Config.call) (self : Config.ConfigLoader)
    (k v : str) :
  Config.cache_get (Config._cache self) k = Some v ->
  Config.cache_get (Config._cache (Config.gets self calls)) k = Some v.
Proof.
  revert self. induction calls as [|c r IH]; intros self H; [exact H|].
  cbn. apply IH. apply get_keeps. exact H.
Qed.

(** A value that [get] has returned for a key is the value of that key
    for the rest of the loader's life: every later call for the key
    returns it and changes nothing, whatever the keyring and the
    environment hold by then, and whatever default and variable name the
    call passes.  A default that has been returned once is thus returned
    for ever, also to [require]. *)
Theorem returned_value_is_final :
  forall (S : Config.sources) (self self1 : Config.ConfigLoader)
         (key : str) (default env_var : option str) (v : str),
    Config.get S self key default env_var = (Some v, self1) ->
    forall (calls : list Config.call) (S' : Config.sources)
           (default' env_var' : option str),
      Config.get S' (Config.gets self1 calls) key default' env_var'
      = (Some v, Config.gets self1 calls)
      /\ Config.require S' (Config.gets self1 calls) key env_var'
         = (Config.Found v, Config.gets self1 calls).
Proof.
  intros S self self1 key default env_var v H calls S' default' env_var'.
  assert (Hc : Config.cache_get
                 (Config._cache (Config.gets self1 calls)) key = Some v).
  { apply gets_keeps. apply (get_caches S self self1 key default env_var).
    exact H. }
  split.
  - apply get_cached. exact Hc.
  - unfold Config.require. rewrite (get_cached S' _ key None env_var' v Hc).
    reflexivity.
Qed.

Lemma returned_value_is_final_witness :
  Config.get Config.no_sources
    (Config.gets
       (Config.cache_set (Config.init true Config.SERVICE_NAME true)
          (lit "postgres_db") (lit "cgidb"))
       [ {| Config.call_sources := Config.demo_sources;
            Config.call_key := lit "postgres_host";
            Config.call_default := Some (lit "localhost");
            Config.call_env_var := Some (lit "POSTGRES_HOST") |} ])
    (lit "postgres_db") (Some (lit "other")) None
  = (Some (lit "cgidb"),
     Config.gets
       (Config.cache_set (Config.init true Config.SERVICE_NAME true)
          (lit "postgres_db") (lit "cgidb"))
       [ {| Config.call_sources := Config.demo_sources;
            Config.call_key := lit "postgres_host";
            Config.call_default := Some (lit "localhost");
            Config.call_env_var := Some (lit "POSTGRES_HOST") |} ])
  /\ Config.require Config.no_sources
       (Config.gets
          (Config.cache_set (Config.init true Config.SERVICE_NAME true)
             (lit "postgres_db") (lit "cgidb"))
          [ {| Config.call_sources := Config.demo_sources;
               Config.call_key := lit "postgres_host";
               Config.call_default := Some (lit "localhost");
               Config.call_env_var := Some (lit "POSTGRES_HOST") |} ])
       (lit "postgres_db") None
     = (Config.Found (lit "cgidb"),
        Config.gets
          (Config.cache_set (Config.init true Config.SERVICE_NAME true)
             (lit "postgres_db") (lit "cgidb"))
          [ {| Config.call_sources := Config.demo_sources;
               Config.call_key := lit "postgres_host";
               Config.call_default := Some (lit "localhost");
               Config.call_env_var := Some (lit "POSTGRES_HOST") |} ]).
Proof.
  apply (returned_value_is_final Config.demo_sources
           (Config.init true Config.SERVICE_NAME true)
           (Config.cache_set (Config.init true Config.SERVICE_NAME true)
              (lit "postgres_db") (lit "cgidb"))
           (lit "postgres_db") (Some (lit "cgidb")) (Some (lit "POSTGRES_DB"))
           (lit "cgidb")).
  vm_compute. reflexivity.
Defined.

(** [require] raises exactly when the key is not cached, the keyring (if
    it is used) holds nothing for it, holds the empty string or fails,
    and the environment variable is unset or empty.  It then raises the
    [ValueError] that names the key and the variable, and leaves the
    loader as it was; otherwise it returns a value, which is cached. *)
Theorem require_raises_iff :
  forall (S : Config.sources) (self : Config.ConfigLoader) (key : str)
         (env_var : option str),
    ((exists msg, fst (Config.require S self key env_var)
                  = Config.ValueError msg)
     <-> Config.cache_get (Config._cache self) key = None
         /\ (Config.use_keyring self = true ->
             Config.truthy (Config.keyring_value S self key) = false)
         /\ Config.truthy (Config.getenv S (Config.env_key S key env_var))
            = false)
    /\ (Config.require S self key env_var
        = (Config.ValueError (Config.not_found S key env_var), self)
        \/ exists v,
             fst (Config.require S self key env_var) = Config.Found v
             /\ Config.cache_get
                  (Config._cache (snd (Config.require S self key env_var)))
                  key = Some v).
Proof.
  intros S self key env_var. unfold Config.require, Config.get.
  destruct (Config.cache_get (Config._cache self) key) as [v0|] eqn:Hc.
  { split.
    - split; [intros [msg H]; discriminate H|intros [H _]; discriminate H].
    - right. exists v0. split; [reflexivity|exact Hc]. }
  destruct (Config.use_keyring self) eqn:Hu.
  - destruct (Config.keyring_value S self key) as [[|c r]|] eqn:Hk.
    + destruct (Config.getenv S (Config.env_key S key env_var))
        as [[|c' r']|] eqn:He; cbn.
      * split; [|left; reflexivity].
        split; [intros _; repeat split|intros _; eexists; reflexivity].
      * split.
        -- split; [intros [msg H]; discriminate H
                  |intros [_ [_ H]]; discriminate H].
        -- right. eexists. split; [reflexivity|]. cbn.
           rewrite eqb_refl. reflexivity.
      * split; [|left; reflexivity].
        split; [intros _; repeat split|intros _; eexists; reflexivity].
    + cbn. split.
      * split; [intros [msg H]; discriminate H|].
        intros [_ [H _]]. specialize (H eq_refl). discriminate H.
      * right. eexists. split; [reflexivity|]. cbn.
        rewrite eqb_refl. reflexivity.
    + destruct (Config.getenv S (Config.env_key S key env_var))
        as [[|c' r']|] eqn:He; cbn.
      * split; [|left; reflexivity].
        split; [intros _; repeat split|intros _; eexists; reflexivity].
      * split.
        -- split; [intros [msg H]; discriminate H
                  |intros [_ [_ H]]; discriminate H].
        -- right. eexists. split; [reflexivity|]. cbn.
           rewrite eqb_refl. reflexivity.
      * split; [|left; reflexivity].
        split; [intros _; repeat split|intros _; eexists; reflexivity].
  - destruct (Config.getenv S (Config.env_key S key env_var))
      as [[|c' r']|] eqn:He; cbn.
    + split; [|left; reflexivity].
      split; [intros _; repeat split; intros H; discriminate H
             |intros _; eexists; reflexivity].
    + split.
      * split; [intros [msg H]; discriminate H
               |intros [_ [_ H]]; discriminate H].
      * right. eexists. split; [reflexivity|]. cbn.
        rewrite eqb_refl. reflexivity.
    + split; [|left; reflexivity].
      split; [intros _; repeat split; intros H; discriminate H
             |intros _; eexists; reflexivity].
Qed.

Lemma get_nonempty (S : Config.sources) (self : Config.ConfigLoader)
    (key : str) (default env_var : option str) :
  Forall (fun p => snd p <> []) (Config._cache self) ->
  default <> Some [] ->
  fst (Config.get S self key default env_var) <> Some []
  /\ Forall (fun p => snd p <> [])
       (Config._cache (snd (Config.get S self key default env_var))).
Proof.
  intros Hinv Hd.
  assert (Hlook : forall cache k,
             Forall (fun p : str * str => snd p <> []) cache ->
             Config.cache_get cache k <> Some []).
  { induction cache as [|[k0 v0] r IH]; intros k Hall; [discriminate|].
    inversion Hall as [|? ? Hv Hr]; subst. cbn.
    destruct (Py.eqb k0 k).
    - cbn in Hv. congruence.
    - apply IH. exact Hr. }
  destruct (get_loader S self key default env_var)
    as [Hsame|[Hnone [v [Hv Hset]]]].
  - rewrite Hsame. split; [|exact Hinv].
    unfold Config.get in *.
    destruct (Config.cache_get (Config._cache self) key) as [v0|] eqn:Hc.
    { cbn. rewrite <- Hc. apply Hlook. exact Hinv. }
    destruct (if Config.use_keyring self
              then Config.keyring_value S self key else None)
      as [[|c r]|]; try discriminate;
      (destruct (Config.getenv S (Config.env_key S key env_var))
         as [[|c' r']|]; try discriminate;
       (destruct default as [d|]; [cbn; exact Hd|discriminate])).
  - assert (Hne : v <> []).
    { unfold Config.get in Hv. rewrite Hnone in Hv.
      destruct (if Config.use_keyring self
                then Config.keyring_value S self key else None)
        as [[|c r]|]; try (cbn in Hv; injection Hv as <-; discriminate);
        (destruct (Config.getenv S (Config.env_key S key env_var))
           as [[|c' r']|];
         try (cbn in Hv; injection Hv as <-; discriminate);
         (destruct default as [d|]; cbn in Hv;
          [injection Hv as <-; intros ->; apply Hd; reflexivity
          |discriminate Hv])). }
    rewrite Hv, Hset. split; [congruence|].
    cbn. constructor; [exact Hne|exact Hinv].
Qed.

(** The empty string counts as no setting: a loader that starts with an
    empty cache and is never given the empty string as a default never
    returns the empty string, whatever the keyring and the environment
    hold. *)
Theorem empty_setting_is_never_returned :
  forall (available : bool) (name : str) (keyring : bool)
         (calls : list Config.call),
    Forall (fun c => Config.call_default c <> Some []) calls ->
    Forall (fun r => r <> Some [])
      (Config.got (Config.init available name keyring) calls).
Proof.
  intros available name keyring calls.
  assert (Hgen : forall self,
             Forall (fun p : str * str => snd p <> []) (Config._cache self) ->
             Forall (fun c => Config.call_default c <> Some []) calls ->
             Forall (fun r => r <> Some []) (Config.got self calls)).
  { induction calls as [|c r IH]; intros self Hinv Hd; [constructor|].
    inversion Hd as [|? ? Hc Hr]; subst.
    destruct (get_nonempty (Config.call_sources c) self (Config.call_key c)
                (Config.call_default c) (Config.call_env_var c) Hinv Hc)
      as [H1 H2].
    cbn. constructor; [exact H1|]. apply IH; assumption. }
  apply Hgen. constructor.
Qed.

Lemma empty_setting_is_never_returned_witness :
  Forall (fun r => r <> Some [])
    (Config.got (Config.init true Config.SERVICE_NAME true)
       [ {| Config.call_sources := Config.demo_sources;
            Config.call_key := lit "postgres_db";
            Config.call_default := Some (lit "cgidb");
            Config.call_env_var := Some (lit "POSTGRES_DB") |};
         {| Config.call_sources := Config.demo_sources;
            Config.call_key := lit "model_file";
            Config.call_default := None;
            Config.call_env_var := Some (lit "MODEL_FILE") |} ]).
Proof.
  apply (empty_setting_is_never_returned true Config.SERVICE_NAME true).
  repeat constructor; cbn; discriminate.
Defined.

(* ===================================================================== *)
(** ** The credential script *)
(* ===================================================================== *)

Lemma same_entry_spec (service username : str) (e : (str * str) * str) :
  Credentials.same_entry service username e = true
  <-> fst e = (service, username).
Proof.
  destruct e as [[sv un] v]. unfold Credentials.same_entry. cbn [fst snd].
  rewrite andb_true_iff, !eqb_eq. split.
  - intros [-> ->]. reflexivity.
  - intros H. injection H as -> ->. split; reflexivity.
Qed.

Lemma same_names_spec (service username service' username' : str) :
  (Py.eqb service service' && Py.eqb username username')%bool = true
  <-> (service, username) = (service', username').
Proof.
  rewrite andb_true_iff, !eqb_eq. split.
  - intros [-> ->]. reflexivity.
  - intros H. injection H as -> ->. split; reflexivity.
Qed.

Lemma password_without (s : Credentials.store)
    (service username service' username' : str) :
  Credentials.password (Credentials.without s service username)
    service' username'
  = if (Py.eqb service service' && Py.eqb username username')%bool
    then None
    else Credentials.password s service' username'.
Proof.
  unfold Credentials.password, Credentials.without.
  induction s as [|e r IH].
  - cbn. destruct (_ && _)%bool; reflexivity.
  - cbn [filter find].
    destruct (Credentials.same_entry service username e) eqn:H1;
      cbn [negb].
    + rewrite IH.
      destruct (Py.eqb service service' && Py.eqb username username')%bool
        eqn:Hc; [reflexivity|].
      destruct (Credentials.same_entry service' username' e) eqn:H2;
        [|reflexivity].
      apply same_entry_spec in H1, H2.
      assert (Heq : (service, username) = (service', username'))
        by congruence.
      apply same_names_spec in Heq. congruence.
    + cbn [find].
      destruct (Credentials.same_entry service' username' e) eqn:H2;
        [|exact IH].
      destruct (Py.eqb service service' && Py.eqb username username')%bool
        eqn:Hc; [|reflexivity].
      apply same_names_spec in Hc. apply same_entry_spec in H2.
      assert (H3 : Credentials.same_entry service username e = true).
      { apply same_entry_spec. congruence. }
      congruence.
Qed.

Lemma password_set (s : Credentials.store)
    (service username value service' username' : str) :
  Credentials.password
    (((service, username), value)
     :: Credentials.without s service username) service' username'
  = if (Py.eqb service service' && Py.eqb username username')%bool
    then Some value
    else Credentials.password s service' username'.
Proof.
  pose proof (password_without s service username service' username') as H.
  unfold Credentials.password in *. cbn [find].
  destruct (Credentials.same_entry service' username'
              (service, username, value)) eqn:H1.
  - apply same_entry_spec in H1. cbn [fst] in H1.
    apply same_names_spec in H1. rewrite H1. reflexivity.
  - destruct (Py.eqb service service' && Py.eqb username username')%bool
      eqn:Hc; [|exact H].
    apply same_names_spec in Hc.
    assert (H2 : Credentials.same_entry service' username'
                   (service, username, value) = true).
    { apply same_entry_spec. exact Hc. }
    congruence.
Qed.

Lemma setup_credentials_loop (kb : nat -> key_reply) (w : Credentials.world) :
  Credentials.setup_credentials kb w
  = match Credentials.for_each (Credentials.setup_one kb)
            Credentials.CREDENTIALS
            {| Credentials.keyring := Credentials.keyring w;
               Credentials.asked := Credentials.asked w;
               Credentials.out := Credentials.out w ++ Credentials.opening |}
    with
    | (Credentials.Returned _, w1) =>
        (Credentials.Returned tt,
         {| Credentials.keyring := Credentials.keyring w1;
            Credentials.asked := Credentials.asked w1;
            Credentials.out := Credentials.out w1 ++ Credentials.closing |})
    | (Credentials.Raised e, w1) => (Credentials.Raised e, w1)
    end.
Proof.
  unfold Credentials.setup_credentials, Credentials.bind at 1 2 3 4 5 6.
  unfold Credentials.print, Credentials.emit. cbv beta iota.
  cbn [Credentials.keyring Credentials.asked Credentials.out].
  unfold Credentials.opening. rewrite <- !app_assoc. cbn [app].
  unfold Credentials.bind at 1.
  destruct (Credentials.for_each _ _ _) as [[[]|e] w1]; [|reflexivity].
  unfold Credentials.bind. cbn.
  unfold Credentials.closing. rewrite <- !app_assoc. reflexivity.
Qed.

(** One turn of the loop of [setup_credentials]: one prompt, and either a
    value that is not empty is stored under the credential's key, or
    nothing is stored and the turn raises. *)
Lemma setup_one_cases (kb : nat -> key_reply) (cred : Credentials.credential)
    (w : Credentials.world) :
  Credentials.asked (snd (Credentials.setup_one kb cred w))
  = S (Credentials.asked w)
  /\ ((exists line,
          kb (Credentials.asked w) = Line line
          /\ Credentials.chosen cred line <> []
          /\ fst (Credentials.setup_one kb cred w) = Credentials.Returned tt
          /\ Credentials.keyring (snd (Credentials.setup_one kb cred w))
             = ((Credentials.SERVICE_NAME, Credentials.key cred),
                Credentials.chosen cred line)
               :: Credentials.without (Credentials.keyring w)
                    Credentials.SERVICE_NAME (Credentials.key cred))
      \/ ((exists e, fst (Credentials.setup_one kb cred w)
                     = Credentials.Raised e)
          /\ (forall line, kb (Credentials.asked w) = Line line ->
                           Credentials.chosen cred line = [])
          /\ Credentials.keyring (snd (Credentials.setup_one kb cred w))
             = Credentials.keyring w)).
Proof.
  unfold Credentials.setup_one, Credentials.bind, Credentials.getpass,
    Credentials.input, Credentials.read, Credentials.chosen.
  destruct (Credentials.secret cred);
    (destruct (kb (Credentials.asked w)) as [line| |] eqn:Hk;
     [ destruct line as [|c r];
       [ destruct (Credentials.default cred) as [[|c' d]|]; cbn;
         (split; [reflexivity|]);
         first [ left; eexists; repeat split; discriminate
               | right; split; [eexists; reflexivity|];
                 split; [intros l Hl; injection Hl as <-; reflexivity
                        |reflexivity] ]
       | cbn; split; [reflexivity|];
         left; exists (c :: r);
         destruct (Credentials.default cred) as [[|c' d]|];
         repeat split; discriminate ]
     | cbn; split; [reflexivity|]; right;
       split; [eexists; reflexivity|];
       split; [intros l Hl; discriminate Hl|reflexivity]
     | cbn; split; [reflexivity|]; right;
       split; [eexists; reflexivity|];
       split; [intros l Hl; discriminate Hl|reflexivity] ]).
Qed.

Lemma for_each_cons {A : Type} (f : A -> Credentials.M unit) (x : A)
    (r : list A) (w : Credentials.world) :
  Credentials.for_each f (x :: r) w
  = match f x w with
    | (Credentials.Returned _, w1) => Credentials.for_each f r w1
    | (Credentials.Raised e, w1) => (Credentials.Raised e, w1)
    end.
Proof. reflexivity. Qed.

(** What the loop of [setup_credentials] does to the keyring, however it
    ends. *)
Lemma setup_loop_stores (kb : nat -> key_reply)
    (creds : list Credentials.credential) (w : Credentials.world)
    (service username : str) :
  Credentials.password
    (Credentials.keyring
       (snd (Credentials.for_each (Credentials.setup_one kb) creds w)))
    service username
  = Credentials.password (Credentials.keyring w) service username
  \/ (service = Credentials.SERVICE_NAME
      /\ In username (map Credentials.key creds)
      /\ exists v,
           Credentials.password
             (Credentials.keyring
                (snd (Credentials.for_each (Credentials.setup_one kb)
                        creds w)))
             service username = Some v
           /\ v <> []).
Proof.
  revert w. induction creds as [|c r IH]; intros w; [left; reflexivity|].
  rewrite for_each_cons.
  destruct (setup_one_cases kb c w)
    as [_ [[line [_ [Hne [Hret Hkey]]]]|[[e He] [_ Hkey]]]].
  - destruct (Credentials.setup_one kb c w) as [[[]|e] w1];
      [|discriminate Hret].
    cbn [snd] in Hkey.
    destruct (IH w1) as [Hsame|[Hs [Hin Hv]]].
    + rewrite Hsame, Hkey, password_set.
      destruct (Py.eqb Credentials.SERVICE_NAME service
                && Py.eqb (Credentials.key c) username)%bool eqn:Hc;
        [|left; reflexivity].
      apply same_names_spec in Hc. injection Hc as <- <-.
      right. split; [reflexivity|]. split; [left; reflexivity|].
      eexists. split; [reflexivity|exact Hne].
    + right. split; [exact Hs|]. split; [right; exact Hin|exact Hv].
  - destruct (Credentials.setup_one kb c w) as [[[]|e'] w1];
      [discriminate He|].
    cbn [snd] in Hkey |- *. rewrite Hkey. left. reflexivity.
Qed.

(** The loop when the user answers every prompt with a line that leaves
    a value. *)
Lemma setup_loop_lines (kb : nat -> key_reply) :
  forall (creds : list Credentials.credential) (lines : list str)
         (w : Credentials.world),
    List.length lines = List.length creds ->
    NoDup (map Credentials.key creds) ->
    (forall i cred line,
        nth_error creds i = Some cred ->
        nth_error lines i = Some line ->
        kb (Credentials.asked w + i) = Line line
        /\ Credentials.chosen cred line <> []) ->
    exists w' : Credentials.world,
      Credentials.for_each (Credentials.setup_one kb) creds w
      = (Credentials.Returned tt, w')
      /\ forall i cred line,
           nth_error creds i = Some cred ->
           nth_error lines i = Some line ->
           Credentials.password (Credentials.keyring w')
             Credentials.SERVICE_NAME (Credentials.key cred)
           = Some (Credentials.chosen cred line).
Proof.
  induction creds as [|c r IH]; intros lines w Hlen Hnd Hkb.
  - exists w. split; [reflexivity|]. intros [|i] cred line H; discriminate H.
  - destruct lines as [|l ls]; [discriminate Hlen|].
    injection Hlen as Hlen. inversion Hnd as [|? ? Hnot Hnd']; subst.
    destruct (Hkb 0 c l eq_refl eq_refl) as [Hk0 Hne0].
    rewrite Nat.add_0_r in Hk0.
    pose proof (setup_loop_stores kb r) as Hframe.
    rewrite for_each_cons.
    destruct (setup_one_cases kb c w)
      as [Hasked [[line [Hline [_ [Hret Hkey]]]]|[_ [Hnone _]]]];
      [|exfalso; apply Hne0; apply Hnone; exact Hk0].
    assert (line = l) by congruence. subst line.
    destruct (Credentials.setup_one kb c w) as [[[]|e] w1];
      [|discriminate Hret].
    cbn [snd] in Hkey, Hasked.
    destruct (IH ls w1 Hlen Hnd') as [w' [Hrun Hfound]].
    { intros i cred line Hc Hl. rewrite Hasked.
      replace (S (Credentials.asked w) + i)
        with (Credentials.asked w + S i) by lia.
      apply Hkb; assumption. }
    exists w'. split; [exact Hrun|].
    intros [|i] cred line Hc Hl.
    + injection Hc as <-. injection Hl as <-.
      specialize (Hframe w1 Credentials.SERVICE_NAME (Credentials.key c)).
      rewrite Hrun in Hframe. cbn [snd] in Hframe.
      destruct Hframe as [Hsame|[_ [Hin _]]]; [|contradiction].
      rewrite Hsame, Hkey, password_set, !eqb_refl. reflexivity.
    + apply (Hfound i); assumption.
Qed.

Lemma credential_defaults (cred : Credentials.credential) :
  In cred Credentials.CREDENTIALS ->
  Credentials.default cred = None
  \/ exists c d, Credentials.default cred = Some (c :: d).
Proof.
  intros H. cbn in H.
  repeat (destruct H as [<-|H];
          [first [left; reflexivity
                 |right; eexists; eexists; reflexivity]|]).
  destruct H.
Qed.

Lemma credential_keys_lower (ext : str -> char -> str -> str)
    (cred : Credentials.credential) :
  In cred Credentials.CREDENTIALS ->
  lower ext (Credentials.key cred) = Credentials.key cred.
Proof.
  intros H. cbn in H.
  repeat (destruct H as [<-|H]; [reflexivity|]).
  destruct H.
Qed.

Lemma credential_keys_NoDup :
  NoDup (map Credentials.key Credentials.CREDENTIALS).
Proof.
  cbn. repeat constructor; cbn; intros H;
    repeat (destruct H as [H|H]; [discriminate H|]); exact H.
Qed.

(** A fresh loader that reads a keyring holding a value that is not
    empty for a key of the script finds that value. *)
Lemma require_reads_keyring (s : Credentials.store) (S : Config.sources)
    (cred : Credentials.credential) (env_var : option str) (v : str) :
  In cred Credentials.CREDENTIALS ->
  Credentials.password s Credentials.SERVICE_NAME (Credentials.key cred)
  = Some v ->
  v <> [] ->
  fst (Config.require (Credentials.reading s S)
         (Config.init true Credentials.SERVICE_NAME true)
         (Credentials.key cred) env_var)
  = Config.Found v.
Proof.
  intros Hin Hp Hv.
  unfold Config.require, Config.get, Config.keyring_value, Config.init,
    Credentials.reading.
  cbn [Config._cache Config.cache_get Config.use_keyring andb
       Config.get_password Config.service_name Config.lower_ext].
  rewrite (credential_keys_lower _ cred Hin), Hp.
  destruct v as [|c r]; [contradiction|]. reflexivity.
Qed.

(** From [setup_credentials] to [ConfigLoader.require].  When the user
    answers the five prompts, typing something where there is no default,
    [setup_credentials] returns, and a fresh loader that reads the
    keyring then finds every credential: what was typed for it, or its
    default where the line was empty.  The environment plays no part. *)
Theorem stored_credentials_are_found :
  forall (kb : nat -> key_reply) (w : Credentials.world) (lines : list str),
    List.length lines = List.length Credentials.CREDENTIALS ->
    (forall i cred line,
        nth_error Credentials.CREDENTIALS i = Some cred ->
        nth_error lines i = Some line ->
        kb (Credentials.asked w + i) = Line line
        /\ (Credentials.default cred = None -> line <> [])) ->
    exists w' : Credentials.world,
      Credentials.setup_credentials kb w = (Credentials.Returned tt, w')
      /\ forall i cred line,
           nth_error Credentials.CREDENTIALS i = Some cred ->
           nth_error lines i = Some line ->
           forall (S : Config.sources) (env_var : option str),
             fst (Config.require
                    (Credentials.reading (Credentials.keyring w') S)
                    (Config.init true Credentials.SERVICE_NAME true)
                    (Credentials.key cred) env_var)
             = Config.Found (Credentials.chosen cred line).
Proof.
  intros kb w lines Hlen Hkb.
  assert (Hchosen : forall i cred line,
             nth_error Credentials.CREDENTIALS i = Some cred ->
             nth_error lines i = Some line ->
             Credentials.chosen cred line <> []).
  { intros i cred line Hc Hl.
    destruct (Hkb i cred line Hc Hl) as [_ Hne].
    unfold Credentials.chosen.
    destruct (credential_defaults cred (nth_error_In _ _ Hc))
      as [Hd|[c [d Hd]]]; rewrite Hd.
    - destruct line; [exfalso; apply (Hne Hd); reflexivity|discriminate].
    - destruct line; discriminate. }
  destruct (setup_loop_lines kb Credentials.CREDENTIALS lines
              {| Credentials.keyring := Credentials.keyring w;
                 Credentials.asked := Credentials.asked w;
                 Credentials.out
                 := Credentials.out w ++ Credentials.opening |}
              Hlen credential_keys_NoDup)
    as [w1 [Hrun Hfound]].
  { intros i cred line Hc Hl. cbn [Credentials.asked].
    split; [apply (Hkb i cred line Hc Hl)|apply (Hchosen i); assumption]. }
  rewrite setup_credentials_loop, Hrun.
  eexists. split; [reflexivity|].
  intros i cred line Hc Hl S env_var. cbn [Credentials.keyring].
  apply require_reads_keyring.
  - apply (nth_error_In _ _ Hc).
  - apply (Hfound i); assumption.
  - apply (Hchosen i); assumption.
Qed.

Lemma stored_credentials_are_found_witness :
  exists w' : Credentials.world,
    Credentials.setup_credentials Credentials.demo_keyboard Credentials.fresh
    = (Credentials.Returned tt, w')
    /\ forall i cred line,
         nth_error Credentials.CREDENTIALS i = Some cred ->
         nth_error [[]; []; []; lit "s3cret"; []] i = Some line ->
         forall (S : Config.sources) (env_var : option str),
           fst (Config.require
                  (Credentials.reading (Credentials.keyring w') S)
                  (Config.init true Credentials.SERVICE_NAME true)
                  (Credentials.key cred) env_var)
           = Config.Found (Credentials.chosen cred line).
Proof.
  apply (stored_credentials_are_found Credentials.demo_keyboard
           Credentials.fresh [[]; []; []; lit "s3cret"; []] eq_refl).
  intros i cred line Hc Hl.
  do 5 (destruct i as [|i];
        [injection Hc as <-; injection Hl as <-;
         split; [reflexivity
               |cbn; intros H; first [discriminate H|discriminate]]|]).
  destruct i; discriminate Hc.
Defined.

(** Whatever the user does, and however [setup_credentials] ends, it
    only writes the keys of the script under the service of the script,
    and never the empty string: any other entry of the keyring is as it
    was. *)
Theorem setup_stores_no_empty_value :
  forall (kb : nat -> key_reply) (w : Credentials.world)
         (service username : str),
    Credentials.password
      (Credentials.keyring (snd (Credentials.setup_credentials kb w)))
      service username
    = Credentials.password (Credentials.keyring w) service username
    \/ (service = Credentials.SERVICE_NAME
        /\ In username (map Credentials.key Credentials.CREDENTIALS)
        /\ exists v,
             Credentials.password
               (Credentials.keyring
                  (snd (Credentials.setup_credentials kb w)))
               service username = Some v
             /\ v <> []).
Proof.
  intros kb w service username.
  pose proof (setup_loop_stores kb Credentials.CREDENTIALS
                {| Credentials.keyring := Credentials.keyring w;
                   Credentials.asked := Credentials.asked w;
                   Credentials.out
                   := Credentials.out w ++ Credentials.opening |}
                service username) as H.
  rewrite setup_credentials_loop.
  destruct (Credentials.for_each _ _ _) as [[[]|e] w1];
    cbn [snd Credentials.keyring] in H |- *; exact H.
Qed.

(** One turn of the loop at two keyboards, from two worlds that show the
    same terminal: when the replies are the same, or are two lines that
    are not empty at a hidden prompt, the turn ends the same way and the
    terminal shows the same. *)
Lemma setup_one_hidden (kb1 kb2 : nat -> key_reply)
    (cred : Credentials.credential) (w1 w2 : Credentials.world) :
  Credentials.asked w1 = Credentials.asked w2 ->
  Credentials.out w1 = Credentials.out w2 ->
  kb1 (Credentials.asked w1) = kb2 (Credentials.asked w1)
  \/ (Credentials.secret cred = true
      /\ exists p1 p2,
           kb1 (Credentials.asked w1) = Line p1
           /\ kb2 (Credentials.asked w1) = Line p2
           /\ p1 <> [] /\ p2 <> []) ->
  fst (Credentials.setup_one kb1 cred w1)
  = fst (Credentials.setup_one kb2 cred w2)
  /\ Credentials.asked (snd (Credentials.setup_one kb1 cred w1))
     = Credentials.asked (snd (Credentials.setup_one kb2 cred w2))
  /\ Credentials.out (snd (Credentials.setup_one kb1 cred w1))
     = Credentials.out (snd (Credentials.setup_one kb2 cred w2)).
Proof.
  intros Ha Ho Hk.
  unfold Credentials.setup_one, Credentials.bind, Credentials.getpass,
    Credentials.input, Credentials.read.
  destruct (Credentials.secret cred) eqn:Hsec; cbv beta;
    rewrite <- Ha, <- Ho;
    (destruct Hk as [Hk|[Hs [p1 [p2 [H1 [H2 [Hn1 Hn2]]]]]]];
     [ rewrite <- Hk;
       destruct (kb1 (Credentials.asked w1)) as [line| |];
       [ destruct line as [|c r];
         [ destruct (Credentials.default cred) as [[|c' d]|]; cbn;
           repeat split
         | cbn; repeat split ]
       | cbn; repeat split
       | cbn; repeat split ]
     | first
         [ discriminate Hs
         | rewrite H1, H2;
           destruct p1 as [|c1 r1]; [contradiction|];
           destruct p2 as [|c2 r2]; [contradiction|];
           cbn; repeat split ] ]).
Qed.

Lemma setup_loop_hidden (kb1 kb2 : nat -> key_reply) :
  forall (creds : list Credentials.credential) (w1 w2 : Credentials.world),
    Credentials.asked w1 = Credentials.asked w2 ->
    Credentials.out w1 = Credentials.out w2 ->
    (forall i,
        kb1 (Credentials.asked w1 + i) = kb2 (Credentials.asked w1 + i)
        \/ exists cred p1 p2,
             nth_error creds i = Some cred
             /\ Credentials.secret cred = true
             /\ kb1 (Credentials.asked w1 + i) = Line p1
             /\ kb2 (Credentials.asked w1 + i) = Line p2
             /\ p1 <> [] /\ p2 <> []) ->
    fst (Credentials.for_each (Credentials.setup_one kb1) creds w1)
    = fst (Credentials.for_each (Credentials.setup_one kb2) creds w2)
    /\ Credentials.asked
         (snd (Credentials.for_each (Credentials.setup_one kb1) creds w1))
       = Credentials.asked
           (snd (Credentials.for_each (Credentials.setup_one kb2) creds w2))
    /\ Credentials.out
         (snd (Credentials.for_each (Credentials.setup_one kb1) creds w1))
       = Credentials.out
           (snd (Credentials.for_each (Credentials.setup_one kb2) creds w2)).
Proof.
  induction creds as [|c r IH]; intros w1 w2 Ha Ho Hk.
  - cbn. repeat split; assumption.
  - rewrite !for_each_cons.
    destruct (setup_one_cases kb1 c w1) as [Hasked _].
    destruct (setup_one_hidden kb1 kb2 c w1 w2 Ha Ho) as [Hf [Ha' Ho']].
    { specialize (Hk 0). rewrite Nat.add_0_r in Hk.
      destruct Hk as [Hk|[cred [p1 [p2 [Hc [Hs H]]]]]]; [left; exact Hk|].
      injection Hc as <-. right. split; [exact Hs|].
      exists p1, p2. exact H. }
    destruct (Credentials.setup_one kb1 c w1) as [[[]|e1] v1],
             (Credentials.setup_one kb2 c w2) as [[[]|e2] v2];
      cbn [fst snd] in Hf, Ha', Ho', Hasked |- *;
      try discriminate Hf.
    + apply IH; [exact Ha'|exact Ho'|].
      intros i. rewrite Hasked.
      replace (S (Credentials.asked w1) + i)
        with (Credentials.asked w1 + S i) by lia.
      destruct (Hk (S i)) as [H|[cred [p1 [p2 [Hc H]]]]]; [left; exact H|].
      right. exists cred, p1, p2. split; [exact Hc|exact H].
    + repeat split; assumption.
Qed.

(** What is typed at a hidden prompt does not reach the terminal.  Two
    users who type the same, except that at the prompt of a secret
    credential each types a password of their own, see the same prompts
    and the same lines printed, and [setup_credentials] ends the same way
    for both. *)
Theorem typed_secret_is_not_shown :
  forall (kb1 kb2 : nat -> key_reply) (w : Credentials.world),
    (forall i,
        kb1 (Credentials.asked w + i) = kb2 (Credentials.asked w + i)
        \/ exists cred p1 p2,
             nth_error Credentials.CREDENTIALS i = Some cred
             /\ Credentials.secret cred = true
             /\ kb1 (Credentials.asked w + i) = Line p1
             /\ kb2 (Credentials.asked w + i) = Line p2
             /\ p1 <> [] /\ p2 <> []) ->
    fst (Credentials.setup_credentials kb1 w)
    = fst (Credentials.setup_credentials kb2 w)
    /\ Credentials.out (snd (Credentials.setup_credentials kb1 w))
       = Credentials.out (snd (Credentials.setup_credentials kb2 w)).
Proof.
  intros kb1 kb2 w Hk.
  destruct (setup_loop_hidden kb1 kb2 Credentials.CREDENTIALS
              {| Credentials.keyring := Credentials.keyring w;
                 Credentials.asked := Credentials.asked w;
                 Credentials.out
                 := Credentials.out w ++ Credentials.opening |}
              {| Credentials.keyring := Credentials.keyring w;
                 Credentials.asked := Credentials.asked w;
                 Credentials.out
                 := Credentials.out w ++ Credentials.opening |}
              eq_refl eq_refl Hk) as [Hf [_ Ho]].
  rewrite !setup_credentials_loop.
  destruct (Credentials.for_each (Credentials.setup_one kb1) _ _)
    as [[[]|e1] v1],
    (Credentials.for_each (Credentials.setup_one kb2) _ _)
    as [[[]|e2] v2];
    cbn [fst snd Credentials.out] in Hf, Ho |- *; try discriminate Hf.
  - rewrite Ho. split; reflexivity.
  - split; assumption.
Qed.

Lemma typed_secret_is_not_shown_witness :
  fst (Credentials.setup_credentials Credentials.demo_keyboard
         Credentials.fresh)
  = fst (Credentials.setup_credentials
           (fun n => match n with
                     | 3 => Line (lit "hunter2")
                     | _ => Line []
                     end)
           Credentials.fresh)
  /\ Credentials.out
       (snd (Credentials.setup_credentials Credentials.demo_keyboard
               Credentials.fresh))
     = Credentials.out
         (snd (Credentials.setup_credentials
                 (fun n => match n with
                           | 3 => Line (lit "hunter2")
                           | _ => Line []
                           end)
                 Credentials.fresh)).
Proof.
  apply (typed_secret_is_not_shown Credentials.demo_keyboard
           (fun n => match n with
                     | 3 => Line (lit "hunter2")
                     | _ => Line []
                     end)
           Credentials.fresh).
  intros i. cbn [Credentials.asked Credentials.fresh Nat.add].
  destruct i as [|[|[|[|i]]]]; try (left; reflexivity).
  right. eexists. exists (lit "s3cret"), (lit "hunter2").
  split; [reflexivity|]. split; [reflexivity|].
  split; [reflexivity|]. split; [reflexivity|].
  split; discriminate.
Defined.

(** One turn of the loop of [delete_credentials]: it returns, and the
    entry of the credential is gone. *)
Lemma delete_one_run (cred : Credentials.credential) (w : Credentials.world) :
  fst (Credentials.delete_one cred w) = Credentials.Returned tt
  /\ forall service username,
       Credentials.password
         (Credentials.keyring (snd (Credentials.delete_one cred w)))
         service username
       = if (Py.eqb Credentials.SERVICE_NAME service
             && Py.eqb (Credentials.key cred) username)%bool
         then None
         else Credentials.password (Credentials.keyring w) service username.
Proof.
  unfold Credentials.delete_one, Credentials.bind,
    Credentials.delete_password, Credentials.print, Credentials.emit.
  destruct (Credentials.password (Credentials.keyring w)
              Credentials.SERVICE_NAME (Credentials.key cred)) eqn:Hp;
    cbn [fst snd Credentials.keyring].
  - split; [reflexivity|]. intros service username.
    apply password_without.
  - split; [reflexivity|]. intros service username.
    destruct (Py.eqb Credentials.SERVICE_NAME service
              && Py.eqb (Credentials.key cred) username)%bool eqn:Hc;
      [|reflexivity].
    apply same_names_spec in Hc. injection Hc as <- <-. exact Hp.
Qed.

Lemma delete_loop (creds : list Credentials.credential) :
  forall w : Credentials.world,
    fst (Credentials.for_each Credentials.delete_one creds w)
    = Credentials.Returned tt
    /\ forall service username,
         Credentials.password
           (Credentials.keyring
              (snd (Credentials.for_each Credentials.delete_one creds w)))
           service username
         = if (Py.eqb Credentials.SERVICE_NAME service
               && existsb
                    (fun cred => Py.eqb (Credentials.key cred) username)
                    creds)%bool
           then None
           else Credentials.password (Credentials.keyring w)
                  service username.
Proof.
  induction creds as [|c r IH]; intros w.
  - cbn. split; [reflexivity|]. intros service username.
    rewrite andb_false_r. reflexivity.
  - rewrite for_each_cons.
    destruct (delete_one_run c w) as [Hf Hp].
    destruct (Credentials.delete_one c w) as [[[]|e] w1];
      [|discriminate Hf].
    cbn [snd] in Hp.
    destruct (IH w1) as [Hf' Hp']. split; [exact Hf'|].
    intros service username. rewrite Hp', Hp. cbn [existsb].
    destruct (Py.eqb Credentials.SERVICE_NAME service);
      destruct (Py.eqb (Credentials.key c) username);
      destruct (existsb _ r); reflexivity.
Qed.

(** [delete_credentials] changes the keyring only when the answer to its
    question lowercases to [yes].  It then returns, the five credentials
    are gone from the service of the script, and every other entry of the
    keyring is as it was. *)
Theorem delete_needs_yes :
  forall (kb : nat -> key_reply) (ext : str -> char -> str -> str)
         (w : Credentials.world),
    ((forall answer, kb (Credentials.asked w) = Line answer ->
                     lower ext answer <> lit "yes") ->
     Credentials.keyring (snd (Credentials.delete_credentials kb ext w))
     = Credentials.keyring w)
    /\ (forall answer,
           kb (Credentials.asked w) = Line answer ->
           lower ext answer = lit "yes" ->
           fst (Credentials.delete_credentials kb ext w)
           = Credentials.Returned tt
           /\ forall service username,
                Credentials.password
                  (Credentials.keyring
                     (snd (Credentials.delete_credentials kb ext w)))
                  service username
                = if (Py.eqb Credentials.SERVICE_NAME service
                      && Credentials.is_credential username)%bool
                  then None
                  else Credentials.password (Credentials.keyring w)
                         service username).
Proof.
  intros kb ext w.
  split.
  - intros Hno.
    unfold Credentials.delete_credentials, Credentials.bind at 1,
      Credentials.input, Credentials.read.
    destruct (kb (Credentials.asked w)) as [answer| |]; [|reflexivity..].
    destruct (Py.eqb (lower ext answer) (lit "yes")) eqn:He.
    + exfalso. apply (Hno answer eq_refl). apply eqb_eq. exact He.
    + reflexivity.
  - intros answer Hk Hyes.
    assert (Hrun :
      Credentials.delete_credentials kb ext w
      = Credentials.bind
          (Credentials.print (lit "
Deleting credentials..."))
          (fun _ =>
             Credentials.bind
               (Credentials.for_each Credentials.delete_one
                  Credentials.CREDENTIALS)
               (fun _ =>
                  Credentials.print (lit "
" ++ Credentials.check_mark ++ lit " All credentials deleted")))
          (snd (Credentials.input kb (lit "
" ++ Credentials.warning_sign
  ++ lit "  Delete all stored credentials? (yes/no): ") w))).
    { unfold Credentials.delete_credentials, Credentials.bind at 1,
        Credentials.input, Credentials.read.
      rewrite Hk, Hyes. reflexivity. }
    rewrite Hrun. clear Hrun.
    assert (Hres : exists w1,
      Credentials.bind
        (Credentials.print (lit "
Deleting credentials..."))
        (fun _ =>
           Credentials.bind
             (Credentials.for_each Credentials.delete_one
                Credentials.CREDENTIALS)
             (fun _ =>
                Credentials.print (lit "
" ++ Credentials.check_mark ++ lit " All credentials deleted")))
        (snd (Credentials.input kb (lit "
" ++ Credentials.warning_sign
  ++ lit "  Delete all stored credentials? (yes/no): ") w))
      = (Credentials.Returned tt, w1)
      /\ forall service username,
           Credentials.password (Credentials.keyring w1) service username
           = if (Py.eqb Credentials.SERVICE_NAME service
                 && Credentials.is_credential username)%bool
             then None
             else Credentials.password (Credentials.keyring w)
                    service username).
    { unfold Credentials.bind at 1, Credentials.print at 1,
        Credentials.emit at 1.
      unfold Credentials.bind at 1.
      match goal with
      | |- context [Credentials.for_each Credentials.delete_one
                      Credentials.CREDENTIALS ?w0] =>
          destruct (delete_loop Credentials.CREDENTIALS w0) as [Hf Hp];
          destruct (Credentials.for_each Credentials.delete_one
                      Credentials.CREDENTIALS w0) as [[[]|e] w1];
          [|discriminate Hf]
      end.
      eexists. split; [reflexivity|]. intros service username.
      cbn [snd Credentials.keyring] in Hp |- *.
      rewrite Hp. unfold Credentials.is_credential, Credentials.input,
        Credentials.read.
      rewrite Hk. reflexivity. }
    destruct Hres as [w1 [-> Hp]]. split; [reflexivity|exact Hp].
Qed.

Lemma delete_needs_yes_witness :
  fst (Credentials.delete_credentials (fun _ => Line (lit "YES"))
         (fun _ c _ => [c])
         (snd (Credentials.setup_credentials Credentials.demo_keyboard
                 Credentials.fresh)))
  = Credentials.Returned tt
  /\ forall service username,
       Credentials.password
         (Credentials.keyring
            (snd (Credentials.delete_credentials
                    (fun _ => Line (lit "YES")) (fun _ c _ => [c])
                    (snd (Credentials.setup_credentials
                            Credentials.demo_keyboard Credentials.fresh)))))
         service username
       = if (Py.eqb Credentials.SERVICE_NAME service
             && Credentials.is_credential username)%bool
         then None
         else Credentials.password
                (Credentials.keyring
                   (snd (Credentials.setup_credentials
                           Credentials.demo_keyboard Credentials.fresh)))
                service username.
Proof.
  destruct (delete_needs_yes (fun _ => Line (lit "YES")) (fun _ c _ => [c])
              (snd (Credentials.setup_credentials Credentials.demo_keyboard
                      Credentials.fresh))) as [_ H].
  apply (H (lit "YES")); reflexivity.
Defined.

(** One turn of the loop of [list_credentials] on two keyrings, the
    terminals showing the same: when the credential is the same in both,
    or is secret and not empty in both, the turn prints the same; it
    returns and changes neither the keyring nor the number of prompts. *)
Lemma list_one_masks (cred : Credentials.credential)
    (w1 w2 : Credentials.world) :
  Credentials.out w1 = Credentials.out w2 ->
  Credentials.password (Credentials.keyring w1) Credentials.SERVICE_NAME
    (Credentials.key cred)
  = Credentials.password (Credentials.keyring w2) Credentials.SERVICE_NAME
      (Credentials.key cred)
  \/ (Credentials.secret cred = true
      /\ Credentials.truthy
           (Credentials.password (Credentials.keyring w1)
              Credentials.SERVICE_NAME (Credentials.key cred)) = true
      /\ Credentials.truthy
           (Credentials.password (Credentials.keyring w2)
              Credentials.SERVICE_NAME (Credentials.key cred)) = true) ->
  fst (Credentials.list_one cred w1) = Credentials.Returned tt
  /\ Credentials.keyring (snd (Credentials.list_one cred w1))
     = Credentials.keyring w1
  /\ Credentials.asked (snd (Credentials.list_one cred w1))
     = Credentials.asked w1
  /\ Credentials.out (snd (Credentials.list_one cred w1))
     = Credentials.out (snd (Credentials.list_one cred w2)).
Proof.
  intros Ho Hp.
  unfold Credentials.list_one, Credentials.bind, Credentials.get_password.
  destruct Hp as [Hp|[Hs [H1 H2]]].
  - rewrite <- Hp.
    destruct (Credentials.truthy _); cbn; rewrite Ho; repeat split.
  - rewrite H1, H2, Hs. cbn. rewrite Ho. repeat split.
Qed.

Lemma list_loop_masks (creds : list Credentials.credential) :
  forall w1 w2 : Credentials.world,
    Credentials.out w1 = Credentials.out w2 ->
    (forall cred, In cred creds ->
        Credentials.password (Credentials.keyring w1)
          Credentials.SERVICE_NAME (Credentials.key cred)
        = Credentials.password (Credentials.keyring w2)
            Credentials.SERVICE_NAME (Credentials.key cred)
        \/ (Credentials.secret cred = true
            /\ Credentials.truthy
                 (Credentials.password (Credentials.keyring w1)
                    Credentials.SERVICE_NAME (Credentials.key cred)) = true
            /\ Credentials.truthy
                 (Credentials.password (Credentials.keyring w2)
                    Credentials.SERVICE_NAME (Credentials.key cred))
               = true)) ->
    fst (Credentials.for_each Credentials.list_one creds w1)
    = Credentials.Returned tt
    /\ Credentials.keyring
         (snd (Credentials.for_each Credentials.list_one creds w1))
       = Credentials.keyring w1
    /\ Credentials.asked
         (snd (Credentials.for_each Credentials.list_one creds w1))
       = Credentials.asked w1
    /\ Credentials.out
         (snd (Credentials.for_each Credentials.list_one creds w1))
       = Credentials.out
           (snd (Credentials.for_each Credentials.list_one creds w2)).
Proof.
  induction creds as [|c r IH]; intros w1 w2 Ho Hp.
  - cbn. repeat split. exact Ho.
  - rewrite !for_each_cons.
    destruct (list_one_masks c w1 w2 Ho (Hp c (or_introl eq_refl)))
      as [Hf1 [Hk1 [Ha1 Ho1]]].
    assert (Hsym : Credentials.password (Credentials.keyring w2)
                     Credentials.SERVICE_NAME (Credentials.key c)
                   = Credentials.password (Credentials.keyring w2)
                       Credentials.SERVICE_NAME (Credentials.key c)
                   \/ (Credentials.secret c = true
                       /\ Credentials.truthy
                            (Credentials.password (Credentials.keyring w2)
                               Credentials.SERVICE_NAME (Credentials.key c))
                          = true
                       /\ Credentials.truthy
                            (Credentials.password (Credentials.keyring w2)
                               Credentials.SERVICE_NAME (Credentials.key c))
                          = true)) by (left; reflexivity).
    destruct (list_one_masks c w2 w2 eq_refl Hsym) as [Hf2 [Hk2 _]].
    destruct (Credentials.list_one c w1) as [[[]|e1] v1];
      [|discriminate Hf1].
    destruct (Credentials.list_one c w2) as [[[]|e2] v2];
      [|discriminate Hf2].
    cbn [fst snd] in *.
    destruct (IH v1 v2 Ho1) as [Hf [Hk [Ha Hout]]].
    { intros cred Hin. rewrite Hk1, Hk2. apply Hp. right. exact Hin. }
    repeat split; congruence.
Qed.

Lemma list_credentials_loop (w : Credentials.world) :
  Credentials.list_credentials w
  = Credentials.for_each Credentials.list_one Credentials.CREDENTIALS
      {| Credentials.keyring := Credentials.keyring w;
         Credentials.asked := Credentials.asked w;
         Credentials.out
         := Credentials.out w
            ++ [ Credentials.Written Credentials.rule;
                 Credentials.Written (lit "Stored Credentials");
                 Credentials.Written Credentials.rule ] |}.
Proof.
  unfold Credentials.list_credentials, Credentials.bind at 1 2 3,
    Credentials.print, Credentials.emit.
  cbv beta iota. cbn [Credentials.keyring Credentials.asked Credentials.out].
  rewrite <- !app_assoc. reflexivity.
Qed.

(** [list_credentials] only reads and prints: it returns, asks nothing,
    and leaves the keyring as it was.  And it shows no secret: on two
    keyrings that differ only in the value of a secret credential, set
    in both, it prints the same. *)
Theorem listing_shows_no_secret :
  forall w1 w2 : Credentials.world,
    Credentials.out w1 = Credentials.out w2 ->
    (forall cred, In cred Credentials.CREDENTIALS ->
        Credentials.password (Credentials.keyring w1)
          Credentials.SERVICE_NAME (Credentials.key cred)
        = Credentials.password (Credentials.keyring w2)
            Credentials.SERVICE_NAME (Credentials.key cred)
        \/ (Credentials.secret cred = true
            /\ Credentials.truthy
                 (Credentials.password (Credentials.keyring w1)
                    Credentials.SERVICE_NAME (Credentials.key cred)) = true
            /\ Credentials.truthy
                 (Credentials.password (Credentials.keyring w2)
                    Credentials.SERVICE_NAME (Credentials.key cred))
               = true)) ->
    fst (Credentials.list_credentials w1) = Credentials.Returned tt
    /\ Credentials.keyring (snd (Credentials.list_credentials w1))
       = Credentials.keyring w1
    /\ Credentials.asked (snd (Credentials.list_credentials w1))
       = Credentials.asked w1
    /\ Credentials.out (snd (Credentials.list_credentials w1))
       = Credentials.out (snd (Credentials.list_credentials w2)).
Proof.
  intros w1 w2 Ho Hp. rewrite !list_credentials_loop.
  match goal with
  | |- context [Credentials.for_each Credentials.list_one
                  Credentials.CREDENTIALS ?a] =>
      match goal with
      | |- context [Credentials.out
                      (snd (Credentials.for_each Credentials.list_one
                              Credentials.CREDENTIALS ?b))
                    = Credentials.out
                        (snd (Credentials.for_each Credentials.list_one
                                Credentials.CREDENTIALS ?c))] =>
          destruct (list_loop_masks Credentials.CREDENTIALS b c)
            as [Hf [Hk [Ha Hout]]]
      end
  end.
  - cbn [Credentials.out]. rewrite Ho. reflexivity.
  - cbn [Credentials.keyring]. exact Hp.
  - cbn [Credentials.keyring Credentials.asked] in Hk, Ha.
    repeat split; assumption.
Qed.

Lemma listing_shows_no_secret_witness :
  fst (Credentials.list_credentials
         (snd (Credentials.set_password Credentials.SERVICE_NAME
                 (lit "postgres_password") (lit "s3cret")
                 Credentials.fresh)))
  = Credentials.Returned tt
  /\ Credentials.keyring
       (snd (Credentials.list_credentials
               (snd (Credentials.set_password Credentials.SERVICE_NAME
                       (lit "postgres_password") (lit "s3cret")
                       Credentials.fresh))))
     = Credentials.keyring
         (snd (Credentials.set_password Credentials.SERVICE_NAME
                 (lit "postgres_password") (lit "s3cret")
                 Credentials.fresh))
  /\ Credentials.asked
       (snd (Credentials.list_credentials
               (snd (Credentials.set_password Credentials.SERVICE_NAME
                       (lit "postgres_password") (lit "s3cret")
                       Credentials.fresh))))
     = Credentials.asked
         (snd (Credentials.set_password Credentials.SERVICE_NAME
                 (lit "postgres_password") (lit "s3cret")
                 Credentials.fresh))
  /\ Credentials.out
       (snd (Credentials.list_credentials
               (snd (Credentials.set_password Credentials.SERVICE_NAME
                       (lit "postgres_password") (lit "s3cret")
                       Credentials.fresh))))
     = Credentials.out
         (snd (Credentials.list_credentials
                 (snd (Credentials.set_password Credentials.SERVICE_NAME
                         (lit "postgres_password") (lit "hunter2")
                         Credentials.fresh)))).
Proof.
  apply (listing_shows_no_secret
           (snd (Credentials.set_password Credentials.SERVICE_NAME
                   (lit "postgres_password") (lit "s3cret")
                   Credentials.fresh))
           (snd (Credentials.set_password Credentials.SERVICE_NAME
                   (lit "postgres_password") (lit "hunter2")
                   Credentials.fresh))
           eq_refl).
  intros cred H. cbn in H.
  repeat (destruct H as [<-|H];
          [first [left; reflexivity
                 |right; repeat split; reflexivity]|]).
  destruct H.
Defined.

(** Of the commands of [main], only [setup] (also the default) and
    [delete] can change the keyring or ask anything: with any other
    argument, [list] or an unknown command, [main] returns after
    printing, the keyring and the keyboard untouched. *)
Theorem other_commands_only_print :
  forall (kb : nat -> key_reply) (ext : str -> char -> str -> str)
         (program arg : str) (rest : list str) (w : Credentials.world),
    lower ext arg <> lit "setup" ->
    lower ext arg <> lit "delete" ->
    fst (Credentials.main kb ext (program :: arg :: rest) w)
    = Credentials.Returned tt
    /\ Credentials.keyring
         (snd (Credentials.main kb ext (program :: arg :: rest) w))
       = Credentials.keyring w
    /\ Credentials.asked
         (snd (Credentials.main kb ext (program :: arg :: rest) w))
       = Credentials.asked w.
Proof.
  intros kb ext program arg rest w Hs Hd. unfold Credentials.main.
  destruct (Py.eqb (lower ext arg) (lit "list")) eqn:Hl.
  - assert (Hsame : forall cred, In cred Credentials.CREDENTIALS ->
        Credentials.password (Credentials.keyring w)
          Credentials.SERVICE_NAME (Credentials.key cred)
        = Credentials.password (Credentials.keyring w)
            Credentials.SERVICE_NAME (Credentials.key cred)
        \/ (Credentials.secret cred = true
            /\ Credentials.truthy
                 (Credentials.password (Credentials.keyring w)
                    Credentials.SERVICE_NAME (Credentials.key cred)) = true
            /\ Credentials.truthy
                 (Credentials.password (Credentials.keyring w)
                    Credentials.SERVICE_NAME (Credentials.key cred))
               = true)) by (intros cred _; left; reflexivity).
    rewrite list_credentials_loop.
    match goal with
    | |- context [Credentials.for_each Credentials.list_one
                    Credentials.CREDENTIALS ?w0] =>
        destruct (list_loop_masks Credentials.CREDENTIALS w0 w0 eq_refl)
          as [Hf [Hk [Ha _]]]; [exact Hsame|]
    end.
    cbn [Credentials.keyring Credentials.asked] in Hk, Ha.
    repeat split; assumption.
  - destruct (Py.eqb (lower ext arg) (lit "delete")) eqn:H2.
    { exfalso. apply Hd. apply eqb_eq. exact H2. }
    destruct (Py.eqb (lower ext arg) (lit "setup")) eqn:H3.
    { exfalso. apply Hs. apply eqb_eq. exact H3. }
    cbn. repeat split.
Qed.

Lemma other_commands_only_print_witness :
  fst (Credentials.main Credentials.demo_keyboard (fun _ c _ => [c])
         [lit "credentials_setup.py"; lit "LIST"] Credentials.fresh)
  = Credentials.Returned tt
  /\ Credentials.keyring
       (snd (Credentials.main Credentials.demo_keyboard (fun _ c _ => [c])
               [lit "credentials_setup.py"; lit "LIST"] Credentials.fresh))
     = Credentials.keyring Credentials.fresh
  /\ Credentials.asked
       (snd (Credentials.main Credentials.demo_keyboard (fun _ c _ => [c])
               [lit "credentials_setup.py"; lit "LIST"] Credentials.fresh))
     = Credentials.asked Credentials.fresh.
Proof.
  apply (other_commands_only_print Credentials.demo_keyboard
           (fun _ c _ => [c]) (lit "credentials_setup.py") (lit "LIST") []
           Credentials.fresh).
  - vm_compute. discriminate.
  - vm_compute. discriminate.
Defined.

(* ===================================================================== *)
(** ** The answer of chat mode *)
(* ===================================================================== *)

(** A turn of chat mode is recorded.  When its two statements succeed
    and the model answers, [handle_chat_mode] prints the answer and
    appends it to [chat_history] as a message of the assistant in this
    session, stamped by the server; the append is committed, and nothing
    else in the tables changes. *)
Theorem chat_answer_is_recorded :
  forall (E : env) (w : world) (user_input response : str),
    fault E (statements w) = None ->
    fault E (S (statements w)) = None ->
    (forall messages,
        llm E (completions w) messages = Completion response) ->
    exists w' : world,
      handle_chat_mode E user_input w = (Ok tt, w')
      /\ working (conn w')
         = {| chat_history :=
                chat_history (working (conn w))
                ++ [ {| session_id := SESSION_ID E;
                        role := lit "assistant";
                        content := response;
                        timestamp := clock E (S (statements w)) |} ];
              documents := documents (working (conn w));
              columns := columns (working (conn w));
              application := application (working (conn w)) |}
      /\ committed (conn w') = working (conn w')
      /\ In (Printed (Markdown response)) (out w').
Proof.
  intros E w user_input response Hf Hf2 Hllm.
  unfold handle_chat_mode. unfold bind at 1. unfold get_chat_history.
  unfold bind at 1.
  rewrite (execute_query_rows E _ _ w _ _ Hf
             (server_history_ok _ _ _ _ _ 10%Z _ ltac:(lia))).
  rewrite conn_eta. unfold ret at 1.
  rewrite <- map_rev. unfold bind at 1. rewrite mapM_history_message.
  unfold try_except, bind, console_print, emit, chat.
  cbn [completions after_statement]. rewrite Hllm.
  cbn [conn statements completions prompts embedding_model out].
  unfold save_chat_message, bind.
  erewrite execute_query_count; [| exact Hf2 | apply server_insert].
  eexists. split; [reflexivity|].
  cbn [conn working committed statements after_statement out].
  split; [reflexivity|]. split; [reflexivity|].
  rewrite <- !app_assoc. apply in_or_app. right.
  cbn. tauto.
Qed.

Lemma chat_answer_is_recorded_witness :
  exists w' : world,
    handle_chat_mode (demo_env [] [Completion (lit "Hi there!")] [])
      (lit "hello") demo_world = (Ok tt, w')
    /\ working (conn w')
       = {| chat_history :=
              chat_history (working (conn demo_world))
              ++ [ {| session_id
                      := SESSION_ID
                           (demo_env [] [Completion (lit "Hi there!")] []);
                      role := lit "assistant";
                      content := lit "Hi there!";
                      timestamp
                      := clock (demo_env [] [Completion (lit "Hi there!")] [])
                           (S (statements demo_world)) |} ];
            documents := documents (working (conn demo_world));
            columns := columns (working (conn demo_world));
            application := application (working (conn demo_world)) |}
    /\ committed (conn w') = working (conn w')
    /\ In (Printed (Markdown (lit "Hi there!"))) (out w').
Proof.
  apply (chat_answer_is_recorded
           (demo_env [] [Completion (lit "Hi there!")] []) demo_world
           (lit "hello") (lit "Hi there!") eq_refl eq_refl).
  intros messages. reflexivity.
Defined.
